(** * BNO08x diagnostic programs: SHTP framing, polling and advertisement parsing

    A shallow embedding of the Go programs of the repository that talk to the
    BNO08x over the two-wire bus without going through the driver package:
    the comprehensive test, the set-feature test, the minimal I2C test, the
    hybrid test and the channel-debug program, together with the three demo
    copies of [quaternionToEuler].  The driver package itself is not among
    the sources; the fixed-point scaling of its report decoder is modelled
    from the spec.  Of the programs that go through the driver, the parts
    that do not depend on it are embedded as well: the number formatting
    of the demos ([itoa], [formatFloat], [formatHex]), the angle mappings
    and the change detection of the MIDI demo, and the address probe of
    the diagnostic tool.

    Conventions.
    - A byte ([uint8]) and a [uint16] are integers of [Z]; every wrap-around
      of the source is written out with [uint8] and [uint16].
    - A Go slice or array is a [list Z]; an index expression is a checked
      lookup, and an index out of range is the run-time panic of Go.
    - [i2c.Tx], [time.Sleep] and the output of the advertisement parsers are
      effects, recorded in order in a trace; the device is an oracle that
      answers the n-th bus transaction.  Other [println] output is left out,
      but the index expressions inside a [println] are kept, since they can
      panic. *)

From stdpp Require Import base list gmap.
From Stdlib Require Import ZArith Lia QArith Qpower.
From Stdlib Require Import Floats.SpecFloat.

Open Scope Z_scope.

(** ** Go primitives *)

Module Go.

Definition uint8 (z : Z) : Z := z mod 256.
Definition uint16 (z : Z) : Z := z mod 65536.

(** [l[i]] for an index of an integer type; [None] is the panic. *)
Definition at_index {A} (l : list A) (i : Z) : option A :=
  if i <? 0 then None else l !! Z.to_nat i.

(** [l[i] = x]. *)
Definition set_index {A} (l : list A) (i : Z) (x : A) : option (list A) :=
  if (0 <=? i) && (i <? Z.of_nat (length l))
  then Some (<[Z.to_nat i := x]> l) else None.

(** [make([]byte, n)]. *)
Definition make (n : Z) : list Z := replicate (Z.to_nat n) 0.

(** [copy(dst, src)]: the first [min(len(dst), len(src))] elements. *)
Definition copy (dst src : list Z) : list Z :=
  take (length dst) src ++ drop (length src) dst.

(** [binary.LittleEndian.Uint16(b)]. *)
Definition Uint16 (b : list Z) : option Z :=
  match b with
  | b0 :: b1 :: _ => Some (Z.lor b0 (Z.shiftl b1 8))
  | _ => None
  end.

(** [binary.LittleEndian.PutUint16(b, v)]. *)
Definition PutUint16 (b : list Z) (v : Z) : option (list Z) :=
  match b with
  | _ :: _ :: rest => Some (uint8 v :: uint8 (Z.shiftr v 8) :: rest)
  | _ => None
  end.

(** [l[lo:hi]], checked against the length of [l].  (Go checks [hi]
    against the capacity; a slice expression that passes this check
    passes Go's.) *)
Definition slice {A} (l : list A) (lo hi : Z) : option (list A) :=
  if (0 <=? lo) && (lo <=? hi) && (hi <=? Z.of_nat (length l))
  then Some (take (Z.to_nat (hi - lo)) (drop (Z.to_nat lo) l))
  else None.

(** [len(l)] as an [int]. *)
Definition len {A} (l : list A) : Z := Z.of_nat (length l).

(** The result of a loop run with a bound on its iterations. *)
Inductive Outcome (A : Type) :=
| Done (a : A)
| Panicked
| OutOfFuel.
Arguments Done {A} a.
Arguments Panicked {A}.
Arguments OutOfFuel {A}.

(** A signed integer of [bits] bits: the wrap-around of an arithmetic
    result.  Go's [int] has 32 or 64 bits, as the target has. *)
Definition int_wrap (bits z : Z) : Z :=
  (z + 2 ^ (bits - 1)) mod 2 ^ bits - 2 ^ (bits - 1).

End Go.

(** ** The bus and the effects of a program *)

Module Bus.

(** What the device answers to one transaction: whether [Tx] returns an
    error, and the bytes it puts in the read buffer. *)
Record Response := { rsp_err : bool; rsp_data : list Z }.

(** Lines printed by the advertisement parsers. *)
Inductive Line :=
| PrChannel (chanNum : Z) (name : list Z)
| PrWakeChannel (chanNum : Z) (name : list Z)
| PrVersion (version : list Z)
| PrNormalChannel (chanNum : Z)
| PrChannelName (chanNum : Z) (name : list Z).

Inductive Event :=
| EvTx (addr : Z) (w : list Z) (rlen : nat)
| EvSleep (ms : Z)
| EvPrint (l : Line).

Record World := {
  w_bus : nat -> Response;
  w_n : nat;
  w_trace : list Event
}.

Definition emit (e : Event) (s : World) : World :=
  {| w_bus := w_bus s; w_n := w_n s; w_trace := w_trace s ++ [e] |}.

(** A computation: [None] is a run-time panic. *)
Definition M (A : Type) : Type := World -> option A * World.

Definition ret {A} (a : A) : M A := fun s => (Some a, s).

Definition bind {A B} (m : M A) (f : A -> M B) : M B := fun s =>
  match m s with
  | (Some a, s') => f a s'
  | (None, s') => (None, s')
  end.

Definition lift {A} (o : option A) : M A := fun s => (o, s).

Definition run {A} (o : Go.Outcome A) : M A :=
  lift (match o with Go.Done a => Some a | _ => None end).

(** The read buffer after a transaction: the device's bytes, zero where
    it gave none (the buffer comes from [make]). *)
Definition fill (rlen : nat) (data : list Z) : list Z :=
  take rlen (map Go.uint8 data ++ replicate rlen 0).

(** [i2c.Tx(addr, w, r)] with [len(r) = rlen]; returns [err != nil] and
    the contents of [r]. *)
Definition Tx (addr : Z) (w : list Z) (rlen : nat) : M (bool * list Z) :=
  fun s =>
    let r := w_bus s (w_n s) in
    (Some (rsp_err r, fill rlen (rsp_data r)),
     {| w_bus := w_bus s; w_n := S (w_n s);
        w_trace := w_trace s ++ [EvTx addr w rlen] |}).

(** [time.Sleep(ms * time.Millisecond)]. *)
Definition Sleep (ms : Z) : M unit := fun s => (Some tt, emit (EvSleep ms) s).

Definition PrintAll (ls : list Line) : M unit :=
  fun s => (Some tt, {| w_bus := w_bus s; w_n := w_n s;
                        w_trace := w_trace s ++ map EvPrint ls |}).

Declare Scope prog_scope.
Delimit Scope prog_scope with prog.
Bind Scope prog_scope with M.
Notation "x ← y ; z" := (bind y (fun x => z))
  (at level 20, y at level 100, z at level 200, only parsing) : prog_scope.
Notation "' x ← y ; z" := (bind y (fun x => z))
  (at level 20, x pattern, y at level 100, z at level 200, only parsing)
  : prog_scope.
Notation "x ;; z" := (bind x (fun _ => z))
  (at level 100, z at level 200, only parsing, right associativity)
  : prog_scope.
Open Scope prog_scope.

(** [for i := 0; i < n; i++ { body }] where the body answers [true] for
    [break]; [continue] is an early [false]. *)
Fixpoint forN (n : nat) (body : M bool) : M unit :=
  match n with
  | O => ret tt
  | S k => b ← body; if b then ret tt else forN k body
  end.

(** The same loop with a variable carried across the iterations. *)
Fixpoint forAcc {V : Type} (n : nat) (body : V -> M V) (acc : V) : M V :=
  match n with
  | O => ret acc
  | S k => acc' ← body acc; forAcc k body acc'
  end.

(** A device that answers the transactions from a list, and an idle
    all-zero header afterwards. *)
Definition idle : Response := {| rsp_err := false; rsp_data := [] |}.
Definition scripted (l : list Response) (n : nat) : Response :=
  nth n l idle.
Definition start (bus : nat -> Response) : World :=
  {| w_bus := bus; w_n := O; w_trace := [] |}.

(** The world after [k] more transactions and the events [evs]. *)
Definition after (s : World) (k : nat) (evs : list Event) : World :=
  {| w_bus := w_bus s; w_n := (k + w_n s)%nat;
     w_trace := w_trace s ++ evs |}.

(** The frames written to the bus, in order. *)
Definition writes (t : list Event) : list (list Z) :=
  omap (fun e => match e with
                 | EvTx _ (b :: w) _ => Some (b :: w)
                 | _ => None
                 end) t.

(** The lines printed, in order. *)
Definition prints (t : list Event) : list Line :=
  omap (fun e => match e with EvPrint l => Some l | _ => None end) t.

(** The sleeps, in order. *)
Definition sleeps (t : list Event) : list Z :=
  omap (fun e => match e with EvSleep ms => Some ms | _ => None end) t.

(** The lengths of the reads issued, in order. *)
Definition reads (t : list Event) : list nat :=
  omap (fun e => match e with
                 | EvTx _ _ (S n) => Some (S n)
                 | _ => None
                 end) t.

End Bus.

Import Go Bus.
Open Scope prog_scope.

(** ** comprehensive_test/main.go *)

Module Comprehensive.

Definition addr : Z := 0x4A.

(** [sendOnChannel]; returns the updated counter table. *)
Definition sendOnChannel (addr : Z) (seq : list Z) (channel : Z)
    (payload : list Z) : M (list Z) :=
  let frameLen := 4 + Z.of_nat (length payload) in
  let frame := make frameLen in
  hdr ← lift (PutUint16 (take 2 frame) (uint16 frameLen));
  let frame := hdr ++ drop 2 frame in
  frame ← lift (set_index frame 2 channel);
  s ← lift (at_index seq channel);
  frame ← lift (set_index frame 3 s);
  seq ← lift (set_index seq channel (uint8 (s + 1)));
  let frame := take 4 frame ++ copy (drop 4 frame) payload in
  Tx addr frame 0;;
  ret seq.

Definition softReset : list Z := [5; 0; 1; 0; 1].

Definition initCmd : list Z :=
  [0xF2; 0; 0x04; 0x01; 0; 0; 0; 0; 0; 0; 0; 0; 0].

Definition prodIDReq : list Z := [0xF9; 0x00].

Definition setFeature : list Z :=
  [ 0xFD;                   (* SET_FEATURE *)
    0x08;                   (* Game Rotation Vector *)
    0x00;                   (* Flags *)
    0x00; 0x00;             (* Change sensitivity *)
    0x10; 0x27; 0x00; 0x00; (* 10000 microseconds *)
    0x00; 0x00; 0x00; 0x00; (* Batch interval *)
    0x00; 0x00; 0x00; 0x00  (* Sensor specific *) ].

(** Step 1: the soft reset, in a loop of five attempts. *)
Definition step1 : M unit :=
  forN 5 ('(err, _) ← Tx addr softReset 0;
          if err then Sleep 30;; ret false else ret true);;
  Sleep 300.

(** Step 2: drain or read the advertisement. *)
Definition step2 : M unit :=
  forN 10 ('(_, header) ← Tx addr [] 4;
           length ← lift (Uint16 (take 2 header));
           if (0 <? length) && (length <? 1000)
              && (Z.land length 0x8000 =? 0)
           then
             lift (at_index header 2);;
             (if 4 <? length
              then Tx addr [] (Z.to_nat (length - 4));; ret tt
              else ret tt);;
             ret true
           else Sleep 50;; ret false).

(** Step 3: the Initialize command, then five header reads. *)
Definition step3 (seq : list Z) : M (list Z) :=
  seq ← sendOnChannel addr seq 2 initCmd;
  Sleep 100;;
  forN 5 (Tx addr [] 4;; Sleep 20;; ret false);;
  ret seq.

(** Step 4: the product-ID request and its responses. *)
Definition step4 (seq : list Z) : M (list Z) :=
  seq ← sendOnChannel addr seq 2 prodIDReq;
  Sleep 100;;
  forN 10 ('(_, header) ← Tx addr [] 4;
           length ← lift (Uint16 (take 2 header));
           (if (0 <? length) && (length <? 1000)
               && (Z.land length 0x8000 =? 0)
            then
              lift (at_index header 2);;
              if 4 <? length
              then '(_, payload) ← Tx addr [] (Z.to_nat (length - 4));
                   if 0 <? Z.of_nat (List.length payload)
                   then lift (at_index payload 0);; ret tt
                   else ret tt
              else ret tt
            else ret tt);;
           Sleep 20;; ret false);;
  ret seq.

(** Step 5: enable the game rotation vector. *)
Definition step5 (seq : list Z) : M (list Z) :=
  seq ← sendOnChannel addr seq 2 setFeature;
  Sleep 100;;
  ret seq.

(** One iteration of the polling loop of step 6; [reportCount] is the
    only variable it changes (a Go [int], incremented at most 100 times). *)
Definition poll (reportCount : Z) : M Z :=
  '(err, header) ← Tx addr [] 4;
  if err then Sleep 10;; ret reportCount else
  length ← lift (Uint16 (take 2 header));
  if negb (Z.land length 0x8000 =? 0) then Sleep 10;; ret reportCount else
  if length =? 0 then Sleep 10;; ret reportCount else
  let length := Z.land length (uint16 (Z.lnot 0x8000)) in
  if (0 <? length) && (length <? 500) then
    '(err, fullPacket) ← Tx addr [] (Z.to_nat length);
    if err then Sleep 10;; ret reportCount else
    channel ← lift (at_index fullPacket 2);
    reportCount ←
      (if (channel =? 3) || (channel =? 4) || (channel =? 5) then
         let reportCount := reportCount + 1 in
         (if 4 <? length
          then lift (at_index fullPacket 4);;
               lift (at_index fullPacket 5);;
               lift (at_index fullPacket 6);; ret tt
          else ret tt);;
         ret reportCount
       else if channel =? 2 then
         (if 4 <? length
          then lift (at_index fullPacket 4);; ret tt
          else ret tt);;
         ret reportCount
       else ret reportCount);
    Sleep 10;; ret reportCount
  else Sleep 10;; ret reportCount.

(** [main]; the result is the final value of [seq] and [reportCount]. *)
Definition main (configure_err : bool) : M (list Z * Z) :=
  Sleep 2000;;
  let seq := [0; 0; 0; 0; 0; 0] in
  if configure_err then ret (seq, 0) else
  step1;;
  step2;;
  seq ← step3 seq;
  seq ← step4 seq;
  seq ← step5 seq;
  reportCount ← forAcc 100 poll 0;
  ret (seq, reportCount).

End Comprehensive.

(** ** setfeature_test/main.go *)

Module SetFeature.

Definition address : Z := 0x4A.

Definition softReset : list Z := [5; 0; 1; 0; 1].

(** The body of the loop of [parseAdvertisement] after [value] has been
    taken: what is printed for one record. *)
Definition report (tag length : Z) (value : list Z) : option (list Line) :=
  if tag =? 6 then
    if 1 <? length then
      (chanNum ← at_index value 0;
       name ← slice value 1 (len value);
       Some [PrChannel chanNum name])%stdpp
    else Some []
  else if tag =? 7 then
    if 1 <? length then
      (chanNum ← at_index value 0;
       name ← slice value 1 (len value);
       Some [PrWakeChannel chanNum name])%stdpp
    else Some []
  else if tag =? 0x80 then Some [PrVersion value]
  else Some [].

(** The loop of [parseAdvertisement], from index [i], having printed
    [out]. *)
Fixpoint parseLoop (fuel : nat) (payload : list Z) (i : Z)
    (out : list Line) : Outcome (list Line) :=
  if i <? len payload - 2 then
    match fuel with
    | O => OutOfFuel
    | S fuel =>
        match at_index payload i, at_index payload (i + 1) with
        | Some tag, Some length =>
            let i := i + 2 in
            if i + length >? len payload then Done out
            else
              match slice payload i (i + length) with
              | Some value =>
                  let i := i + length in
                  match report tag length value with
                  | Some lines => parseLoop fuel payload i (out ++ lines)
                  | None => Panicked
                  end
              | None => Panicked
              end
        | _, _ => Panicked
        end
    end
  else Done out.

(** [parseAdvertisement]; the result is what it prints. *)
Definition parseAdvertisement (payload : list Z) : Outcome (list Line) :=
  parseLoop (length payload) payload 0 [].

(** The dump of the first 50 bytes, ten to a row. *)
Definition dump (payload : list Z) : option (list (list Z)) :=
  mapM (fun j =>
          let end_ := if j + 10 >? len payload then len payload else j + 10 in
          mapM (at_index payload) (seqZ j (end_ - j)))
       (filter (fun j => j < len payload) [0; 10; 20; 30; 40]).

Definition drain : M unit :=
  forN 5 ('(_, header) ← Tx address [] 4;
          length ← lift (Uint16 (take 2 header));
          channel ← lift (at_index header 2);
          (if (0 <? length) && (length <? 1000)
              && (Z.land length 0x8000 =? 0)
           then
             if (channel =? 0) && (4 <? length) then
               '(err, payload) ← Tx address [] (Z.to_nat (length - 4));
               if err then ret tt else
               lift (dump payload);;
               lines ← run (parseAdvertisement payload);
               PrintAll lines
             else ret tt
           else ret tt);;
          Sleep 50;; ret false).

Definition initPayload : list Z :=
  [ 0xF2; (* Report ID: COMMAND_REQUEST *)
    0x00; (* Sequence number *)
    0x04; (* Command: Initialize *)
    0x01; (* Subcommand: System *)
    0x00; 0x00; 0x00; 0x00; 0x00; 0x00; 0x00; 0x00; 0x00 (* Padding *) ].

Definition payload : list Z :=
  [ 0xFD;                   (* Report ID: SET_FEATURE *)
    0x01;                   (* Sensor ID: Accelerometer (calibrated) *)
    0x00;                   (* Flags: none *)
    0x00; 0x00;             (* Change sensitivity: 0 *)
    0x10; 0x27; 0x00; 0x00; (* Report interval: 10000 microseconds *)
    0x00; 0x00; 0x00; 0x00; (* Batch interval: 0 *)
    0x00; 0x00; 0x00; 0x00  (* Sensor specific: 0 *) ].

(** The frame both commands are put in: built by hand, channel 2 and
    sequence 0. *)
Definition buildFrame (payload : list Z) : option (list Z) :=
  let frameLen := 4 + len payload in
  let frame := make frameLen in
  (hdr ← PutUint16 (take 2 frame) (uint16 frameLen);
   let frame := hdr ++ drop 2 frame in
   frame ← set_index frame 2 2;
   frame ← set_index frame 3 0;
   Some (take 4 frame ++ copy (drop 4 frame) payload))%stdpp.

(** One iteration of the final polling loop. *)
Definition poll : M unit :=
  '(err, header) ← Tx address [] 4;
  if err then Sleep 100 else
  length ← lift (Uint16 (take 2 header));
  channel ← lift (at_index header 2);
  seq ← lift (at_index header 3);
  if negb (Z.land length 0x8000 =? 0) then Sleep 100 else
  (if (0 <? length) && (length <? 1000) then
     if 4 <? length then
       '(err, remaining) ← Tx address [] (Z.to_nat (length - 4));
       if err then ret tt else
       lift (at_index remaining 0);; ret tt
     else ret tt
   else ret tt);;
  Sleep 100.

(** [main]; the result tells whether it ran to the end. *)
Definition main (configure_err : bool) : M bool :=
  Sleep 2000;;
  if configure_err then ret false else
  '(err, _) ← Tx address softReset 0;
  if err then ret false else
  Sleep 500;;
  drain;;
  initFrame ← lift (buildFrame initPayload);
  '(err, _) ← Tx address initFrame 0;
  if err then ret false else
  Sleep 200;;
  frame ← lift (buildFrame payload);
  '(err, _) ← Tx address frame 0;
  if err then ret false else
  Sleep 100;;
  forN 30 (poll;; ret false);;
  ret true.

End SetFeature.

(** ** i2c_test/main.go *)

Module I2CTest.

Definition address : Z := 0x4A.

Definition softReset : list Z := [5; 0; 1; 0; 1].

Definition min (a b : Z) : Z := if a <? b then a else b.

(** One iteration of the header-reading loop; the result is the packet
    it printed, if it printed one. *)
Definition readOne : M (option (list Z)) :=
  '(err, header) ← Tx address [] 4;
  r ← (if err then ret None else
       length ← lift (Uint16 (take 2 header));
       channel ← lift (at_index header 2);
       seq ← lift (at_index header 3);
       if (0 <? length) && (length <? 1000) then
         let packet := make length in
         head ← lift (slice packet 0 4);
         let packet := copy head header ++ drop 4 packet in
         if 4 <? length then
           '(err, remaining) ← Tx address [] (Z.to_nat (length - 4));
           if err then ret None else
           tail ← lift (slice packet 4 (len packet));
           let packet := take 4 packet ++ copy tail remaining in
           shown ← lift (slice packet 0 (min length 20));
           ret (Some shown)
         else ret None
       else ret None);
  Sleep 100;;
  ret r.

(** [main]; the result tells whether the reset was sent. *)
Definition main (configure_err : bool) : M bool :=
  Sleep 2000;;
  if configure_err then ret false else
  '(err, _) ← Tx address softReset 0;
  if err then ret false else
  Sleep 500;;
  forN 10 (readOne;; ret false);;
  ret true.

End I2CTest.

(** ** hybrid_test/main.go *)

Module Hybrid.

Definition addr : Z := 0x4A.

(** [channelCounts[channel]++] on a [map[uint8]int]. *)
Definition bump (channelCounts : gmap Z Z) (channel : Z) : gmap Z Z :=
  <[channel := default 0 (channelCounts !! channel) + 1]> channelCounts.

(** One iteration of the polling loop of step 3, on [reportCount] and
    [channelCounts]; the steps before it go through the driver. *)
Definition poll (st : Z * gmap Z Z) : M (Z * gmap Z Z) :=
  let '(reportCount, channelCounts) := st in
  '(err, header) ← Tx addr [] 4;
  if err then Sleep 10;; ret st else
  length ← lift (Uint16 (take 2 header));
  if negb (Z.land length 0x8000 =? 0) then Sleep 10;; ret st else
  if length =? 0 then Sleep 10;; ret st else
  let length := Z.land length 0x7FFF in
  if (4 <? length) && (length <? 500) then
    '(err, packet) ← Tx addr [] (Z.to_nat length);
    if err then Sleep 10;; ret st else
    channel ← lift (at_index packet 2);
    let channelCounts := bump channelCounts channel in
    reportCount ←
      (if (channel =? 3) || (channel =? 4) || (channel =? 5) then
         let reportCount := reportCount + 1 in
         (if 4 <? length
          then lift (mapM (at_index packet)
                       (seqZ 4 (Z.min length 12 - 4)));; ret tt
          else ret tt);;
         ret reportCount
       else ret reportCount);
    Sleep 10;; ret (reportCount, channelCounts)
  else Sleep 10;; ret st.

Definition pollLoop : M (Z * gmap Z Z) := forAcc 100 poll (0, ∅).

End Hybrid.

(** ** The channel-debug program *)

Module ChannelDebug.

Definition addr : Z := 0x4A.

Definition softReset : list Z := [5; 0; 1; 0; 1].

(** [sendOnChannel], the second copy. *)
Definition sendOnChannel (addr : Z) (seq : list Z) (channel : Z)
    (payload : list Z) : M (list Z) :=
  let frameLen := 4 + Z.of_nat (length payload) in
  let frame := make frameLen in
  hdr ← lift (PutUint16 (take 2 frame) (uint16 frameLen));
  let frame := hdr ++ drop 2 frame in
  frame ← lift (set_index frame 2 channel);
  s ← lift (at_index seq channel);
  frame ← lift (set_index frame 3 s);
  seq ← lift (set_index seq channel (uint8 (s + 1)));
  let frame := take 4 frame ++ copy (drop 4 frame) payload in
  Tx addr frame 0;;
  ret seq.

(** The variables of the tag loop. *)
Record Tags := {
  cursor : Z;
  currentChan : Z;
  channels : gmap (list Z) Z;
  printed : list Line
}.

(** The loop over the tags of the advertisement. *)
Fixpoint parseTags (fuel : nat) (advert : list Z) (advertLen : Z)
    (t : Tags) : Outcome Tags :=
  if cursor t <? advertLen then
    match fuel with
    | O => OutOfFuel
    | S fuel =>
        if cursor t + 1 >=? advertLen then Done t
        else
          match at_index advert (cursor t),
                at_index advert (cursor t + 1) with
          | Some tag, Some length =>
              let cursor := cursor t + 2 in
              if cursor + length >? advertLen then
                Done {| cursor := cursor; currentChan := currentChan t;
                        channels := channels t; printed := printed t |}
              else
                (* TAG_NORMAL_CHANNEL = 4 *)
                match
                  (if (tag =? 4) && (length =? 1) then
                     (c ← at_index advert cursor;
                      Some (c, printed t ++ [PrNormalChannel c]))%stdpp
                   else Some (currentChan t, printed t))
                with
                | Some (currentChan, printed) =>
                    (* TAG_CHANNEL_NAME = 8 *)
                    match
                      (if (tag =? 8) && (0 <? length) && (0 <? currentChan)
                       then
                         (name ← slice advert cursor (cursor + length);
                          Some (<[name := currentChan]> (channels t),
                                printed ++ [PrChannelName currentChan name]))%stdpp
                       else Some (channels t, printed))
                    with
                    | Some (channels, printed) =>
                        parseTags fuel advert advertLen
                          {| cursor := cursor + length;
                             currentChan := currentChan;
                             channels := channels; printed := printed |}
                    | None => Panicked
                    end
                | None => Panicked
                end
          | _, _ => Panicked
          end
    end
  else Done t.

(** Step 2: read the advertisement and parse the channel assignments;
    the result is the channel map. *)
Definition step2 : M (gmap (list Z) Z) :=
  '(_, header) ← Tx addr [] 4;
  length ← lift (Uint16 (take 2 header));
  let advertLen := Z.land length 0x7FFF in
  lift (at_index header 2);;
  if (4 <? advertLen) && (advertLen <? 500) then
    '(_, advert) ← Tx addr [] (Z.to_nat advertLen);
    let cursor := 4 in
    reportID ← lift (at_index advert cursor);
    let cursor := cursor + 1 in
    t ← run (parseTags (Z.to_nat advertLen) advert advertLen
               {| cursor := cursor; currentChan := 0;
                  channels := ∅; printed := [] |});
    PrintAll (printed t);;
    ret (channels t)
  else ret ∅.

Definition initCmd : list Z := [0x02]. (* COMMAND_INITIALIZE *)

Definition setFeature : list Z :=
  [ 0xFD;                   (* SET_FEATURE *)
    0x08;                   (* Game Rotation Vector *)
    0x00;                   (* Flags *)
    0x00; 0x00;             (* Change sensitivity *)
    0x10; 0x27; 0x00; 0x00; (* 10000 microseconds *)
    0x00; 0x00; 0x00; 0x00; (* Batch interval *)
    0x00; 0x00; 0x00; 0x00  (* Sensor specific *) ].

(** Step 3: the initialize command. *)
Definition step3 (seq : list Z) : M (list Z) :=
  seq ← sendOnChannel addr seq 2 initCmd;
  Sleep 100;;
  ret seq.

(** Step 4: enable the game rotation vector. *)
Definition step4 (seq : list Z) : M (list Z) :=
  seq ← sendOnChannel addr seq 2 setFeature;
  Sleep 100;;
  ret seq.

(** One iteration of the polling loop of step 5. *)
Definition poll (channelCounts : gmap Z Z) : M (gmap Z Z) :=
  '(err, header) ← Tx addr [] 4;
  if err then Sleep 10;; ret channelCounts else
  length ← lift (Uint16 (take 2 header));
  if negb (Z.land length 0x8000 =? 0) then Sleep 10;; ret channelCounts else
  if length =? 0 then Sleep 10;; ret channelCounts else
  let length := Z.land length 0x7FFF in
  if (4 <? length) && (length <? 500) then
    '(err, packet) ← Tx addr [] (Z.to_nat length);
    if err then Sleep 10;; ret channelCounts else
    channel ← lift (at_index packet 2);
    let channelCounts := Hybrid.bump channelCounts channel in
    lift (at_index packet 3);;
    (if 4 <? length
     then lift (mapM (at_index packet) (seqZ 4 (Z.min length 12 - 4)));;
          ret tt
     else ret tt);;
    Sleep 10;; ret channelCounts
  else Sleep 10;; ret channelCounts.

(** [main]; the result is the final [seq], the channel map and the
    packet counts. *)
Definition main (configure_err : bool)
    : M (list Z * gmap (list Z) Z * gmap Z Z) :=
  Sleep 2000;;
  let seq := [0; 0; 0; 0; 0; 0] in
  if configure_err then ret (seq, ∅, ∅) else
  Tx addr softReset 0;;
  Sleep 300;;
  channels ← step2;
  seq ← step3 seq;
  seq ← step4 seq;
  channelCounts ← forAcc 100 poll ∅;
  ret (seq, channels, channelCounts).

End ChannelDebug.

(** ** Floating point *)

Module Float.

(** [float32] and [float64] values are the binary floats of the
    specification of IEEE 754 of the Standard Library, at precision 24 and
    53; every operation rounds to nearest even on its own (a compiler that
    fuses a multiplication and an addition is not modelled). *)
Definition float32 : Type := spec_float.
Definition float64 : Type := spec_float.

Definition f32 (m e : Z) : float32 := binary_normalize 24 128 m e false.
Definition f64 (m e : Z) : float64 := binary_normalize 53 1024 m e false.

Definition mul32 : float32 -> float32 -> float32 := SFmul 24 128.
Definition add32 : float32 -> float32 -> float32 := SFadd 24 128.
Definition sub32 : float32 -> float32 -> float32 := SFsub 24 128.

(** The conversions [float64(x)] (exact) and [float32(x)] (rounding). *)
Definition to64 (x : float32) : float64 :=
  match x with
  | S754_finite s m e => binary_normalize 53 1024 (cond_Zopp s (Zpos m)) e s
  | _ => x
  end.
Definition to32 (x : float64) : float32 :=
  match x with
  | S754_finite s m e => binary_normalize 24 128 (cond_Zopp s (Zpos m)) e s
  | _ => x
  end.

(** [x >= y]; false when either is a NaN. *)
Definition geb (x y : spec_float) : bool :=
  match SFcompare x y with
  | Some Gt | Some Eq => true
  | _ => false
  end.

(** The sign bit; a NaN of this representation has none, and is taken
    as positive. *)
Definition signbit (x : spec_float) : bool :=
  match x with
  | S754_zero s | S754_infinity s | S754_finite s _ _ => s
  | S754_nan => false
  end.

(** [math.Abs] and [math.Copysign]. *)
Definition Abs (x : float64) : float64 := SFabs x.
Definition Copysign (x y : float64) : float64 :=
  if Bool.eqb (signbit x) (signbit y) then x else SFopp x.

(** [math.Pi / 2], as a [float64]. *)
Definition half_pi : float64 := f64 7074237752028440 (-52).

(** The functions of package [math] that have no definition here. *)
Class Math := {
  Atan2 : float64 -> float64 -> float64;
  Asin : float64 -> float64
}.

(** The value of a finite float, as a rational. *)
Definition value (x : spec_float) : option Q :=
  match x with
  | S754_zero _ => Some 0%Q
  | S754_finite s m e =>
      Some (inject_Z (cond_Zopp s (Zpos m)) * Qpower 2 e)%Q
  | _ => None
  end.

(** Modelled from the spec: the quaternion type of the driver package,
    whose declaration is not among the sources; four [float32] components,
    named as the demos use them. *)
Record Quaternion := {
  Real : float32;
  I : float32;
  J : float32;
  K : float32
}.

(** [int32(x)] for a float [x]: the value with its fraction dropped.
    When that is not an [int32] (or [x] is infinite or a NaN) Go leaves the
    result to the implementation: [None]. *)
Definition to_int32 (x : spec_float) : option Z :=
  match x with
  | S754_zero _ => Some 0
  | S754_finite s m e =>
      let z := cond_Zopp s (if 0 <=? e then Z.shiftl (Zpos m) e
                            else Z.shiftr (Zpos m) (- e)) in
      if (- 2147483648 <=? z) && (z <=? 2147483647) then Some z else None
  | _ => None
  end.

(** Division and the comparison [x < y] (false when either is a NaN). *)
Definition div32 : float32 -> float32 -> float32 := SFdiv 24 128.
Definition ltb (x y : spec_float) : bool := SFltb x y.

(** [math.Pi] as a [float32] constant: the nearest one, 0x40490FDB. *)
Definition pi32 : float32 := f32 13176795 (-22).

(** [uint8(x)] for a float [x]: the value with its fraction dropped;
    [None] when that is not a [uint8], where Go leaves the result to the
    implementation. *)
Definition to_uint8 (x : spec_float) : option Z :=
  match x with
  | S754_zero _ => Some 0
  | S754_finite s m e =>
      let z := cond_Zopp s (if 0 <=? e then Z.shiftl (Zpos m) e
                            else Z.shiftr (Zpos m) (- e)) in
      if (0 <=? z) && (z <=? 255) then Some z else None
  | _ => None
  end.

End Float.

Import Float.

(** ** gopherclaw/main.go *)

Module Gopherclaw.

Definition quaternionToEuler `{Math} (q : Quaternion)
    : float32 * float32 * float32 :=
  (* Roll (x-axis rotation) *)
  let sinr_cosp := mul32 (f32 2 0) (add32 (mul32 (Real q) (I q))
                                          (mul32 (J q) (K q))) in
  let cosr_cosp := sub32 (f32 1 0)
                     (mul32 (f32 2 0) (add32 (mul32 (I q) (I q))
                                             (mul32 (J q) (J q)))) in
  let roll := to32 (Atan2 (to64 sinr_cosp) (to64 cosr_cosp)) in
  (* Pitch (y-axis rotation) *)
  let sinp := mul32 (f32 2 0) (sub32 (mul32 (Real q) (J q))
                                     (mul32 (K q) (I q))) in
  let pitch :=
    if geb (Abs (to64 sinp)) (f64 1 0)
    then to32 (Copysign half_pi (to64 sinp))
    else to32 (Asin (to64 sinp)) in
  (* Yaw (z-axis rotation) *)
  let siny_cosp := mul32 (f32 2 0) (add32 (mul32 (Real q) (K q))
                                          (mul32 (I q) (J q))) in
  let cosy_cosp := sub32 (f32 1 0)
                     (mul32 (f32 2 0) (add32 (mul32 (J q) (J q))
                                             (mul32 (K q) (K q)))) in
  let yaw := to32 (Atan2 (to64 siny_cosp) (to64 cosy_cosp)) in
  (roll, pitch, yaw).

(** [angleToMIDI]. *)
Definition angleToMIDI (angle : float32) : option Z :=
  (* Convert radians to degrees *)
  let degrees := div32 (mul32 angle (f32 180 0)) pi32 in
  (* Clamp to -90 to +90 range *)
  let degrees := if ltb degrees (f32 (-90) 0) then f32 (-90) 0 else degrees in
  let degrees := if ltb (f32 90 0) degrees then f32 90 0 else degrees in
  (* Map -90 to +90 to 0-127 *)
  let normalized := div32 (add32 degrees (f32 90 0)) (f32 180 0) in
  let value := mul32 normalized (f32 127 0) in
  to_uint8 value.

(** [abs], on an [int16]. *)
Definition abs (x : Z) : Z :=
  if x <? 0 then int_wrap 16 (- x) else x.

Definition ccRoll : Z := 65.
Definition ccPitch : Z := 66.
Definition ccYaw : Z := 67.
Definition midiCable : Z := 0.
Definition midiChannel : Z := 1.
Definition changeThreshold : Z := 1.

(** A call of [midi.Port().ControlChange]. *)
Record ControlChange := {
  cc_cable : Z;
  cc_channel : Z;
  cc_control : Z;
  cc_value : Z
}.

(** One of the three [if] statements of the main loop, on a CC value
    ([uint8]) and the last one sent ([uint8]): the message sent, if any,
    and the new last value. *)
Definition sendIfChanged (control cc last : Z)
    : list ControlChange * Z :=
  if changeThreshold <=? abs (int_wrap 16 (int_wrap 16 cc - int_wrap 16 last))
  then ([{| cc_cable := midiCable; cc_channel := midiChannel;
            cc_control := control; cc_value := cc |}], cc)
  else ([], last).

(** The body of the main loop from the three CC values on, on the
    variables [lastRoll], [lastPitch] and [lastYaw]. *)
Definition sendChanges (last cc : Z * Z * Z)
    : list ControlChange * (Z * Z * Z) :=
  let '(lastRoll, lastPitch, lastYaw) := last in
  let '(rollCC, pitchCC, yawCC) := cc in
  let '(m1, lastRoll) := sendIfChanged ccRoll rollCC lastRoll in
  let '(m2, lastPitch) := sendIfChanged ccPitch pitchCC lastPitch in
  let '(m3, lastYaw) := sendIfChanged ccYaw yawCC lastYaw in
  (m1 ++ m2 ++ m3, (lastRoll, lastPitch, lastYaw)).

(** The initial values of [lastRoll], [lastPitch] and [lastYaw]. *)
Definition lastInit : Z * Z * Z := (255, 255, 255).

End Gopherclaw.

(** ** The NeoPixel demo *)

Module NeoPixel.

Definition quaternionToEuler `{Math} (q : Quaternion)
    : float32 * float32 * float32 :=
  (* Roll (x-axis rotation) *)
  let sinr_cosp := mul32 (f32 2 0) (add32 (mul32 (Real q) (I q))
                                          (mul32 (J q) (K q))) in
  let cosr_cosp := sub32 (f32 1 0)
                     (mul32 (f32 2 0) (add32 (mul32 (I q) (I q))
                                             (mul32 (J q) (J q)))) in
  let roll := to32 (Atan2 (to64 sinr_cosp) (to64 cosr_cosp)) in
  (* Pitch (y-axis rotation) *)
  let sinp := mul32 (f32 2 0) (sub32 (mul32 (Real q) (J q))
                                     (mul32 (K q) (I q))) in
  let pitch :=
    if geb (Abs (to64 sinp)) (f64 1 0)
    then to32 (Copysign half_pi (to64 sinp))
    else to32 (Asin (to64 sinp)) in
  (* Yaw (z-axis rotation) *)
  let siny_cosp := mul32 (f32 2 0) (add32 (mul32 (Real q) (K q))
                                          (mul32 (I q) (J q))) in
  let cosy_cosp := sub32 (f32 1 0)
                     (mul32 (f32 2 0) (add32 (mul32 (J q) (J q))
                                             (mul32 (K q) (K q)))) in
  let yaw := to32 (Atan2 (to64 siny_cosp) (to64 cosy_cosp)) in
  (roll, pitch, yaw).

(** [angleToRGB]. *)
Definition angleToRGB (angle : float32) : option Z :=
  (* Convert radians to degrees *)
  let degrees := div32 (mul32 angle (f32 180 0)) pi32 in
  (* Clamp to -90 to +90 range *)
  let degrees := if ltb degrees (f32 (-90) 0) then f32 (-90) 0 else degrees in
  let degrees := if ltb (f32 90 0) degrees then f32 90 0 else degrees in
  (* Map -90 to +90 to 0-255 *)
  let normalized := div32 (add32 degrees (f32 90 0)) (f32 180 0) in
  let value := mul32 normalized (f32 255 0) in
  to_uint8 value.

(** The loop of [itoa]: the digits of [n] into [buf], from index [i]
    down. *)
Fixpoint itoaLoop (fuel : nat) (buf : list Z) (i n : Z)
    : Outcome (list Z * Z) :=
  if 0 <? n then
    match fuel with
    | O => OutOfFuel
    | S fuel =>
        match set_index buf i (uint8 (48 + Z.rem n 10)) with
        | Some buf => itoaLoop fuel buf (i - 1) (Z.quot n 10)
        | None => Panicked
        end
    end
  else Done (buf, i).

(** [itoa], for an [int] of [bits] bits; a string is the list of its
    bytes. *)
Definition itoa (bits : Z) (n : Z) : Outcome (list Z) :=
  if n =? 0 then Done [48]
  else
    let negative := n <? 0 in
    let n := if negative then int_wrap bits (- n) else n in
    let buf := replicate 10 0 in
    let i := len buf - 1 in
    match itoaLoop 11 buf i n with
    | Done (buf, i) =>
        match slice buf (i + 1) (len buf) with
        | Some digits => Done (if negative then 45 :: digits else digits)
        | None => Panicked
        end
    | Panicked => Panicked
    | OutOfFuel => OutOfFuel
    end.

(** [itoa2]. *)
Definition itoa2 (n : Z) : list Z :=
  let n := if 100 <=? n then 99 else n in
  let d0 := Z.quot n 10 in
  let d1 := Z.rem n 10 in
  [uint8 (48 + d0); uint8 (48 + d1)].

(** [formatFloat]; [None] when [int32(f * 100)] is left to the
    implementation. *)
Definition formatFloat (bits : Z) (f : float32)
    : option (Outcome (list Z)) :=
  match to_int32 (mul32 f (f32 100 0)) with
  | None => None
  | Some val =>
      let whole := Z.quot val 100 in
      let frac := Z.rem val 100 in
      let frac := if frac <? 0 then - frac else frac in
      let sign := if (val <? 0) && (whole =? 0) then [45] else [] in
      Some match itoa bits whole with
           | Done w => Done (sign ++ w ++ [46] ++ itoa2 frac)
           | Panicked => Panicked
           | OutOfFuel => OutOfFuel
           end
  end.

End NeoPixel.

(** ** The Euler-angle demo (quatplot/main.go) *)

Module EulerAngles.

Definition quaternionToEuler `{Math} (q : Quaternion)
    : float32 * float32 * float32 :=
  (* Roll (x-axis rotation) *)
  let sinr_cosp := mul32 (f32 2 0) (add32 (mul32 (Real q) (I q))
                                          (mul32 (J q) (K q))) in
  let cosr_cosp := sub32 (f32 1 0)
                     (mul32 (f32 2 0) (add32 (mul32 (I q) (I q))
                                             (mul32 (J q) (J q)))) in
  let roll := to32 (Atan2 (to64 sinr_cosp) (to64 cosr_cosp)) in
  (* Pitch (y-axis rotation) *)
  let sinp := mul32 (f32 2 0) (sub32 (mul32 (Real q) (J q))
                                     (mul32 (K q) (I q))) in
  let pitch :=
    if geb (Abs (to64 sinp)) (f64 1 0)
    then to32 (Copysign half_pi (to64 sinp))
    else to32 (Asin (to64 sinp)) in
  (* Yaw (z-axis rotation) *)
  let siny_cosp := mul32 (f32 2 0) (add32 (mul32 (Real q) (K q))
                                          (mul32 (I q) (J q))) in
  let cosy_cosp := sub32 (f32 1 0)
                     (mul32 (f32 2 0) (add32 (mul32 (J q) (J q))
                                             (mul32 (K q) (K q)))) in
  let yaw := to32 (Atan2 (to64 siny_cosp) (to64 cosy_cosp)) in
  (roll, pitch, yaw).

End EulerAngles.

(** ** The report decoder of the driver *)

Module Decoder.

(** Modelled from the spec: a signed 16-bit value read from two bytes,
    little-endian (the driver package is not among the sources). *)
Definition int16 (lo hi : Z) : Z :=
  let u := Z.lor lo (Z.shiftl hi 8) in
  if u <? 32768 then u else u - 65536.

(** Modelled from the spec: the fixed-point scaling of the report decoder
    (the driver package is not among the sources): the raw signed 16-bit
    value, as a [float32], multiplied by 2^-Q. *)
Definition qToFloat (v : Z) (q : Z) : float32 :=
  mul32 (f32 v 0) (f32 1 (- q)).

(** Modelled from the spec: a vector-3 report is the four-byte common
    prefix (sensor ID, sequence, status, delay) followed by three signed
    16-bit components, little-endian. *)
Definition vector3 (report : list Z) (q : Z)
    : option (float32 * float32 * float32) :=
  match report with
  | _ :: _ :: _ :: _ :: x0 :: x1 :: y0 :: y1 :: z0 :: z1 :: _ =>
      Some (qToFloat (int16 x0 x1) q,
            qToFloat (int16 y0 y1) q,
            qToFloat (int16 z0 z1) q)
  | _ => None
  end.

(** Modelled from the spec: the Q-points it lists for the sensors
    (magnetometer and proximity 4, temperature 7, accelerometer family,
    ambient light and humidity 8, gyroscope 9, quaternion accuracy 12,
    rotation vectors 14, pressure 20). *)
Definition qpoints : list Z := [4; 7; 8; 9; 12; 14; 20].

End Decoder.

(** ** The sensor test (quatplot/main.go) *)

Module SensorTest.

(** [formatHex]; [hex] is the constant string of the sixteen digits. *)
Definition hex : list Z :=
  [48; 49; 50; 51; 52; 53; 54; 55; 56; 57; 65; 66; 67; 68; 69; 70].

Definition formatHex (b : Z) : option (list Z) :=
  (hi ← at_index hex (Z.shiftr b 4);
   lo ← at_index hex (Z.land b 0x0F);
   Some [hi; lo])%stdpp.

(** The loop of [itoa]: the digits of [n] into [buf], from index [i]
    down. *)
Fixpoint itoaLoop (fuel : nat) (buf : list Z) (i n : Z)
    : Outcome (list Z * Z) :=
  if 0 <? n then
    match fuel with
    | O => OutOfFuel
    | S fuel =>
        match set_index buf i (uint8 (48 + Z.rem n 10)) with
        | Some buf => itoaLoop fuel buf (i - 1) (Z.quot n 10)
        | None => Panicked
        end
    end
  else Done (buf, i).

(** [itoa], for an [int] of [bits] bits; a string is the list of its
    bytes. *)
Definition itoa (bits : Z) (n : Z) : Outcome (list Z) :=
  if n =? 0 then Done [48]
  else
    let negative := n <? 0 in
    let n := if negative then int_wrap bits (- n) else n in
    let buf := replicate 10 0 in
    let i := len buf - 1 in
    match itoaLoop 11 buf i n with
    | Done (buf, i) =>
        match slice buf (i + 1) (len buf) with
        | Some digits => Done (if negative then 45 :: digits else digits)
        | None => Panicked
        end
    | Panicked => Panicked
    | OutOfFuel => OutOfFuel
    end.

(** [itoa3]. *)
Definition itoa3 (n : Z) : list Z :=
  let n := if 1000 <=? n then 999 else n in
  let d0 := Z.quot n 100 in
  let d1 := Z.rem (Z.quot n 10) 10 in
  let d2 := Z.rem n 10 in
  [uint8 (48 + d0); uint8 (48 + d1); uint8 (48 + d2)].

(** [formatFloat]; [None] when [int32(f * 1000)] is left to the
    implementation. *)
Definition formatFloat (bits : Z) (f : float32)
    : option (Outcome (list Z)) :=
  match to_int32 (mul32 f (f32 1000 0)) with
  | None => None
  | Some val =>
      let whole := Z.quot val 1000 in
      let frac := Z.rem val 1000 in
      let frac := if frac <? 0 then - frac else frac in
      let sign := if (val <? 0) && (whole =? 0) then [45] else [] in
      Some match itoa bits whole with
           | Done w => Done (sign ++ w ++ [46] ++ itoa3 frac)
           | Panicked => Panicked
           | OutOfFuel => OutOfFuel
           end
  end.

End SensorTest.

(** ** The diagnostic tool (quatplot/main.go) *)

Module Diagnostic.

Definition hex : list Z :=
  [48; 49; 50; 51; 52; 53; 54; 55; 56; 57; 65; 66; 67; 68; 69; 70].

(** [formatHex], the second copy. *)
Definition formatHex (b : Z) : option (list Z) :=
  (hi ← at_index hex (Z.shiftr b 4);
   lo ← at_index hex (Z.land b 0x0F);
   Some [hi; lo])%stdpp.

Definition addresses : list Z := [0x4A; 0x4B].

(** Step 2 of [main], the loop over [addresses]: the result is
    [foundAddress]. *)
Fixpoint probe (addresses : list Z) (foundAddress : Z) : M Z :=
  match addresses with
  | [] => ret foundAddress
  | addr :: rest =>
      lift (formatHex (uint8 addr));;
      '(err, _) ← Tx addr [] 4;
      if err then probe rest foundAddress
      else lift (formatHex (uint8 addr));; ret addr
  end.

(** [main] up to the point where the driver takes over: [None] when the
    program stops before it. *)
Definition main (configure_err : bool) : M (option Z) :=
  Sleep 2000;;
  if configure_err then ret None else
  foundAddress ← probe addresses 0;
  if foundAddress =? 0 then ret None else ret (Some foundAddress).

End Diagnostic.

(** * Vocabulary of the statements *)

(** [m] only adds events to the world, and the frames it writes are
    [ws a] when it returns [a]. *)
Definition writing {A} (m : M A) (ws : A -> list (list Z)) : Prop :=
  forall w a w', m w = (Some a, w') ->
    exists k evs, w' = after w k evs /\ writes evs = ws a.

(** The frame one call puts on the bus. *)
Definition frame_of (channel s : Z) (payload : list Z) : list Z :=
  let l := uint16 (4 + len payload) in
  uint8 l :: uint8 (Z.shiftr l 8) :: channel :: s :: payload.

(** [m] returns [x] whenever it returns. *)
Definition returning {A} (m : M A) (x : A) : Prop :=
  forall w a w', m w = (Some a, w') -> a = x.

(** Whether each of the next [n] transactions fails. *)
Definition errs_from (w : World) (n : nat) : list bool :=
  map (fun i => rsp_err (w_bus w (i + w_n w)%nat)) (seq 0 n).

(** The attempts of the reset loop and its events, given whether each
    attempt fails. *)
Fixpoint reset_attempts (errs : list bool) : nat :=
  match errs with
  | [] => 0
  | true :: rest => S (reset_attempts rest)
  | false :: _ => 1
  end.

Fixpoint reset_failures (errs : list bool) : nat :=
  match errs with
  | [] => 0
  | true :: rest => S (reset_failures rest)
  | false :: _ => 0
  end.

Fixpoint reset_events (errs : list bool) : list Event :=
  match errs with
  | [] => []
  | true :: rest =>
      EvTx Comprehensive.addr Comprehensive.softReset 0 :: EvSleep 30
        :: reset_events rest
  | false :: _ => [EvTx Comprehensive.addr Comprehensive.softReset 0]
  end.

(** The three ways a header is thrown away. *)
Definition discarded (length : Z) : Prop :=
  Z.testbit length 15 = true \/ length = 0 \/ 500 <= length.

Definition is_byte (b : Z) : Prop := 0 <= b < 256.

(** A record (tag, value) as the bytes tag, length, value. *)
Definition encode_record (r : Z * list Z) : list Z :=
  fst r :: len (snd r) :: snd r.

Definition encode (rs : list (Z * list Z)) : list Z :=
  concat (map encode_record rs).

(** What the spec says a record means: tag 6 is a normal channel and tag 7
    a wake channel, the value being the channel number and then a name;
    tag 0x80 is the version string; nothing else is of interest.  A value
    of tag 6 or 7 that has no byte after the channel number is not an
    assignment. *)
Definition tlv_meaning (r : Z * list Z) : list Line :=
  match r with
  | (6, chanNum :: b :: name) => [PrChannel chanNum (b :: name)]
  | (7, chanNum :: b :: name) => [PrWakeChannel chanNum (b :: name)]
  | (0x80, version) => [PrVersion version]
  | _ => []
  end.

(** A list of records does not end in an empty version string. *)
Definition well_ended (rs : list (Z * list Z)) : Prop :=
  last rs <> Some (0x80, []).

(** What one iteration does to the variables of the loop, for a record
    with tag [tag] and [length] bytes of value at the cursor. *)
Definition next_tags (advert : list Z) (t : ChannelDebug.Tags)
    (tag length : Z) : ChannelDebug.Tags :=
  let value := take (Z.to_nat length)
                 (drop (Z.to_nat (ChannelDebug.cursor t + 2)) advert) in
  let chan :=
    if (tag =? 4) && (length =? 1) then default 0 (head value)
    else ChannelDebug.currentChan t in
  let named := (tag =? 8) && (0 <? length) && (0 <? chan) in
  {| ChannelDebug.cursor := ChannelDebug.cursor t + 2 + length;
     ChannelDebug.currentChan := chan;
     ChannelDebug.channels :=
       if named then <[value := chan]> (ChannelDebug.channels t)
       else ChannelDebug.channels t;
     ChannelDebug.printed :=
       ChannelDebug.printed t
       ++ (if (tag =? 4) && (length =? 1) then [PrNormalChannel chan] else [])
       ++ (if named then [PrChannelName chan value] else []) |}.

(** [f] holds on the [2 ^ d] integers from [lo] on. *)
Fixpoint all_from (d : nat) (lo : Z) (f : Z -> bool) : bool :=
  match d with
  | O => f lo
  | S d => all_from d lo f && all_from d (lo + 2 ^ Z.of_nat d) f
  end.

(** The value of a finite float times [2 ^ q], when that is an integer. *)
Definition scaled (x : spec_float) (q : Z) : option Z :=
  match x with
  | S754_zero _ => Some 0
  | S754_finite s m e =>
      let k := e + q in
      if 0 <=? k then Some (cond_Zopp s (Z.shiftl (Zpos m) k))
      else if Z.land (Zpos m) (Z.ones (- k)) =? 0
           then Some (cond_Zopp s (Z.shiftr (Zpos m) (- k)))
           else None
  | _ => None
  end.

(** The decoded float is finite and [2 ^ q] times its value is [v]. *)
Definition exact (v q : Z) : bool :=
  match scaled (Decoder.qToFloat v q) q with
  | Some z => z =? v
  | None => false
  end.

(** ** Reading back what the programs print *)

(** The value of a decimal digit. *)
Definition digit_value (c : Z) : option Z :=
  if (48 <=? c) && (c <=? 57) then Some (c - 48) else None.

(** Reading a string of decimal digits, most significant first. *)
Fixpoint read_digits (acc : Z) (s : list Z) : option Z :=
  match s with
  | [] => Some acc
  | c :: s =>
      match digit_value c with
      | Some d => read_digits (acc * 10 + d) s
      | None => None
      end
  end.

Definition read_nat (s : list Z) : option Z :=
  match s with
  | [] => None
  | _ => read_digits 0 s
  end.

(** Reading a decimal integer with an optional minus sign. *)
Definition read_int (s : list Z) : option Z :=
  match s with
  | 45 :: r => option_map Z.opp (read_nat r)
  | _ => read_nat s
  end.

(** Reading a decimal with [k] digits after the point, as the integer
    that has the same digits: "-1.05" with [k = 2] is -105. *)
Definition read_fixed (k : nat) (s : list Z) : option Z :=
  let '(neg, body) :=
    match s with
    | 45 :: r => (true, r)
    | _ => (false, s)
    end in
  let n := length body in
  if (n <=? k)%nat then None
  else
    match body !! (n - k - 1)%nat with
    | Some 46 =>
        match read_nat (take (n - k - 1) body), read_nat (drop (n - k) body) with
        | Some a, Some b =>
            Some (if neg : bool then - (a * 10 ^ Z.of_nat k + b)
                  else a * 10 ^ Z.of_nat k + b)
        | _, _ => None
        end
    | _ => None
    end.

(** The value of an upper-case hexadecimal digit. *)
Definition hex_value (c : Z) : option Z :=
  if (48 <=? c) && (c <=? 57) then Some (c - 48)
  else if (65 <=? c) && (c <=? 70) then Some (c - 55)
  else None.

(** Both copies of [formatHex] give two digits that read back as [b]. *)
Definition hex_reads_back (b : Z) : bool :=
  match SensorTest.formatHex b, Diagnostic.formatHex b with
  | Some [hi; lo], Some [hi'; lo'] =>
      (hi =? hi') && (lo =? lo') &&
      match hex_value hi, hex_value lo with
      | Some h, Some l => h * 16 + l =? b
      | _, _ => false
      end
  | _, _ => false
  end.

(** ** Change detection, counts and programs that return *)

(** The message of the main loop for one control, if its value is not
    the last one sent. *)
Definition changed (control cc last : Z) : list Gopherclaw.ControlChange :=
  if cc =? last then []
  else [{| Gopherclaw.cc_cable := 0; Gopherclaw.cc_channel := 1;
           Gopherclaw.cc_control := control; Gopherclaw.cc_value := cc |}].

(** [m] returns in every world, whatever the device answers, and the
    value it returns satisfies [P]; in particular it does not panic. *)
Definition ensures {A} (m : M A) (P : A -> Prop) : Prop :=
  forall w, exists a w', m w = (Some a, w') /\ P a.

(** The number of packets counted on a channel. *)
Definition count_of (channelCounts : gmap Z Z) (channel : Z) : Z :=
  default 0 (channelCounts !! channel).

(** What the polling loop of hybrid_test keeps true after [k] passes. *)
Definition hybrid_inv (k : nat) (st : Z * gmap Z Z) : Prop :=
  fst st = count_of (snd st) 3 + count_of (snd st) 4 + count_of (snd st) 5 /\
  0 <= fst st <= Z.of_nat k /\
  forall c, 0 <= count_of (snd st) c <= Z.of_nat k.

(** * Properties *)

(** ** Go primitives *)

Lemma set_index_2 {A} (a b c x : A) (l : list A) :
  set_index (a :: b :: c :: l) 2 x = Some (a :: b :: x :: l).
Proof.
  unfold set_index. cbn [length].
  replace (2 <? Z.of_nat (S (S (S (length l))))) with true by (symmetry; apply Z.ltb_lt; lia).
  reflexivity.
Qed.

Lemma set_index_3 {A} (a b c d x : A) (l : list A) :
  set_index (a :: b :: c :: d :: l) 3 x = Some (a :: b :: c :: x :: l).
Proof.
  unfold set_index. cbn [length].
  replace (3 <? Z.of_nat (S (S (S (S (length l)))))) with true by (symmetry; apply Z.ltb_lt; lia).
  reflexivity.
Qed.

Lemma make_header (n : nat) :
  make (4 + Z.of_nat n) = 0 :: 0 :: 0 :: 0 :: replicate n 0.
Proof.
  unfold make. replace (Z.to_nat (4 + Z.of_nat n)) with (S (S (S (S n)))) by lia.
  reflexivity.
Qed.

Lemma copy_full (n : nat) (src : list Z) :
  length src = n -> copy (replicate n 0) src = src.
Proof.
  intros <-. unfold copy. rewrite length_replicate, firstn_all.
  rewrite drop_ge by (rewrite length_replicate; lia).
  apply app_nil_r.
Qed.

Lemma at_index_set_index {A} (l : list A) (i : Z) (x : A) :
  0 <= i < len l ->
  at_index l i = l !! Z.to_nat i /\
  set_index l i x = Some (<[Z.to_nat i := x]> l).
Proof.
  unfold len, at_index, set_index. intros Hi.
  replace (i <? 0) with false by (symmetry; apply Z.ltb_ge; lia).
  replace (0 <=? i) with true by (symmetry; apply Z.leb_le; lia).
  replace (i <? Z.of_nat (length l)) with true by (symmetry; apply Z.ltb_lt; lia).
  split; reflexivity.
Qed.

Lemma uint16_split (v : Z) :
  0 <= v < 65536 ->
  Z.lor (uint8 v) (Z.shiftl (uint8 (Z.shiftr v 8)) 8) = v.
Proof.
  intros Hv. unfold uint8. change 256 with (2 ^ 8).
  apply Z.bits_inj'; intros n Hn.
  rewrite Z.lor_spec, Z.shiftl_spec by lia.
  destruct (Z.lt_ge_cases n 8) as [Hlt | Hge].
  - rewrite Z.mod_pow2_bits_low by lia.
    rewrite (Z.testbit_neg_r _ (n - 8)) by lia.
    apply orb_false_r.
  - rewrite Z.mod_pow2_bits_high by lia. cbn [orb].
    destruct (Z.lt_ge_cases n 16) as [Hlt | Hge'].
    + rewrite Z.mod_pow2_bits_low by lia.
      rewrite Z.shiftr_spec by lia. f_equal. lia.
    + rewrite Z.mod_pow2_bits_high by lia.
      symmetry. apply Z.bits_above_log2; [lia |].
      destruct (Z.eq_dec v 0) as [-> | Hnz]; [cbn; lia |].
      apply Z.log2_lt_pow2; [lia |].
      apply Z.lt_le_trans with (2 ^ 16); [change (2 ^ 16) with 65536; lia |].
      apply Z.pow_le_mono_r; lia.
Qed.

Lemma uint16_range (v : Z) : 0 <= uint16 v < 65536.
Proof. unfold uint16. apply Z.mod_pos_bound. lia. Qed.

Lemma uint8_range (v : Z) : 0 <= uint8 v < 256.
Proof. unfold uint8. apply Z.mod_pos_bound. lia. Qed.

(** ** The effects of a computation *)

Lemma after_after (w : World) (k1 k2 : nat) (e1 e2 : list Event) :
  after (after w k1 e1) k2 e2 = after w (k2 + k1) (e1 ++ e2).
Proof.
  unfold after. cbn. f_equal; [lia | symmetry; apply app_assoc].
Qed.

Lemma after_0_nil (w : World) : after w 0 [] = w.
Proof. destruct w. unfold after. cbn. rewrite app_nil_r. reflexivity. Qed.

Lemma Tx_after (a : Z) (wr : list Z) (n : nat) (w : World) :
  Tx a wr n w =
    (Some (rsp_err (w_bus w (w_n w)), fill n (rsp_data (w_bus w (w_n w)))),
     after w 1 [EvTx a wr n]).
Proof. reflexivity. Qed.

Lemma Sleep_after (ms : Z) (w : World) :
  Sleep ms w = (Some tt, after w 0 [EvSleep ms]).
Proof. reflexivity. Qed.

Lemma PrintAll_after (ls : list Line) (w : World) :
  PrintAll ls w = (Some tt, after w 0 (map EvPrint ls)).
Proof. reflexivity. Qed.

Lemma Sleep_ret {A} (ms : Z) (x : A) (w : World) (k : nat)
    (evs : list Event) :
  bind (Sleep ms) (fun _ => ret x) (after w k evs) =
    (Some x, after w k (evs ++ [EvSleep ms])).
Proof.
  unfold bind. rewrite Sleep_after, after_after. reflexivity.
Qed.

(** A computation that returns has run both halves of a bind. *)
Lemma run_bind {A B} (m : M A) (f : A -> M B) (w w2 : World) (b : B) :
  bind m f w = (Some b, w2) ->
  exists a w1, m w = (Some a, w1) /\ f a w1 = (Some b, w2).
Proof.
  unfold bind. destruct (m w) as [[a |] w1]; [eauto | discriminate].
Qed.

Lemma run_ret {A} (a b : A) (w w' : World) :
  ret a w = (Some b, w') -> b = a /\ w' = w.
Proof. unfold ret. intros H. injection H as <- <-. split; reflexivity. Qed.

Lemma run_lift {A} (o : option A) (b : A) (w w' : World) :
  lift o w = (Some b, w') -> o = Some b /\ w' = w.
Proof. unfold lift. intros H. injection H as -> <-. split; reflexivity. Qed.

Lemma writes_app (e1 e2 : list Event) :
  writes (e1 ++ e2) = writes e1 ++ writes e2.
Proof. unfold writes. apply omap_app. Qed.

Lemma writing_ret {A} (a : A) : writing (ret a) (fun _ => []).
Proof.
  intros w b w' H. apply run_ret in H as [-> ->].
  exists O, []. rewrite after_0_nil. split; reflexivity.
Qed.

Lemma writing_lift {A} (o : option A) : writing (lift o) (fun _ => []).
Proof.
  intros w b w' H. apply run_lift in H as [-> ->].
  exists O, []. rewrite after_0_nil. split; reflexivity.
Qed.

Lemma writing_Sleep (ms : Z) : writing (Sleep ms) (fun _ => []).
Proof.
  intros w b w' H. rewrite Sleep_after in H. injection H as <- <-.
  exists O, [EvSleep ms]. split; reflexivity.
Qed.

Lemma writing_read (a : Z) (n : nat) : writing (Tx a [] n) (fun _ => []).
Proof.
  intros w b w' H. rewrite Tx_after in H. injection H as <- <-.
  exists 1%nat, [EvTx a [] n]. split; reflexivity.
Qed.

Lemma writing_PrintAll (ls : list Line) : writing (PrintAll ls) (fun _ => []).
Proof.
  intros w b w' H. rewrite PrintAll_after in H. injection H as <- <-.
  exists O, (map EvPrint ls). split; [reflexivity |].
  unfold writes. induction ls as [| l ls IH]; [reflexivity | exact IH].
Qed.

Lemma writing_bind {A B} (m : M A) (f : A -> M B)
    (ws1 : list (list Z)) (ws2 : B -> list (list Z)) :
  writing m (fun _ => ws1) ->
  (forall a, writing (f a) ws2) ->
  writing (bind m f) (fun b => ws1 ++ ws2 b).
Proof.
  intros Hm Hf w b w2 H.
  apply run_bind in H as (a & w1 & H1 & H2).
  apply Hm in H1 as (k1 & e1 & -> & Hw1).
  apply Hf in H2 as (k2 & e2 & -> & Hw2).
  exists (k2 + k1)%nat, (e1 ++ e2).
  rewrite after_after, writes_app, Hw1, Hw2. split; reflexivity.
Qed.

(** A bind of two computations that write nothing. *)
Lemma quiet_bind {A B} (m : M A) (f : A -> M B) :
  writing m (fun _ => []) ->
  (forall a, writing (f a) (fun _ => [])) ->
  writing (bind m f) (fun _ => []).
Proof. intros Hm Hf. exact (writing_bind m f [] (fun _ => []) Hm Hf). Qed.

Lemma quiet_forN (n : nat) (body : M bool) :
  writing body (fun _ => []) -> writing (forN n body) (fun _ => []).
Proof.
  intros Hb. induction n as [| n IH]; cbn [forN].
  - apply writing_ret.
  - apply quiet_bind; [exact Hb |].
    intros [|]; [apply writing_ret | exact IH].
Qed.

Lemma quiet_forAcc {V} (n : nat) (body : V -> M V) (acc : V) :
  (forall acc, writing (body acc) (fun _ => [])) ->
  writing (forAcc n body acc) (fun _ => []).
Proof.
  intros Hb. revert acc. induction n as [| n IH]; intros acc; cbn [forAcc].
  - apply writing_ret.
  - apply quiet_bind; [apply Hb | exact IH].
Qed.

(** Closes the goals [writing m (fun _ => [])] for the loop bodies. *)
Ltac quiet :=
  repeat first
    [ apply writing_ret | apply writing_lift | apply writing_Sleep
    | apply writing_read | apply writing_PrintAll
    | apply quiet_forN | apply quiet_forAcc
    | apply quiet_bind; [| intros ?]
    | match goal with
      | |- writing (let '(_, _) := ?p in _) _ => destruct p
      | |- writing (if ?c then _ else _) _ => destruct c
      | |- writing (match ?x with _ => _ end) _ => destruct x
      end ].

(** ** [sendOnChannel] *)

Lemma sendOnChannel_comprehensive (a : Z) (seq : list Z) (c s : Z)
    (p : list Z) (w : World) :
  0 <= c < len seq ->
  seq !! Z.to_nat c = Some s ->
  Comprehensive.sendOnChannel a seq c p w =
    (Some (<[Z.to_nat c := uint8 (s + 1)]> seq),
     after w 1 [EvTx a (frame_of c s p) 0]).
Proof.
  intros Hc Hs. unfold Comprehensive.sendOnChannel.
  rewrite make_header. cbn [take drop PutUint16 lift bind app].
  rewrite set_index_2.
  destruct (at_index_set_index seq c (uint8 (s + 1)) Hc) as [Hat Hset].
  rewrite Hat, Hs, set_index_3, Hset. cbn [take drop app].
  rewrite take_0, drop_0, copy_full by reflexivity.
  reflexivity.
Qed.

Lemma sendOnChannel_channel_debug (a : Z) (seq : list Z) (c s : Z)
    (p : list Z) (w : World) :
  0 <= c < len seq ->
  seq !! Z.to_nat c = Some s ->
  ChannelDebug.sendOnChannel a seq c p w =
    (Some (<[Z.to_nat c := uint8 (s + 1)]> seq),
     after w 1 [EvTx a (frame_of c s p) 0]).
Proof.
  intros Hc Hs. unfold ChannelDebug.sendOnChannel.
  rewrite make_header. cbn [take drop PutUint16 lift bind app].
  rewrite set_index_2.
  destruct (at_index_set_index seq c (uint8 (s + 1)) Hc) as [Hat Hset].
  rewrite Hat, Hs, set_index_3, Hset. cbn [take drop app].
  rewrite take_0, drop_0, copy_full by reflexivity.
  reflexivity.
Qed.

Lemma Uint16_frame_of (c s : Z) (p : list Z) :
  Uint16 (take 2 (frame_of c s p)) = Some (uint16 (4 + len p)).
Proof.
  unfold frame_of. cbn [take Uint16].
  rewrite uint16_split by apply uint16_range. reflexivity.
Qed.

(** C1, as the code has it.  A call of [sendOnChannel] on a channel [c]
    below 6 writes one frame: its first two bytes are [4 + len(p)] reduced
    modulo 65536, little-endian (hence [4 + len(p)] itself as long as that
    is below 65536, and the frame has that many bytes), byte 2 is [c],
    byte 3 is the counter of channel [c] at the time of the call, and the
    bytes from 4 on are [p].  The call adds one modulo 256 to the counter of
    [c] and leaves the other five alone, so that the next frame on the same
    channel carries the sequence byte plus one modulo 256.  Both copies of
    the function agree. *)
Theorem sendOnChannel_frame (a c : Z) (seq p : list Z) (w : World) :
  length seq = 6%nat -> 0 <= c < 6 ->
  exists s frame seq',
    seq !! Z.to_nat c = Some s /\
    Comprehensive.sendOnChannel a seq c p w =
      (Some seq', after w 1 [EvTx a frame 0]) /\
    ChannelDebug.sendOnChannel a seq c p w =
      (Some seq', after w 1 [EvTx a frame 0]) /\
    Uint16 (take 2 frame) = Some ((4 + len p) mod 65536) /\
    (4 + len p < 65536 -> Uint16 (take 2 frame) = Some (4 + len p)) /\
    len frame = 4 + len p /\
    frame !! 2%nat = Some c /\
    frame !! 3%nat = Some s /\
    drop 4 frame = p /\
    seq' !! Z.to_nat c = Some (uint8 (s + 1)) /\
    (forall c' : nat, c' <> Z.to_nat c -> seq' !! c' = seq !! c') /\
    length seq' = 6%nat /\
    forall (p2 : list Z) (w2 : World),
      exists frame2 seq'',
        Comprehensive.sendOnChannel a seq' c p2 w2 =
          (Some seq'', after w2 1 [EvTx a frame2 0]) /\
        ChannelDebug.sendOnChannel a seq' c p2 w2 =
          (Some seq'', after w2 1 [EvTx a frame2 0]) /\
        frame2 !! 3%nat = Some (uint8 (s + 1)).
Proof.
  intros Hlen Hc.
  assert (Hc' : 0 <= c < len seq) by (unfold len; lia).
  assert (Hlt : (Z.to_nat c < length seq)%nat) by lia.
  destruct (lookup_lt_is_Some_2 seq (Z.to_nat c) Hlt) as [s Hs].
  exists s, (frame_of c s p), (<[Z.to_nat c := uint8 (s + 1)]> seq).
  assert (Hnew : <[Z.to_nat c := uint8 (s + 1)]> seq !! Z.to_nat c
                 = Some (uint8 (s + 1)))
    by (apply list_lookup_insert_eq; lia).
  repeat split.
  - exact Hs.
  - apply sendOnChannel_comprehensive; assumption.
  - apply sendOnChannel_channel_debug; assumption.
  - apply Uint16_frame_of.
  - intros Hsmall. rewrite Uint16_frame_of. unfold uint16.
    rewrite Z.mod_small by (unfold len in *; lia). reflexivity.
  - unfold frame_of, len. cbn [length]. lia.
  - exact Hnew.
  - intros c' Hne. apply list_lookup_insert_ne. congruence.
  - rewrite length_insert. exact Hlen.
  - intros p2 w2.
    exists (frame_of c (uint8 (s + 1)) p2),
           (<[Z.to_nat c := uint8 (uint8 (s + 1) + 1)]>
              (<[Z.to_nat c := uint8 (s + 1)]> seq)).
    assert (Hc2 : 0 <= c < len (<[Z.to_nat c := uint8 (s + 1)]> seq))
      by (unfold len; rewrite length_insert; lia).
    repeat split.
    + apply sendOnChannel_comprehensive; assumption.
    + apply sendOnChannel_channel_debug; assumption.
Qed.

(** The theorem at the counter value 255: the sequence byte is 255 and the
    counter wraps to 0. *)
Lemma sendOnChannel_frame_witness :
  exists frame seq',
    Comprehensive.sendOnChannel 0x4A [0; 0; 255; 0; 0; 0] 2 [0xF9; 0]
      (start (scripted []))
    = (Some seq', after (start (scripted [])) 1 [EvTx 0x4A frame 0]) /\
    frame !! 3%nat = Some 255 /\
    seq' !! 2%nat = Some 0.
Proof.
  destruct (sendOnChannel_frame 0x4A 2 [0; 0; 255; 0; 0; 0] [0xF9; 0]
              (start (scripted [])))
    as (s & frame & seq' & Hs & Hrun & _ & _ & _ & _ & _ & H3 & _ & Hnew & _);
    [reflexivity | lia |].
  injection Hs as <-.
  exists frame, seq'. split; [exact Hrun | split; [exact H3 | exact Hnew]].
Defined.

(** C1 as stated fails for a payload of 65532 bytes: the frame is sent, and
    its first two bytes are 00 00, which is not [4 + len(p)] = 65536. *)
Lemma sendOnChannel_length_wraps :
  let p := replicate (Z.to_nat 65532) 0 in
  exists seq' frame w',
    Comprehensive.sendOnChannel 0x4A [0; 0; 0; 0; 0; 0] 2 p
      (start (scripted [])) = (Some seq', w') /\
    w_trace w' = [EvTx 0x4A frame 0] /\
    take 4 frame = [0; 0; 2; 0] /\
    4 + len p = 65536 /\
    Uint16 (take 2 frame) <> Some (4 + len p).
Proof.
  intros p.
  assert (Hp : len p = 65532)
    by (unfold p, len; rewrite length_replicate; lia).
  eexists _, _, _. split.
  - apply sendOnChannel_comprehensive; [unfold len; cbn; lia | reflexivity].
  - split; [reflexivity |].
    unfold frame_of. rewrite Hp. cbn [take].
    repeat split; try reflexivity.
    cbn. discriminate.
Qed.

(** ** The frames of comprehensive_test *)

Lemma quiet_comprehensive_poll (rc : Z) :
  writing (Comprehensive.poll rc) (fun _ => []).
Proof. unfold Comprehensive.poll. quiet. Qed.

(** Inverts a run [H : m w = (Some a, w')] of a bind, a [ret] or a
    [lift]. *)
Ltac inv_run H :=
  lazymatch type of H with
  | bind _ _ _ = (Some _, _) =>
      let a := fresh "a" in
      let w1 := fresh "w" in
      let H1 := fresh "Hrun" in
      apply run_bind in H as (a & w1 & H1 & H)
  | ret _ _ = (Some _, _) => apply run_ret in H as [H ?]; subst
  | lift _ _ = (Some _, _) => apply run_lift in H as [? ?]; subst
  end.

Lemma returning_ret {A} (x : A) : returning (ret x) x.
Proof. intros w a w' H. inv_run H. reflexivity. Qed.

Lemma returning_bind {A B} (m : M A) (f : A -> M B) (x : B) :
  (forall a, returning (f a) x) -> returning (bind m f) x.
Proof. intros Hf w b w' H. inv_run H. exact (Hf _ _ _ _ H). Qed.

Ltac returns :=
  repeat first [ apply returning_ret | apply returning_bind; intros ? ].

(** A step of a [main]: one [sendOnChannel], then a continuation that
    writes nothing and hands the counters back. *)
Lemma send_step_comprehensive (a c s : Z) (seq p : list Z)
    (k : list Z -> M (list Z)) (w w' : World) (r : list Z) :
  0 <= c < len seq -> seq !! Z.to_nat c = Some s ->
  (forall x, writing (k x) (fun _ => [])) ->
  (forall x, returning (k x) x) ->
  bind (Comprehensive.sendOnChannel a seq c p) k w = (Some r, w') ->
  r = <[Z.to_nat c := uint8 (s + 1)]> seq /\
  exists n evs, w' = after w n evs /\ writes evs = [frame_of c s p].
Proof.
  intros Hc Hs Hq Hr H. inv_run H.
  rewrite (sendOnChannel_comprehensive _ seq c s) in Hrun by assumption.
  injection Hrun as <- <-.
  split; [exact (Hr _ _ _ _ H) |].
  apply Hq in H as (k2 & e2 & -> & Hw2).
  rewrite after_after. eexists _, _. split; [reflexivity |].
  rewrite writes_app, Hw2. reflexivity.
Qed.

Lemma send_step_channel_debug (a c s : Z) (seq p : list Z)
    (k : list Z -> M (list Z)) (w w' : World) (r : list Z) :
  0 <= c < len seq -> seq !! Z.to_nat c = Some s ->
  (forall x, writing (k x) (fun _ => [])) ->
  (forall x, returning (k x) x) ->
  bind (ChannelDebug.sendOnChannel a seq c p) k w = (Some r, w') ->
  r = <[Z.to_nat c := uint8 (s + 1)]> seq /\
  exists n evs, w' = after w n evs /\ writes evs = [frame_of c s p].
Proof.
  intros Hc Hs Hq Hr H. inv_run H.
  rewrite (sendOnChannel_channel_debug _ seq c s) in Hrun by assumption.
  injection Hrun as <- <-.
  split; [exact (Hr _ _ _ _ H) |].
  apply Hq in H as (k2 & e2 & -> & Hw2).
  rewrite after_after. eexists _, _. split; [reflexivity |].
  rewrite writes_app, Hw2. reflexivity.
Qed.

(** The steps of comprehensive_test that send a command, on the counters
    [seq] with [seq[2] = s]. *)
Lemma comprehensive_step3 (seq : list Z) (s : Z) (w w' : World)
    (r : list Z) :
  length seq = 6%nat -> seq !! 2%nat = Some s ->
  Comprehensive.step3 seq w = (Some r, w') ->
  r = <[2%nat := uint8 (s + 1)]> seq /\
  exists n evs, w' = after w n evs /\
    writes evs = [frame_of 2 s Comprehensive.initCmd].
Proof.
  intros Hlen Hs H.
  assert (Hc : 0 <= 2 < len seq) by (unfold len; lia).
  unfold Comprehensive.step3 in H.
  refine (send_step_comprehensive _ 2 s seq _ _ _ _ _ Hc Hs _ _ H);
    intros x; [quiet | returns].
Qed.

Lemma comprehensive_step4 (seq : list Z) (s : Z) (w w' : World)
    (r : list Z) :
  length seq = 6%nat -> seq !! 2%nat = Some s ->
  Comprehensive.step4 seq w = (Some r, w') ->
  r = <[2%nat := uint8 (s + 1)]> seq /\
  exists n evs, w' = after w n evs /\
    writes evs = [frame_of 2 s Comprehensive.prodIDReq].
Proof.
  intros Hlen Hs H.
  assert (Hc : 0 <= 2 < len seq) by (unfold len; lia).
  unfold Comprehensive.step4 in H.
  refine (send_step_comprehensive _ 2 s seq _ _ _ _ _ Hc Hs _ _ H);
    intros x; [quiet | returns].
Qed.

Lemma comprehensive_step5 (seq : list Z) (s : Z) (w w' : World)
    (r : list Z) :
  length seq = 6%nat -> seq !! 2%nat = Some s ->
  Comprehensive.step5 seq w = (Some r, w') ->
  r = <[2%nat := uint8 (s + 1)]> seq /\
  exists n evs, w' = after w n evs /\
    writes evs = [frame_of 2 s Comprehensive.setFeature].
Proof.
  intros Hlen Hs H.
  assert (Hc : 0 <= 2 < len seq) by (unfold len; lia).
  unfold Comprehensive.step5 in H.
  refine (send_step_comprehensive _ 2 s seq _ _ _ _ _ Hc Hs _ _ H);
    intros x; [quiet | returns].
Qed.

(** ** The soft reset *)

Lemma errs_from_S (w : World) (n : nat) :
  errs_from w (S n) =
    rsp_err (w_bus w (w_n w)) :: errs_from (after w 1 []) n.
Proof.
  unfold errs_from. cbn [seq map]. f_equal.
  rewrite <- seq_shift, map_map. apply map_ext. intros i. cbn.
  do 2 f_equal. lia.
Qed.

Lemma errs_from_after (w : World) (k n : nat) (evs : list Event) :
  errs_from (after w k evs) n = errs_from (after w k []) n.
Proof. reflexivity. Qed.

Lemma reset_loop (n : nat) (w : World) :
  forN n ('(err, _) ← Tx Comprehensive.addr Comprehensive.softReset 0;
          if err then Sleep 30;; ret false else ret true) w
  = (Some tt, after w (reset_attempts (errs_from w n))
                (reset_events (errs_from w n))).
Proof.
  revert w. induction n as [| n IH]; intros w.
  - cbn. rewrite after_0_nil. reflexivity.
  - rewrite errs_from_S. cbn [forN]. unfold bind at 1. unfold bind at 1.
    rewrite Tx_after.
    destruct (rsp_err (w_bus w (w_n w))); cbn [reset_attempts reset_events].
    + unfold bind at 1. rewrite Sleep_after. unfold ret at 1.
      rewrite IH, !after_after.
      rewrite (errs_from_after w _ n). cbn [app Nat.add].
      f_equal. f_equal. lia.
    + reflexivity.
Qed.

Lemma reset_attempts_bounds (errs : list bool) :
  (reset_attempts errs <= length errs)%nat /\
  (errs <> [] -> 1 <= reset_attempts errs)%nat.
Proof.
  induction errs as [| [|] errs [IH1 IH2]]; cbn; split; try lia; congruence.
Qed.

Lemma reset_events_writes (errs : list bool) :
  writes (reset_events errs) =
    replicate (reset_attempts errs) Comprehensive.softReset.
Proof.
  induction errs as [| [|] errs IH]; cbn; [reflexivity | | reflexivity].
  f_equal. exact IH.
Qed.

(** The attempts before the last one failed, and the loop stopped early
    only on a success. *)
Lemma reset_attempts_stop (errs : list bool) :
  (forall i, (i < reset_attempts errs - 1)%nat -> errs !! i = Some true) /\
  ((reset_attempts errs < length errs)%nat ->
   errs !! (reset_attempts errs - 1)%nat = Some false).
Proof.
  induction errs as [| [|] errs [IH1 IH2]]; cbn [reset_attempts length].
  - split; intros; lia.
  - split.
    + intros [| i] Hi; [reflexivity |]. cbn. apply IH1. lia.
    + intros Hlt.
      replace (S (reset_attempts errs) - 1)%nat with (reset_attempts errs)
        by lia.
      destruct (reset_attempts errs) as [| k] eqn:Hk.
      * destruct errs as [| [|] errs']; cbn in *; try lia; discriminate.
      * cbn. replace k with (S k - 1)%nat by lia. apply IH2. lia.
  - split; [intros i Hi; lia | reflexivity].
Qed.

(** One sleep of 30 ms after each failed attempt. *)
Lemma reset_events_sleeps (errs : list bool) :
  sleeps (reset_events errs) = replicate (reset_failures errs) 30.
Proof.
  induction errs as [| [|] errs IH]; cbn; [reflexivity | | reflexivity].
  f_equal. exact IH.
Qed.

(** Every attempt failed, or all but the last one. *)
Lemma reset_failures_attempts (errs : list bool) :
  match errs !! (reset_attempts errs - 1)%nat with
  | Some false => reset_failures errs = (reset_attempts errs - 1)%nat
  | _ => reset_failures errs = reset_attempts errs
  end.
Proof.
  induction errs as [| [|] errs IH]; cbn [reset_attempts reset_failures];
    [reflexivity | | reflexivity].
  replace (S (reset_attempts errs) - 1)%nat with (reset_attempts errs) by lia.
  destruct (reset_attempts errs) as [| k] eqn:Hk.
  - destruct errs as [| [|] errs']; cbn in *; try lia; discriminate.
  - cbn [lookup list_lookup]. replace k with (S k - 1)%nat by lia.
    destruct (errs !! (S k - 1)%nat) as [[|] |]; lia.
Qed.

Lemma quiet_comprehensive_step2 : writing Comprehensive.step2 (fun _ => []).
Proof. unfold Comprehensive.step2. quiet. Qed.

(** The whole run of comprehensive_test: the counters at the end and the
    frames written, whatever the device answers. *)
Lemma comprehensive_main_run (w w' : World) (seq : list Z) (rc : Z) :
  Comprehensive.main false w = (Some (seq, rc), w') ->
  seq = [0; 0; 3; 0; 0; 0] /\
  exists n evs, w' = after w n evs /\
    writes evs =
      replicate (reset_attempts (errs_from w 5)) Comprehensive.softReset
      ++ [frame_of 2 0 Comprehensive.initCmd;
          frame_of 2 1 Comprehensive.prodIDReq;
          frame_of 2 2 Comprehensive.setFeature].
Proof.
  intros H. unfold Comprehensive.main in H.
  inv_run H. rewrite Sleep_after in Hrun. injection Hrun as _ <-.
  inv_run H. unfold Comprehensive.step1 in Hrun.
  inv_run Hrun. rewrite reset_loop in Hrun0.
  rewrite (errs_from_after w 0 5 [EvSleep 2000]) in Hrun0.
  replace (after w 0 []) with w in Hrun0 by (symmetry; apply after_0_nil).
  remember (errs_from w 5) as errs eqn:Herrs.
  injection Hrun0 as _ <-.
  rewrite Sleep_after in Hrun. injection Hrun as _ <-.
  inv_run H. apply quiet_comprehensive_step2 in Hrun as (k2 & e2 & -> & Hw2).
  inv_run H.
  apply (comprehensive_step3 [0; 0; 0; 0; 0; 0] 0) in Hrun
    as (-> & k3 & e3 & -> & Hw3); [| reflexivity | reflexivity].
  inv_run H.
  apply (comprehensive_step4 [0; 0; 1; 0; 0; 0] 1) in Hrun
    as (-> & k4 & e4 & -> & Hw4); [| reflexivity | reflexivity].
  inv_run H.
  apply (comprehensive_step5 [0; 0; 2; 0; 0; 0] 2) in Hrun
    as (-> & k5 & e5 & -> & Hw5); [| reflexivity | reflexivity].
  inv_run H.
  apply (quiet_forAcc 100 Comprehensive.poll 0 quiet_comprehensive_poll)
    in Hrun as (k6 & e6 & -> & Hw6).
  inv_run H. injection H as -> ->. split; [reflexivity |].
  rewrite !after_after. eexists _, _. split; [reflexivity |].
  rewrite !writes_app, Hw2, Hw3, Hw4, Hw5, Hw6, reset_events_writes.
  cbn [writes omap app]. reflexivity.
Qed.

(** ** The frames of the channel-debug program *)

Lemma writing_run {A} (o : Outcome A) : writing (run o) (fun _ => []).
Proof. unfold run. apply writing_lift. Qed.

Lemma quiet_channel_debug_step2 : writing ChannelDebug.step2 (fun _ => []).
Proof.
  unfold ChannelDebug.step2.
  repeat first [ apply writing_run | progress quiet ].
Qed.

Lemma quiet_channel_debug_poll (cc : gmap Z Z) :
  writing (ChannelDebug.poll cc) (fun _ => []).
Proof. unfold ChannelDebug.poll. quiet. Qed.

Lemma channel_debug_step3 (seq : list Z) (s : Z) (w w' : World)
    (r : list Z) :
  length seq = 6%nat -> seq !! 2%nat = Some s ->
  ChannelDebug.step3 seq w = (Some r, w') ->
  r = <[2%nat := uint8 (s + 1)]> seq /\
  exists n evs, w' = after w n evs /\
    writes evs = [frame_of 2 s ChannelDebug.initCmd].
Proof.
  intros Hlen Hs H.
  assert (Hc : 0 <= 2 < len seq) by (unfold len; lia).
  unfold ChannelDebug.step3 in H.
  refine (send_step_channel_debug _ 2 s seq _ _ _ _ _ Hc Hs _ _ H);
    intros x; [quiet | returns].
Qed.

Lemma channel_debug_step4 (seq : list Z) (s : Z) (w w' : World)
    (r : list Z) :
  length seq = 6%nat -> seq !! 2%nat = Some s ->
  ChannelDebug.step4 seq w = (Some r, w') ->
  r = <[2%nat := uint8 (s + 1)]> seq /\
  exists n evs, w' = after w n evs /\
    writes evs = [frame_of 2 s ChannelDebug.setFeature].
Proof.
  intros Hlen Hs H.
  assert (Hc : 0 <= 2 < len seq) by (unfold len; lia).
  unfold ChannelDebug.step4 in H.
  refine (send_step_channel_debug _ 2 s seq _ _ _ _ _ Hc Hs _ _ H);
    intros x; [quiet | returns].
Qed.

(** The whole run of the channel-debug program. *)
Lemma channel_debug_main_run (w w' : World) (seq : list Z)
    (channels : gmap (list Z) Z) (counts : gmap Z Z) :
  ChannelDebug.main false w = (Some (seq, channels, counts), w') ->
  seq = [0; 0; 2; 0; 0; 0] /\
  exists n evs, w' = after w n evs /\
    writes evs =
      [ChannelDebug.softReset;
       frame_of 2 0 ChannelDebug.initCmd;
       frame_of 2 1 ChannelDebug.setFeature].
Proof.
  intros H. unfold ChannelDebug.main in H.
  inv_run H. rewrite Sleep_after in Hrun. injection Hrun as _ <-.
  inv_run H. rewrite Tx_after in Hrun. injection Hrun as _ <-.
  inv_run H. rewrite Sleep_after in Hrun. injection Hrun as _ <-.
  inv_run H. apply quiet_channel_debug_step2 in Hrun as (k2 & e2 & -> & Hw2).
  inv_run H.
  apply (channel_debug_step3 [0; 0; 0; 0; 0; 0] 0) in Hrun
    as (-> & k3 & e3 & -> & Hw3); [| reflexivity | reflexivity].
  inv_run H.
  apply (channel_debug_step4 [0; 0; 1; 0; 0; 0] 1) in Hrun
    as (-> & k4 & e4 & -> & Hw4); [| reflexivity | reflexivity].
  inv_run H.
  apply (quiet_forAcc 100 ChannelDebug.poll ∅ quiet_channel_debug_poll)
    in Hrun as (k6 & e6 & -> & Hw6).
  inv_run H. injection H as -> -> ->. split; [reflexivity |].
  rewrite !after_after. eexists _, _. split; [reflexivity |].
  rewrite !writes_app, Hw2, Hw3, Hw4, Hw6. reflexivity.
Qed.

(** ** The frames of setfeature_test and i2c_test *)

Lemma quiet_setfeature_drain : writing SetFeature.drain (fun _ => []).
Proof.
  unfold SetFeature.drain.
  repeat first [ apply writing_run | progress quiet ].
Qed.

Lemma quiet_setfeature_poll : writing SetFeature.poll (fun _ => []).
Proof. unfold SetFeature.poll. quiet. Qed.

Lemma setfeature_main_run (w w' : World) :
  SetFeature.main false w = (Some true, w') ->
  exists n evs, w' = after w n evs /\
    writes evs =
      [SetFeature.softReset;
       [0x11; 0; 2; 0; 0xF2; 0; 0x04; 0x01; 0; 0; 0; 0; 0; 0; 0; 0; 0];
       [0x15; 0; 2; 0; 0xFD; 0x01; 0; 0; 0; 0x10; 0x27; 0; 0;
        0; 0; 0; 0; 0; 0; 0; 0]].
Proof.
  intros H. unfold SetFeature.main in H.
  inv_run H. rewrite Sleep_after in Hrun. injection Hrun as _ <-.
  inv_run H. rewrite Tx_after in Hrun. injection Hrun as <- <-.
  destruct (rsp_err _); [inv_run H; discriminate |].
  inv_run H. rewrite Sleep_after in Hrun. injection Hrun as _ <-.
  inv_run H. apply quiet_setfeature_drain in Hrun as (k2 & e2 & -> & Hw2).
  inv_run H. apply run_lift in Hrun as [Hframe ->].
  injection Hframe as <-.
  inv_run H. rewrite Tx_after in Hrun. injection Hrun as <- <-.
  destruct (rsp_err _); [inv_run H; discriminate |].
  inv_run H. rewrite Sleep_after in Hrun. injection Hrun as _ <-.
  inv_run H. apply run_lift in Hrun as [Hframe ->].
  injection Hframe as <-.
  inv_run H. rewrite Tx_after in Hrun. injection Hrun as <- <-.
  destruct (rsp_err _); [inv_run H; discriminate |].
  inv_run H. rewrite Sleep_after in Hrun. injection Hrun as _ <-.
  inv_run H.
  assert (Hq : writing (forN 30 (SetFeature.poll;; ret false)) (fun _ => []))
    by (apply quiet_forN, quiet_bind;
        [apply quiet_setfeature_poll | intros; apply writing_ret]).
  apply Hq in Hrun as (k3 & e3 & -> & Hw3).
  inv_run H.
  rewrite !after_after. eexists _, _. split; [reflexivity |].
  rewrite !writes_app, Hw2, Hw3. reflexivity.
Qed.

(** ** Polling *)

Lemma fill_4_bytes (d : list Z) (b0 b1 b2 b3 : Z) :
  fill 4 d = [b0; b1; b2; b3] ->
  (0 <= b0 < 256) /\ (0 <= b1 < 256) /\ (0 <= b2 < 256) /\ (0 <= b3 < 256).
Proof.
  unfold fill.
  destruct d as [| x0 [| x1 [| x2 [| x3 d]]]]; cbn; intros H;
    injection H as <- <- <- <-;
    repeat split; try apply uint8_range; lia.
Qed.

Lemma lor_bytes (b0 b1 : Z) :
  0 <= b0 < 256 -> 0 <= b1 < 256 ->
  Z.lor b0 (Z.shiftl b1 8) = b0 + 256 * b1.
Proof.
  intros H0 H1. rewrite <- Z.add_nocarry_lor.
  - rewrite Z.shiftl_mul_pow2 by lia. change (2 ^ 8) with 256. lia.
  - apply Z.bits_inj'; intros n Hn.
    rewrite Z.land_spec, Z.bits_0, Z.shiftl_spec by lia.
    destruct (Z.lt_ge_cases n 8) as [Hlt | Hge].
    + rewrite (Z.testbit_neg_r b1) by lia. apply andb_false_r.
    + destruct (Z.eq_dec b0 0) as [-> | Hnz]; [rewrite Z.bits_0; reflexivity |].
      rewrite (Z.bits_above_log2 b0 n); [reflexivity | lia |].
      apply Z.log2_lt_pow2; [lia |].
      apply Z.lt_le_trans with (2 ^ 8); [change (2 ^ 8) with 256; lia |].
      apply Z.pow_le_mono_r; lia.
Qed.

Lemma bit15_test (l : Z) :
  (Z.land l 0x8000 =? 0) = negb (Z.testbit l 15).
Proof.
  change 0x8000 with (2 ^ 15).
  destruct (Z.testbit l 15) eqn:Hb; cbn [negb].
  - apply Z.eqb_neq. intros H0.
    assert (Hbit : Z.testbit (Z.land l (2 ^ 15)) 15 = true)
      by (rewrite Z.land_spec, Hb, Z.pow2_bits_true by lia; reflexivity).
    rewrite H0, Z.bits_0 in Hbit. discriminate.
  - apply Z.eqb_eq. apply Z.bits_inj'; intros n Hn.
    rewrite Z.land_spec, Z.bits_0.
    destruct (Z.eq_dec n 15) as [-> | Hne].
    + rewrite Hb. reflexivity.
    + rewrite (Z.pow2_bits_false 15 n) by lia. apply andb_false_r.
Qed.

Lemma mask15 (l : Z) :
  0 <= l < 65536 -> Z.testbit l 15 = false -> Z.land l 0x7FFF = l.
Proof.
  intros Hl Hb. change 0x7FFF with (Z.ones 15).
  rewrite Z.land_ones by lia. apply Z.mod_small.
  apply Z.testbit_false in Hb; [| lia]. change (2 ^ 15) with 32768 in *.
  assert (Hq : 0 <= l / 32768 < 2)
    by (split; [apply Z.div_pos; lia | apply Z.div_lt_upper_bound; lia]).
  assert (Hz : l / 32768 = 0).
  { rewrite Z.mod_small in Hb by exact Hq. exact Hb. }
  pose proof (Z.div_mod l 32768 ltac:(lia)) as Hdm.
  pose proof (Z.mod_pos_bound l 32768 ltac:(lia)) as Hm.
  rewrite Hz in Hdm. lia.
Qed.

Lemma discarded_tests (length : Z) :
  0 <= length < 65536 -> discarded length ->
  negb (Z.land length 0x8000 =? 0) = true \/
  (negb (Z.land length 0x8000 =? 0) = false /\
   ((length =? 0) = true \/
    ((length =? 0) = false /\ Z.land length 0x7FFF = length /\
     (length <? 500) = false))).
Proof.
  intros Hl Hd. rewrite bit15_test, negb_involutive.
  destruct (Z.testbit length 15) eqn:Hb; [left; reflexivity | right].
  split; [reflexivity |].
  unfold discarded in Hd.
  destruct Hd as [Hd | [-> | Hd]]; [congruence | left; reflexivity |].
  right. split; [apply Z.eqb_neq; lia |].
  split; [apply mask15; assumption | apply Z.ltb_ge; lia].
Qed.

Lemma comprehensive_poll_discards (w : World) (rc b0 b1 b2 b3 : Z) :
  fill 4 (rsp_data (w_bus w (w_n w))) = [b0; b1; b2; b3] ->
  discarded (Z.lor b0 (Z.shiftl b1 8)) ->
  Comprehensive.poll rc w =
    (Some rc, after w 1 [EvTx 0x4A [] 4; EvSleep 10]).
Proof.
  intros Hh Hd. pose proof (fill_4_bytes _ _ _ _ _ Hh) as (H0 & H1 & _).
  assert (Hl : 0 <= Z.lor b0 (Z.shiftl b1 8) < 65536)
    by (rewrite lor_bytes by assumption; lia).
  unfold Comprehensive.poll. unfold bind at 1. rewrite Tx_after, Hh.
  destruct (rsp_err _); [apply Sleep_ret |].
  cbn [take Uint16 lift bind].
  change (uint16 (Z.lnot 0x8000)) with 0x7FFF.
  destruct (discarded_tests _ Hl Hd) as [-> | [-> [-> | (-> & -> & Hc)]]];
    try apply Sleep_ret.
  rewrite Hc, andb_false_r. apply Sleep_ret.
Qed.

Lemma hybrid_poll_discards (w : World) (st : Z * gmap Z Z)
    (b0 b1 b2 b3 : Z) :
  fill 4 (rsp_data (w_bus w (w_n w))) = [b0; b1; b2; b3] ->
  discarded (Z.lor b0 (Z.shiftl b1 8)) ->
  Hybrid.poll st w = (Some st, after w 1 [EvTx 0x4A [] 4; EvSleep 10]).
Proof.
  intros Hh Hd. pose proof (fill_4_bytes _ _ _ _ _ Hh) as (H0 & H1 & _).
  assert (Hl : 0 <= Z.lor b0 (Z.shiftl b1 8) < 65536)
    by (rewrite lor_bytes by assumption; lia).
  destruct st as [rc cc].
  unfold Hybrid.poll. unfold bind at 1. rewrite Tx_after, Hh.
  destruct (rsp_err _); [apply Sleep_ret |].
  cbn [take Uint16 lift bind].
  destruct (discarded_tests _ Hl Hd) as [-> | [-> [-> | (-> & -> & Hc)]]];
    try apply Sleep_ret.
  rewrite Hc, andb_false_r. apply Sleep_ret.
Qed.

Lemma channel_debug_poll_discards (w : World) (cc : gmap Z Z)
    (b0 b1 b2 b3 : Z) :
  fill 4 (rsp_data (w_bus w (w_n w))) = [b0; b1; b2; b3] ->
  discarded (Z.lor b0 (Z.shiftl b1 8)) ->
  ChannelDebug.poll cc w = (Some cc, after w 1 [EvTx 0x4A [] 4; EvSleep 10]).
Proof.
  intros Hh Hd. pose proof (fill_4_bytes _ _ _ _ _ Hh) as (H0 & H1 & _).
  assert (Hl : 0 <= Z.lor b0 (Z.shiftl b1 8) < 65536)
    by (rewrite lor_bytes by assumption; lia).
  unfold ChannelDebug.poll. unfold bind at 1. rewrite Tx_after, Hh.
  destruct (rsp_err _); [apply Sleep_ret |].
  cbn [take Uint16 lift bind].
  destruct (discarded_tests _ Hl Hd) as [-> | [-> [-> | (-> & -> & Hc)]]];
    try apply Sleep_ret.
  rewrite Hc, andb_false_r. apply Sleep_ret.
Qed.

(** C3.  Take the four bytes the device answers to the header read of a
    poll, and the 16-bit little-endian length [length] of their first two.
    If bit 15 of [length] is set, or [length] is zero, or [length] is 500 or
    more, then the poll of comprehensive_test and the poll of hybrid_test
    issue that one read and no other transaction, sleep, and leave the
    report count (and the per-channel packet counts) as they were.
    Conversely, a poll that issues a second transaction had a header with
    bit 15 clear and 0 < [length] < 500, for which masking with 0x7FFF gives
    [length] itself.  The polling loop has no access to the six sequence
    counters: whatever the device answers, comprehensive_test ends with the
    counters its three sends left, 0 0 3 0 0 0. *)
Theorem poll_discards_header (w : World) (rc : Z) (cc : gmap Z Z)
    (b0 b1 b2 b3 : Z) :
  fill 4 (rsp_data (w_bus w (w_n w))) = [b0; b1; b2; b3] ->
  let length := Z.lor b0 (Z.shiftl b1 8) in
  (Z.testbit length 15 = true \/ length = 0 \/ 500 <= length ->
   Comprehensive.poll rc w =
     (Some rc, after w 1 [EvTx 0x4A [] 4; EvSleep 10]) /\
   Hybrid.poll (rc, cc) w =
     (Some (rc, cc), after w 1 [EvTx 0x4A [] 4; EvSleep 10])) /\
  (w_n (snd (Comprehensive.poll rc w)) <> S (w_n w) \/
   w_n (snd (Hybrid.poll (rc, cc) w)) <> S (w_n w) ->
   Z.testbit length 15 = false /\ 0 < length < 500 /\
   Z.land length 0x7FFF = length) /\
  (forall (w0 w' : World) (seq : list Z) (rc' : Z),
     Comprehensive.main false w0 = (Some (seq, rc'), w') ->
     seq = [0; 0; 3; 0; 0; 0]).
Proof.
  intros Hh length.
  pose proof (fill_4_bytes _ _ _ _ _ Hh) as (H0 & H1 & _).
  assert (Hl : 0 <= length < 65536)
    by (unfold length; rewrite lor_bytes by assumption; lia).
  assert (Hdis : discarded length ->
            Comprehensive.poll rc w =
              (Some rc, after w 1 [EvTx 0x4A [] 4; EvSleep 10]) /\
            Hybrid.poll (rc, cc) w =
              (Some (rc, cc), after w 1 [EvTx 0x4A [] 4; EvSleep 10])).
  { intros Hd. split.
    - eapply comprehensive_poll_discards; eassumption.
    - eapply hybrid_poll_discards; eassumption. }
  split; [exact Hdis | split].
  - intros Hsecond.
    destruct (Z.testbit length 15) eqn:Hb.
    { destruct (Hdis (or_introl Hb)) as [Hc Hy].
      rewrite Hc, Hy in Hsecond. cbn in Hsecond. destruct Hsecond; congruence. }
    destruct (Z.eq_dec length 0) as [Hz | Hnz].
    { destruct (Hdis (or_intror (or_introl Hz))) as [Hc Hy].
      rewrite Hc, Hy in Hsecond. cbn in Hsecond. destruct Hsecond; congruence. }
    destruct (Z_lt_ge_dec length 500) as [Hlt | Hge].
    + repeat split; try lia. apply mask15; assumption.
    + assert (Hd : discarded length) by (right; right; lia).
      destruct (Hdis Hd) as [Hc Hy].
      rewrite Hc, Hy in Hsecond. cbn in Hsecond. destruct Hsecond; congruence.
  - intros w0 w' seq rc' Hmain.
    apply comprehensive_main_run in Hmain as [-> _]. reflexivity.
Qed.

(** The continuation header FF FF 03 00 of the spec is thrown away. *)
Lemma poll_discards_header_witness :
  let w := start (scripted [{| rsp_err := false;
                               rsp_data := [0xFF; 0xFF; 0x03; 0x00] |}]) in
  Comprehensive.poll 7 w = (Some 7, after w 1 [EvTx 0x4A [] 4; EvSleep 10]).
Proof.
  intros w.
  destruct (poll_discards_header w 7 ∅ 0xFF 0xFF 0x03 0x00 eq_refl)
    as [Hdis _].
  apply Hdis. left. reflexivity.
Defined.

(** ** The set-feature command *)

(** C2, as the code has it.  Enabling the game rotation vector (sensor
    0x08, 10000 microseconds) is one write of 21 bytes,
    15 00 02 s FD 08 00 00 00 10 27 00 00 00 00 00 00 00 00 00 00, where
    the sequence byte [s] is the counter of channel 2 at that time.  In
    comprehensive_test the Initialize command and the product-ID request
    have gone out on channel 2 before it, so [s] is 2 there; in the
    channel-debug program one command has, so [s] is 1.  The frame has
    sequence 0 only when nothing was sent on channel 2 before. *)
Theorem set_feature_frame :
  (forall (seq : list Z) (s : Z) (w : World),
     length seq = 6%nat -> seq !! 2%nat = Some s ->
     let frame := [0x15; 0x00; 0x02; s; 0xFD; 0x08; 0x00; 0x00; 0x00;
                   0x10; 0x27; 0x00; 0x00; 0x00; 0x00; 0x00; 0x00;
                   0x00; 0x00; 0x00; 0x00] in
     Comprehensive.step5 seq w =
       (Some (<[2%nat := uint8 (s + 1)]> seq),
        after w 1 [EvTx 0x4A frame 0; EvSleep 100]) /\
     ChannelDebug.step4 seq w =
       (Some (<[2%nat := uint8 (s + 1)]> seq),
        after w 1 [EvTx 0x4A frame 0; EvSleep 100]) /\
     length frame = 21%nat) /\
  (forall (w w' : World) (seq : list Z) (rc : Z),
     Comprehensive.main false w = (Some (seq, rc), w') ->
     exists (k n : nat) (evs : list Event),
       (1 <= k <= 5)%nat /\ w' = after w n evs /\
       writes evs =
         replicate k [0x05; 0x00; 0x01; 0x00; 0x01] ++
         [[0x11; 0x00; 0x02; 0x00; 0xF2; 0x00; 0x04; 0x01; 0x00; 0x00;
           0x00; 0x00; 0x00; 0x00; 0x00; 0x00; 0x00];
          [0x06; 0x00; 0x02; 0x01; 0xF9; 0x00];
          [0x15; 0x00; 0x02; 0x02; 0xFD; 0x08; 0x00; 0x00; 0x00;
           0x10; 0x27; 0x00; 0x00; 0x00; 0x00; 0x00; 0x00;
           0x00; 0x00; 0x00; 0x00]]) /\
  (forall (w w' : World) (seq : list Z) (channels : gmap (list Z) Z)
          (counts : gmap Z Z),
     ChannelDebug.main false w = (Some (seq, channels, counts), w') ->
     exists (n : nat) (evs : list Event),
       w' = after w n evs /\
       writes evs =
         [[0x05; 0x00; 0x01; 0x00; 0x01];
          [0x05; 0x00; 0x02; 0x00; 0x02];
          [0x15; 0x00; 0x02; 0x01; 0xFD; 0x08; 0x00; 0x00; 0x00;
           0x10; 0x27; 0x00; 0x00; 0x00; 0x00; 0x00; 0x00;
           0x00; 0x00; 0x00; 0x00]]).
Proof.
  split; [| split].
  - intros seq s w Hlen Hs frame.
    assert (Hc : 0 <= 2 < len seq) by (unfold len; lia).
    split; [| split; [| reflexivity]].
    + unfold Comprehensive.step5, bind at 1.
      rewrite (sendOnChannel_comprehensive _ seq 2 s) by assumption.
      apply Sleep_ret.
    + unfold ChannelDebug.step4, bind at 1.
      rewrite (sendOnChannel_channel_debug _ seq 2 s) by assumption.
      apply Sleep_ret.
  - intros w w' seq rc H.
    apply comprehensive_main_run in H as (_ & n & evs & -> & Hw).
    exists (reset_attempts (errs_from w 5)), n, evs.
    split; [| split; [reflexivity | exact Hw]].
    pose proof (reset_attempts_bounds (errs_from w 5)) as [Hle Hge].
    split; [apply Hge; discriminate | exact Hle].
  - intros w w' seq channels counts H.
    apply channel_debug_main_run in H as (_ & n & evs & -> & Hw).
    exists n, evs. split; [reflexivity | exact Hw].
Qed.

(** The theorem on the counters of comprehensive_test at step 5. *)
Lemma set_feature_frame_witness :
  Comprehensive.step5 [0; 0; 2; 0; 0; 0] (start (scripted [])) =
    (Some [0; 0; 3; 0; 0; 0],
     after (start (scripted [])) 1
       [EvTx 0x4A [0x15; 0x00; 0x02; 0x02; 0xFD; 0x08; 0x00; 0x00; 0x00;
                   0x10; 0x27; 0x00; 0x00; 0x00; 0x00; 0x00; 0x00;
                   0x00; 0x00; 0x00; 0x00] 0;
        EvSleep 100]).
Proof.
  destruct set_feature_frame as [Hstep _].
  destruct (Hstep [0; 0; 2; 0; 0; 0] 2 (start (scripted []))
              eq_refl eq_refl) as [H _].
  exact H.
Defined.

(** C2 as stated fails on comprehensive_test: with a device that answers
    every read with zeros, the frame that enables the game rotation vector
    is the fourth write, and its sequence byte is 2, not 0. *)
Lemma set_feature_sequence_not_zero :
  writes (w_trace (snd (Comprehensive.main false (start (scripted []))))) =
    [[0x05; 0x00; 0x01; 0x00; 0x01];
     [0x11; 0x00; 0x02; 0x00; 0xF2; 0x00; 0x04; 0x01; 0x00; 0x00;
      0x00; 0x00; 0x00; 0x00; 0x00; 0x00; 0x00];
     [0x06; 0x00; 0x02; 0x01; 0xF9; 0x00];
     [0x15; 0x00; 0x02; 0x02; 0xFD; 0x08; 0x00; 0x00; 0x00;
      0x10; 0x27; 0x00; 0x00; 0x00; 0x00; 0x00; 0x00;
      0x00; 0x00; 0x00; 0x00]] /\
  [0x15; 0x00; 0x02; 0x02; 0xFD; 0x08; 0x00; 0x00; 0x00;
   0x10; 0x27; 0x00; 0x00; 0x00; 0x00; 0x00; 0x00; 0x00; 0x00; 0x00; 0x00]
  <> [0x15; 0x00; 0x02; 0x00; 0xFD; 0x08; 0x00; 0x00; 0x00;
      0x10; 0x27; 0x00; 0x00; 0x00; 0x00; 0x00; 0x00; 0x00; 0x00; 0x00; 0x00].
Proof. split; [vm_compute; reflexivity | discriminate]. Qed.

(** ** The Initialize command *)

(** C6 on the code.  In comprehensive_test and in setfeature_test the
    Initialize command goes out on channel 2 with the 13-byte payload
    F2 00 04 01 and nine zeros.  The channel-debug program sends, as its
    initialize command on channel 2, the one-byte payload 02: its frame is
    05 00 02 00 02. *)
Theorem initialize_command_frames :
  (forall (w w' : World) (seq : list Z) (rc : Z),
     Comprehensive.main false w = (Some (seq, rc), w') ->
     exists (k n : nat) (evs : list Event) (rest : list (list Z)),
       w' = after w n evs /\
       writes evs =
         replicate k [0x05; 0x00; 0x01; 0x00; 0x01] ++
         [0x11; 0x00; 0x02; 0x00;
          0xF2; 0x00; 0x04; 0x01; 0x00; 0x00; 0x00; 0x00; 0x00; 0x00;
          0x00; 0x00; 0x00] :: rest) /\
  (forall (w w' : World),
     SetFeature.main false w = (Some true, w') ->
     exists (n : nat) (evs : list Event) (rest : list (list Z)),
       w' = after w n evs /\
       writes evs =
         [0x05; 0x00; 0x01; 0x00; 0x01] ::
         [0x11; 0x00; 0x02; 0x00;
          0xF2; 0x00; 0x04; 0x01; 0x00; 0x00; 0x00; 0x00; 0x00; 0x00;
          0x00; 0x00; 0x00] :: rest) /\
  (forall (w w' : World) (seq : list Z) (channels : gmap (list Z) Z)
          (counts : gmap Z Z),
     ChannelDebug.main false w = (Some (seq, channels, counts), w') ->
     exists (n : nat) (evs : list Event) (rest : list (list Z)),
       w' = after w n evs /\
       writes evs =
         [0x05; 0x00; 0x01; 0x00; 0x01] ::
         [0x05; 0x00; 0x02; 0x00; 0x02] :: rest).
Proof.
  split; [| split].
  - intros w w' seq rc H.
    apply comprehensive_main_run in H as (_ & n & evs & -> & Hw).
    eexists _, n, evs, _. split; [reflexivity | exact Hw].
  - intros w w' H.
    apply setfeature_main_run in H as (n & evs & -> & Hw).
    eexists n, evs, _. split; [reflexivity | exact Hw].
  - intros w w' seq channels counts H.
    apply channel_debug_main_run in H as (_ & n & evs & -> & Hw).
    eexists n, evs, _. split; [reflexivity | exact Hw].
Qed.

(** The channel-debug program against a device that answers every read
    with zeros. *)
Lemma initialize_command_frames_witness :
  exists (n : nat) (evs : list Event) (rest : list (list Z)),
    snd (ChannelDebug.main false (start (scripted []))) =
      after (start (scripted [])) n evs /\
    writes evs =
      [0x05; 0x00; 0x01; 0x00; 0x01] ::
      [0x05; 0x00; 0x02; 0x00; 0x02] :: rest.
Proof.
  destruct initialize_command_frames as (_ & _ & Hdebug).
  destruct (ChannelDebug.main false (start (scripted [])))
    as [[[[seq channels] counts] |] w'] eqn:Hmain.
  - exact (Hdebug _ _ _ _ _ Hmain).
  - vm_compute in Hmain. discriminate.
Defined.

(** ** The retries of the soft reset *)

(** C8, as the code has it.  In comprehensive_test the soft reset is the
    write of the five bytes 05 00 01 00 01 (length 5, channel 1, sequence
    0, payload 01), attempted at least once and at most five times: every
    attempt but the last failed, a loop that ends before the fifth attempt
    ended on a success, and each failed attempt, the fifth too, is followed
    by a sleep of 30 ms; a sleep of 300 ms ends the step.  In i2c_test and
    in setfeature_test the same five bytes are written once, and a failure
    of that write ends the program: no retry and no delay. *)
Theorem soft_reset_attempts (w : World) :
  (exists (k : nat) (evs : list Event),
     (1 <= k <= 5)%nat /\
     Comprehensive.step1 w = (Some tt, after w k (evs ++ [EvSleep 300])) /\
     evs = reset_events (errs_from w 5) /\
     writes evs = replicate k [0x05; 0x00; 0x01; 0x00; 0x01] /\
     (forall i, (i < k - 1)%nat -> rsp_err (w_bus w (i + w_n w)%nat) = true) /\
     ((k < 5)%nat -> rsp_err (w_bus w (k - 1 + w_n w)%nat) = false) /\
     sleeps evs =
       replicate (if rsp_err (w_bus w (k - 1 + w_n w)%nat) then k
                  else (k - 1)%nat) 30) /\
  (rsp_err (w_bus w (w_n w)) = true ->
   I2CTest.main false w =
     (Some false,
      after w 1 [EvSleep 2000; EvTx 0x4A [0x05; 0x00; 0x01; 0x00; 0x01] 0]) /\
   SetFeature.main false w =
     (Some false,
      after w 1 [EvSleep 2000; EvTx 0x4A [0x05; 0x00; 0x01; 0x00; 0x01] 0])).
Proof.
  split.
  - set (errs := errs_from w 5).
    assert (Hlen : length errs = 5%nat) by reflexivity.
    pose proof (reset_attempts_bounds errs) as [Hle Hge].
    pose proof (reset_attempts_stop errs) as [Hfail Hstop].
    pose proof (reset_failures_attempts errs) as Hsl.
    assert (Hnth : forall i, (i < 5)%nat ->
              errs !! i = Some (rsp_err (w_bus w (i + w_n w)%nat))).
    { intros i Hi. unfold errs, errs_from.
      rewrite list_lookup_fmap, lookup_seq_lt by lia. reflexivity. }
    exists (reset_attempts errs), (reset_events errs).
    assert (Hk : (1 <= reset_attempts errs <= 5)%nat)
      by (split; [apply Hge; discriminate | lia]).
    split; [exact Hk |]. split.
    { unfold Comprehensive.step1, bind at 1. rewrite reset_loop.
      fold errs. rewrite Sleep_after, after_after.
      rewrite Nat.add_0_l. reflexivity. }
    split; [reflexivity |]. split; [apply reset_events_writes |]. split.
    { intros i Hi. specialize (Hfail i Hi).
      rewrite Hnth in Hfail by lia. congruence. }
    split.
    { intros Hlt. rewrite Hlen in Hstop. specialize (Hstop Hlt).
      rewrite Hnth in Hstop by lia. congruence. }
    rewrite reset_events_sleeps.
    rewrite Hnth in Hsl by lia.
    destruct (rsp_err (w_bus w (reset_attempts errs - 1 + w_n w)%nat));
      rewrite Hsl; reflexivity.
  - intros Herr. split.
    + unfold I2CTest.main, bind at 1. rewrite Sleep_after.
      unfold bind at 1. rewrite Tx_after. cbn [w_bus w_n after Nat.add].
      rewrite Herr. unfold ret. rewrite after_after. reflexivity.
    + unfold SetFeature.main, bind at 1. rewrite Sleep_after.
      unfold bind at 1. rewrite Tx_after. cbn [w_bus w_n after Nat.add].
      rewrite Herr. unfold ret. rewrite after_after. reflexivity.
Qed.

(** The theorem on a device whose first transaction fails. *)
Lemma soft_reset_attempts_witness :
  I2CTest.main false
    (start (scripted [{| rsp_err := true; rsp_data := [] |}])) =
    (Some false,
     after (start (scripted [{| rsp_err := true; rsp_data := [] |}])) 1
       [EvSleep 2000; EvTx 0x4A [0x05; 0x00; 0x01; 0x00; 0x01] 0]).
Proof.
  destruct (soft_reset_attempts
              (start (scripted [{| rsp_err := true; rsp_data := [] |}])))
    as [_ Hsingle].
  destruct (Hsingle eq_refl) as [H _]. exact H.
Defined.

(** C8 as stated fails on i2c_test: when the device fails the first
    transaction, the reset is written once, no retry and no delay of 30 ms
    follow, and the program ends; the same device gets the reset twice from
    comprehensive_test, 30 ms apart. *)
Lemma soft_reset_not_retried :
  let device := scripted [{| rsp_err := true; rsp_data := [] |}] in
  I2CTest.main false (start device) =
    (Some false,
     after (start device) 1
       [EvSleep 2000; EvTx 0x4A [0x05; 0x00; 0x01; 0x00; 0x01] 0]) /\
  Comprehensive.step1 (start device) =
    (Some tt,
     after (start device) 2
       [EvTx 0x4A [0x05; 0x00; 0x01; 0x00; 0x01] 0; EvSleep 30;
        EvTx 0x4A [0x05; 0x00; 0x01; 0x00; 0x01] 0; EvSleep 300]).
Proof. split; reflexivity. Qed.

(** ** The second read of a packet *)

(** C5 on the code, with a device that has one packet of ten bytes on
    channel 3 and, as the claim says, repeats the header at the start of
    the second read.  The polls of comprehensive_test, hybrid_test and the
    channel-debug program ask for 10 bytes in the second read.  i2c_test and
    setfeature_test ask for 6, that is [length - 4]; i2c_test then puts the
    header it read first in front of them, so that the packet it shows holds
    the header twice and only the first two bytes of the payload. *)
Theorem second_read_lengths :
  let device :=
    scripted [{| rsp_err := false; rsp_data := [10; 0; 3; 0] |};
              {| rsp_err := false;
                 rsp_data := [10; 0; 3; 0; 8; 1; 2; 3; 4; 5] |}] in
  reads (w_trace (snd (Comprehensive.poll 0 (start device)))) = [4; 10]%nat /\
  reads (w_trace (snd (Hybrid.poll (0, ∅) (start device)))) = [4; 10]%nat /\
  reads (w_trace (snd (ChannelDebug.poll ∅ (start device)))) = [4; 10]%nat /\
  fst (Comprehensive.poll 0 (start device)) = Some 1 /\
  reads (w_trace (snd (I2CTest.readOne (start device)))) = [4; 6]%nat /\
  fst (I2CTest.readOne (start device)) =
    Some (Some [10; 0; 3; 0; 10; 0; 3; 0; 8; 1]) /\
  reads (w_trace (snd (SetFeature.poll (start device)))) = [4; 6]%nat.
Proof. repeat split; vm_compute; reflexivity. Qed.


(** ** [parseAdvertisement] *)

Lemma at_index_in_range {A} (l : list A) (i : Z) :
  0 <= i < len l -> exists x, at_index l i = Some x /\ x ∈ l.
Proof.
  intros Hi. unfold at_index, len in *.
  replace (i <? 0) with false by (symmetry; apply Z.ltb_ge; lia).
  destruct (lookup_lt_is_Some_2 l (Z.to_nat i)) as [x Hx]; [lia |].
  exists x. split; [exact Hx | eapply list_elem_of_lookup_2; exact Hx].
Qed.

Lemma slice_in_range {A} (l : list A) (lo hi : Z) :
  0 <= lo <= hi -> hi <= len l ->
  exists v, slice l lo hi = Some v /\ len v = hi - lo.
Proof.
  intros Hlo Hhi. unfold slice, len in *.
  replace (0 <=? lo) with true by (symmetry; apply Z.leb_le; lia).
  replace (lo <=? hi) with true by (symmetry; apply Z.leb_le; lia).
  replace (hi <=? Z.of_nat (length l)) with true
    by (symmetry; apply Z.leb_le; lia).
  eexists. split; [reflexivity |].
  rewrite length_take, length_drop. lia.
Qed.

(** The body of the loop never indexes outside [value]. *)
Lemma report_in_range (tag length : Z) (value : list Z) :
  len value = length -> exists lines, SetFeature.report tag length value = Some lines.
Proof.
  intros Hlen. unfold SetFeature.report.
  assert (Hin : (1 <? length) = true ->
            exists c name, at_index value 0 = Some c /\
                           slice value 1 (len value) = Some name).
  { intros H1. apply Z.ltb_lt in H1.
    destruct (at_index_in_range value 0) as (c & Hc & _); [lia |].
    destruct (slice_in_range value 1 (len value)) as (name & Hn & _);
      [lia | lia |].
    eauto. }
  destruct (tag =? 6); [| destruct (tag =? 7); [| destruct (tag =? 0x80)]];
    try (eexists; reflexivity);
    (destruct (1 <? length); [| eexists; reflexivity];
     destruct (Hin eq_refl) as (c & name & -> & ->); eexists; reflexivity).
Qed.

Lemma parseLoop_total (fuel : nat) (payload : list Z) (i : Z)
    (out : list Line) :
  Forall is_byte payload -> 0 <= i -> len payload - i <= Z.of_nat fuel ->
  exists out', SetFeature.parseLoop fuel payload i out = Done out'.
Proof.
  intros Hbytes. revert i out.
  induction fuel as [| fuel IH]; intros i out Hi Hfuel; cbn [SetFeature.parseLoop].
  - replace (i <? len payload - 2) with false
      by (symmetry; apply Z.ltb_ge; lia).
    eauto.
  - destruct (i <? len payload - 2) eqn:Hloop; [| eauto].
    apply Z.ltb_lt in Hloop.
    destruct (at_index_in_range payload i) as (tag & -> & _); [lia |].
    destruct (at_index_in_range payload (i + 1)) as (length & -> & Hin);
      [lia |].
    assert (Hlength : is_byte length)
      by (rewrite Forall_forall in Hbytes; apply Hbytes; exact Hin).
    unfold is_byte in Hlength.
    destruct (i + 2 + length >? len payload) eqn:Hpast; [eauto |].
    assert (Hfits : i + 2 + length <= len payload) by lia.
    destruct (slice_in_range payload (i + 2) (i + 2 + length))
      as (value & -> & Hvalue); [lia | lia |].
    destruct (report_in_range tag length value) as (lines & ->); [lia |].
    apply IH; lia.
Qed.

(** C10.  On every slice of bytes [parseAdvertisement] comes to an end
    without a panic: each index [payload[i]], [payload[i+1]], [value[0]]
    and each slice [payload[i:i+length]], [value[1:]] it takes is in
    bounds, and the number of iterations is at most the length of the
    payload.  A record whose declared length runs past the end of the
    payload ends the loop. *)
Theorem parseAdvertisement_total (payload : list Z) :
  Forall (fun b => 0 <= b < 256) payload ->
  (exists out, SetFeature.parseAdvertisement payload = Done out) /\
  (forall (fuel : nat) (i tag length : Z) (out : list Line),
     i < len payload - 2 ->
     at_index payload i = Some tag ->
     at_index payload (i + 1) = Some length ->
     len payload < i + 2 + length ->
     SetFeature.parseLoop (S fuel) payload i out = Done out).
Proof.
  intros Hbytes. split.
  - unfold SetFeature.parseAdvertisement.
    apply parseLoop_total; [exact Hbytes | lia | unfold len; lia].
  - intros fuel i tag length out Hloop Htag Hlength Hpast.
    cbn [SetFeature.parseLoop].
    replace (i <? len payload - 2) with true
      by (symmetry; apply Z.ltb_lt; lia).
    rewrite Htag, Hlength.
    replace (i + 2 + length >? len payload) with true; [reflexivity |].
    symmetry. apply Z.gtb_lt. lia.
Qed.

(** The theorem on a payload whose second record declares 200 bytes and
    has one. *)
Lemma parseAdvertisement_total_witness :
  exists out,
    SetFeature.parseAdvertisement [6; 3; 1; 65; 66; 0x80; 200; 67] = Done out.
Proof.
  refine (proj1 (parseAdvertisement_total [6; 3; 1; 65; 66; 0x80; 200; 67] _)).
  repeat constructor; lia.
Defined.

(** *** The records of an advertisement *)

Lemma at_index_app {A} (pre l : list A) (x : A) :
  at_index (pre ++ x :: l) (len pre) = Some x.
Proof.
  unfold at_index, len.
  replace (Z.of_nat (length pre) <? 0) with false
    by (symmetry; apply Z.ltb_ge; lia).
  rewrite Nat2Z.id. apply list_lookup_middle. reflexivity.
Qed.

Lemma slice_app {A} (pre v rest : list A) :
  slice (pre ++ v ++ rest) (len pre) (len pre + len v) = Some v.
Proof.
  unfold slice, len. rewrite !length_app.
  replace (0 <=? Z.of_nat (length pre)) with true
    by (symmetry; apply Z.leb_le; lia).
  replace (Z.of_nat (length pre) <=? Z.of_nat (length pre) + Z.of_nat (length v))
    with true by (symmetry; apply Z.leb_le; lia).
  replace (Z.of_nat (length pre) + Z.of_nat (length v)
           <=? Z.of_nat (length pre + (length v + length rest)))
    with true by (symmetry; apply Z.leb_le; lia).
  cbn [andb]. f_equal.
  rewrite Nat2Z.id, drop_app_length.
  replace (Z.to_nat (Z.of_nat (length pre) + Z.of_nat (length v)
                     - Z.of_nat (length pre))) with (length v) by lia.
  apply take_app_length.
Qed.

Lemma slice_tail {A} (x : A) (l : list A) :
  slice (x :: l) 1 (len (x :: l)) = Some l.
Proof.
  pose proof (slice_app [x] l []) as H. rewrite app_nil_r in H.
  cbn [app] in H. rewrite <- H. f_equal. unfold len. cbn [length]. lia.
Qed.

(** The body of the loop prints what the record means. *)
Lemma report_meaning (tag : Z) (value : list Z) :
  SetFeature.report tag (len value) value = Some (tlv_meaning (tag, value)).
Proof.
  unfold SetFeature.report, tlv_meaning.
  assert (Hlong : forall (c b : Z) (name : list Z),
            (1 <? len (c :: b :: name)) = true)
    by (intros; apply Z.ltb_lt; unfold len; cbn [length]; lia).
  assert (Hshort : forall l : list Z, (length l <= 1)%nat ->
            (1 <? len l) = false)
    by (intros l Hl; apply Z.ltb_ge; unfold len; lia).
  destruct (Z.eq_dec tag 6) as [-> | H6].
  { cbn [Z.eqb Pos.eqb]. destruct value as [| c [| b name]].
    - rewrite Hshort by (cbn; lia). reflexivity.
    - rewrite Hshort by (cbn; lia). reflexivity.
    - rewrite Hlong. cbn [at_index Z.ltb Z.compare Z.to_nat lookup list_lookup
                          mbind option_bind].
      rewrite slice_tail. reflexivity. }
  destruct (Z.eq_dec tag 7) as [-> | H7].
  { cbn [Z.eqb Pos.eqb]. destruct value as [| c [| b name]].
    - rewrite Hshort by (cbn; lia). reflexivity.
    - rewrite Hshort by (cbn; lia). reflexivity.
    - rewrite Hlong. cbn [at_index Z.ltb Z.compare Z.to_nat lookup list_lookup
                          mbind option_bind].
      rewrite slice_tail. reflexivity. }
  destruct (Z.eq_dec tag 0x80) as [-> | H80]; [reflexivity |].
  replace (tag =? 6) with false by (symmetry; apply Z.eqb_neq; exact H6).
  replace (tag =? 7) with false by (symmetry; apply Z.eqb_neq; exact H7).
  replace (tag =? 0x80) with false by (symmetry; apply Z.eqb_neq; exact H80).
  destruct tag as [| t | t]; try reflexivity.
  repeat (destruct t as [t | t |]; try reflexivity; try congruence).
Qed.

Lemma len_app {A} (l1 l2 : list A) : len (l1 ++ l2) = len l1 + len l2.
Proof. unfold len. rewrite length_app. lia. Qed.

Lemma len_encode_record (r : Z * list Z) :
  len (encode_record r) = 2 + len (snd r).
Proof. unfold encode_record, len. cbn [length]. lia. Qed.

Lemma len_nonneg {A} (l : list A) : 0 <= len l.
Proof. unfold len. lia. Qed.

(** Where the parts of a record are in the payload. *)
Lemma record_parts (pre rest : list Z) (tag : Z) (value : list Z) :
  let payload := pre ++ encode_record (tag, value) ++ rest in
  len payload = len pre + 2 + len value + len rest /\
  at_index payload (len pre) = Some tag /\
  at_index payload (len pre + 1) = Some (len value) /\
  slice payload (len pre + 2) (len pre + 2 + len value) = Some value.
Proof.
  intros payload. repeat split.
  - unfold payload. rewrite !len_app, len_encode_record. cbn [snd]. lia.
  - unfold payload, encode_record. cbn [fst snd app]. apply at_index_app.
  - replace payload with ((pre ++ [tag]) ++ len value :: value ++ rest)
      by (unfold payload, encode_record; rewrite <- app_assoc; reflexivity).
    replace (len pre + 1) with (len (pre ++ [tag]))
      by (rewrite len_app; reflexivity).
    apply at_index_app.
  - replace payload with ((pre ++ [tag; len value]) ++ value ++ rest)
      by (unfold payload, encode_record; rewrite <- !app_assoc; reflexivity).
    replace (len pre + 2) with (len (pre ++ [tag; len value]))
      by (rewrite len_app; reflexivity).
    apply slice_app.
Qed.

(** One iteration of the loop on a whole record that is followed by
    something, or has a value. *)
Lemma parseLoop_record (fuel : nat) (pre rest : list Z) (r : Z * list Z)
    (out : list Line) :
  0 < len (snd r) + len rest ->
  SetFeature.parseLoop (S fuel) (pre ++ encode_record r ++ rest) (len pre) out =
  SetFeature.parseLoop fuel (pre ++ encode_record r ++ rest)
    (len (pre ++ encode_record r)) (out ++ tlv_meaning r).
Proof.
  intros Hmore. destruct r as [tag value]. cbn [snd] in Hmore.
  pose proof (len_nonneg pre) as Hpre.
  pose proof (len_nonneg value) as Hvalue.
  pose proof (len_nonneg rest) as Hrest.
  destruct (record_parts pre rest tag value) as (Hlen & Htag & Hlength & Hval).
  rewrite len_app, len_encode_record. cbn [snd].
  set (payload := pre ++ encode_record (tag, value) ++ rest) in *.
  cbn [SetFeature.parseLoop]. rewrite Hlen, Htag, Hlength.
  replace (len pre <? len pre + 2 + len value + len rest - 2) with true
    by (symmetry; apply Z.ltb_lt; lia).
  replace (len pre + 2 + len value >? len pre + 2 + len value + len rest)
    with false by (symmetry; rewrite Z.gtb_ltb; apply Z.ltb_ge; lia).
  rewrite Hval, report_meaning.
  f_equal. lia.
Qed.

Lemma tlv_meaning_empty (tag : Z) :
  tag <> 0x80 -> tlv_meaning (tag, []) = [].
Proof.
  intros H80. unfold tlv_meaning.
  destruct tag as [| t | t]; try reflexivity.
  repeat (destruct t as [t | t |]; try reflexivity; try congruence).
Qed.

Lemma parseLoop_stops (fuel : nat) (payload : list Z) (i : Z)
    (out : list Line) :
  len payload - 2 <= i -> SetFeature.parseLoop fuel payload i out = Done out.
Proof.
  intros Hend.
  destruct fuel; cbn [SetFeature.parseLoop];
    replace (i <? len payload - 2) with false
      by (symmetry; apply Z.ltb_ge; lia);
    reflexivity.
Qed.

Lemma parseLoop_records (rs : list (Z * list Z)) :
  forall (fuel : nat) (pre : list Z) (out : list Line),
    (length rs <= fuel)%nat -> well_ended rs ->
    SetFeature.parseLoop fuel (pre ++ encode rs) (len pre) out =
      Done (out ++ concat (map tlv_meaning rs)).
Proof.
  induction rs as [| r rs IH]; intros fuel pre out Hfuel Hend.
  - cbn [map concat encode]. rewrite !app_nil_r.
    apply parseLoop_stops. lia.
  - destruct fuel as [| fuel]; [cbn in Hfuel; lia |].
    unfold encode. cbn [map concat]. fold (encode rs).
    destruct (Z.eq_dec (len (snd r) + len (encode rs)) 0) as [Hz | Hnz].
    + pose proof (len_nonneg (snd r)) as H1.
      pose proof (len_nonneg (encode rs)) as H2.
      assert (Hv : snd r = [])
        by (apply length_zero_iff_nil; unfold len in *; lia).
      assert (Hrs : rs = []).
      { destruct rs as [| r' rs']; [reflexivity |].
        unfold encode in H2, Hz. cbn [map concat] in H2, Hz.
        rewrite len_app, len_encode_record in Hz.
        pose proof (len_nonneg (snd r')). 
        pose proof (len_nonneg (concat (map encode_record rs'))). lia. }
      subst rs. destruct r as [tag value]. cbn [snd] in Hv. subst value.
      cbn [map concat encode app]. rewrite !app_nil_r.
      rewrite tlv_meaning_empty, app_nil_r.
      * apply parseLoop_stops. rewrite len_app, len_encode_record.
        cbn [snd]. unfold len. cbn [length]. lia.
      * intros ->. apply Hend. reflexivity.
    + rewrite parseLoop_record
        by (pose proof (len_nonneg (snd r)); pose proof (len_nonneg (encode rs));
            lia).
      rewrite app_assoc. rewrite IH.
      * cbn [map concat]. rewrite app_assoc. reflexivity.
      * cbn in Hfuel. lia.
      * unfold well_ended in *. destruct rs as [| r' rs'].
        -- cbn. discriminate.
        -- exact Hend.
Qed.

Lemma length_encode (rs : list (Z * list Z)) :
  (length rs <= length (encode rs))%nat.
Proof.
  induction rs as [| r rs IH]; [cbn; lia |].
  unfold encode in *. cbn [map concat length].
  rewrite length_app. unfold encode_record at 1. cbn [length]. lia.
Qed.

(** *** The tag loop of the channel-debug program *)

Lemma at_index_head_drop (l : list Z) (i : Z) :
  0 <= i < len l ->
  at_index l i = Some (default 0 (head (take 1 (drop (Z.to_nat i) l)))).
Proof.
  intros Hi. unfold at_index, len in *.
  replace (i <? 0) with false by (symmetry; apply Z.ltb_ge; lia).
  destruct (lookup_lt_is_Some_2 l (Z.to_nat i)) as [x Hx]; [lia |].
  rewrite Hx. rewrite <- (take_drop_middle l (Z.to_nat i) x Hx).
  rewrite drop_app_length'; [reflexivity |].
  rewrite length_take. apply lookup_lt_Some in Hx. lia.
Qed.

Lemma parseTags_record (fuel : nat) (advert : list Z) (advertLen : Z)
    (t : ChannelDebug.Tags) (tag length : Z) :
  0 <= ChannelDebug.cursor t -> ChannelDebug.cursor t + 1 < advertLen ->
  advertLen <= len advert ->
  at_index advert (ChannelDebug.cursor t) = Some tag ->
  at_index advert (ChannelDebug.cursor t + 1) = Some length ->
  0 <= length -> ChannelDebug.cursor t + 2 + length <= advertLen ->
  ChannelDebug.parseTags (S fuel) advert advertLen t =
  ChannelDebug.parseTags fuel advert advertLen (next_tags advert t tag length).
Proof.
  intros Hc Hin Hlen Htag Hlength Hpos Hfits.
  cbn [ChannelDebug.parseTags].
  replace (ChannelDebug.cursor t <? advertLen) with true
    by (symmetry; apply Z.ltb_lt; lia).
  replace (ChannelDebug.cursor t + 1 >=? advertLen) with false
    by (symmetry; rewrite Z.geb_leb; apply Z.leb_gt; lia).
  rewrite Htag, Hlength.
  replace (ChannelDebug.cursor t + 2 + length >? advertLen) with false
    by (symmetry; rewrite Z.gtb_ltb; apply Z.ltb_ge; lia).
  unfold next_tags.
  assert (Hslice : slice advert (ChannelDebug.cursor t + 2)
                     (ChannelDebug.cursor t + 2 + length)
                   = Some (take (Z.to_nat length)
                             (drop (Z.to_nat (ChannelDebug.cursor t + 2)) advert))).
  { unfold slice.
    replace (0 <=? ChannelDebug.cursor t + 2) with true
      by (symmetry; apply Z.leb_le; lia).
    replace (ChannelDebug.cursor t + 2 <=? ChannelDebug.cursor t + 2 + length)
      with true by (symmetry; apply Z.leb_le; lia).
    replace (ChannelDebug.cursor t + 2 + length <=? Z.of_nat (List.length advert))
      with true by (symmetry; apply Z.leb_le; unfold len in Hlen; lia).
    cbn [andb]. do 2 f_equal. lia. }
  destruct ((tag =? 4) && (length =? 1)) eqn:H4.
  - apply andb_true_iff in H4 as [H4 H1]. apply Z.eqb_eq in H4, H1. subst.
    rewrite at_index_head_drop by lia.
    cbn [mbind option_bind Z.eqb Pos.eqb andb]. rewrite app_nil_r.
    reflexivity.
  - cbn [mbind option_bind].
    destruct ((tag =? 8) && (0 <? length)
              && (0 <? ChannelDebug.currentChan t)) eqn:H8.
    + rewrite Hslice. cbn [mbind option_bind app]. reflexivity.
    + rewrite !app_nil_r. destruct t; reflexivity.
Qed.

(** C7 on the code.  [parseAdvertisement] of setfeature_test walks the
    payload as tag-length-value records: on the bytes of a list of records
    it prints, record after record, a normal-channel line for tag 6 and a
    wake-channel line for tag 7 (the value being the channel number and
    then the name), the version string for tag 0x80, and nothing for any
    other tag, each record being passed by its declared length; a list
    that ends in an empty version string is left aside, since the loop does
    not look at a last record with an empty value.  The tag loop of the
    channel-debug program does not do this.  One iteration on a record that
    fits does nothing but advance the cursor by 2 plus the declared length
    when the tag is neither 4 nor 8, so tags 6, 7 and 0x80 are skipped; and
    on the advertisement with the records (4, 03), (8, "A"), (6, 02 "B")
    and (0x80, "C") it takes tags 4 and 8 for a channel and its name, where
    [parseAdvertisement] reports channel 2 and the version. *)
Theorem advertisement_parsers :
  (forall rs : list (Z * list Z),
     last rs <> Some (0x80, []) ->
     SetFeature.parseAdvertisement (encode rs) =
       Done (concat (map tlv_meaning rs))) /\
  (forall (fuel : nat) (advert : list Z) (advertLen : Z)
          (t : ChannelDebug.Tags) (tag length : Z),
     0 <= ChannelDebug.cursor t -> ChannelDebug.cursor t + 1 < advertLen ->
     advertLen <= len advert ->
     at_index advert (ChannelDebug.cursor t) = Some tag ->
     at_index advert (ChannelDebug.cursor t + 1) = Some length ->
     0 <= length -> ChannelDebug.cursor t + 2 + length <= advertLen ->
     tag <> 4 -> tag <> 8 ->
     ChannelDebug.parseTags (S fuel) advert advertLen t =
       ChannelDebug.parseTags fuel advert advertLen
         {| ChannelDebug.cursor := ChannelDebug.cursor t + 2 + length;
            ChannelDebug.currentChan := ChannelDebug.currentChan t;
            ChannelDebug.channels := ChannelDebug.channels t;
            ChannelDebug.printed := ChannelDebug.printed t |}) /\
  (let records := [4; 1; 3; 8; 1; 65; 6; 2; 2; 66; 0x80; 1; 67] in
   let advert := [19; 0; 0; 0; 0] ++ records ++ [0] in
   let device := scripted [{| rsp_err := false; rsp_data := [19; 0; 0; 0] |};
                           {| rsp_err := false; rsp_data := advert |}] in
   prints (w_trace (snd (ChannelDebug.step2 (start device)))) =
     [PrNormalChannel 3; PrChannelName 3 [65]] /\
   option_map map_to_list (fst (ChannelDebug.step2 (start device))) =
     Some [([65], 3)] /\
   SetFeature.parseAdvertisement records =
     Done [PrChannel 2 [66]; PrVersion [67]]).
Proof.
  split; [| split].
  - intros rs Hend. unfold SetFeature.parseAdvertisement.
    exact (parseLoop_records rs (length (encode rs)) [] []
             (length_encode rs) Hend).
  - intros fuel advert advertLen t tag length Hc Hin Hlen Htag Hlength
           Hpos Hfits H4 H8.
    rewrite (parseTags_record fuel advert advertLen t tag length)
      by assumption.
    f_equal. unfold next_tags.
    replace (tag =? 4) with false by (symmetry; apply Z.eqb_neq; exact H4).
    replace (tag =? 8) with false by (symmetry; apply Z.eqb_neq; exact H8).
    cbn [andb]. rewrite !app_nil_r. reflexivity.
  - repeat split; vm_compute; reflexivity.
Qed.

(** The theorem on three records: a channel, a version, a tag of no
    interest. *)
Lemma advertisement_parsers_witness :
  SetFeature.parseAdvertisement
    [6; 3; 2; 67; 72; 0x80; 1; 49; 9; 2; 0; 0] =
    Done [PrChannel 2 [67; 72]; PrVersion [49]].
Proof.
  destruct advertisement_parsers as [Hparse _].
  refine (Hparse [(6, [2; 67; 72]); (0x80, [49]); (9, [0; 0])] _).
  cbn. discriminate.
Defined.

(** The two guards of [parseAdvertisement]: a record of tag 6 whose value
    is the channel number alone prints nothing, and a version string that
    is empty is printed unless it is the last record. *)
Example parseAdvertisement_guards :
  SetFeature.parseAdvertisement [6; 1; 3; 0x80; 1; 67] = Done [PrVersion [67]] /\
  SetFeature.parseAdvertisement [0x80; 0] = Done [] /\
  SetFeature.parseAdvertisement [0x80; 0; 9; 0] = Done [PrVersion []].
Proof. repeat split; vm_compute; reflexivity. Qed.

(** ** Fixed-point scaling *)

Lemma all_from_spec (d : nat) (lo : Z) (f : Z -> bool) :
  all_from d lo f = true ->
  forall x, lo <= x < lo + 2 ^ Z.of_nat d -> f x = true.
Proof.
  revert lo. induction d as [| d IH]; intros lo Hall x Hx.
  - cbn in Hx. replace x with lo by lia. exact Hall.
  - cbn [all_from] in Hall. apply andb_true_iff in Hall as [Hlow Hhigh].
    rewrite Nat2Z.inj_succ, Z.pow_succ_r in Hx by lia.
    destruct (Z_lt_ge_dec x (lo + 2 ^ Z.of_nat d)) as [Hlt | Hge].
    + apply (IH lo Hlow). lia.
    + apply (IH _ Hhigh). lia.
Qed.

Lemma exact_all :
  all_from 16 (-32768) (fun v => forallb (exact v) Decoder.qpoints) = true.
Proof. vm_cast_no_check (eq_refl true). Qed.

Lemma cond_Zopp_mul (s : bool) (a b : Z) :
  cond_Zopp s (a * b) = cond_Zopp s a * b.
Proof. destruct s; cbn; lia. Qed.

Lemma two_nonzero : ~ (2 == 0)%Q.
Proof. discriminate. Qed.

Lemma scaled_value (x : spec_float) (q z : Z) :
  scaled x q = Some z ->
  exists r, value x = Some r /\ (r == inject_Z z * Qpower 2 (- q))%Q.
Proof.
  destruct x as [s | s | | s m e]; cbn [scaled value]; try discriminate.
  - intros H. injection H as <-. exists 0%Q. split; [reflexivity |].
    rewrite Qmult_0_l. reflexivity.
  - destruct (0 <=? e + q) eqn:Hk.
    + apply Z.leb_le in Hk. rewrite Z.shiftl_mul_pow2 by lia.
      intros H. injection H as <-.
      eexists. split; [reflexivity |].
      rewrite cond_Zopp_mul, inject_Z_mult, Zpower_Qpower by lia.
      rewrite <- Qmult_assoc, <- Qpower_plus by apply two_nonzero.
      replace (e + q + - q) with e by lia. reflexivity.
    + apply Z.leb_gt in Hk.
      rewrite Z.land_ones, Z.shiftr_div_pow2 by lia.
      destruct (Z.pos m mod 2 ^ (- (e + q)) =? 0) eqn:Hm; [| discriminate].
      apply Z.eqb_eq in Hm. intros H. injection H as <-.
      eexists. split; [reflexivity |].
      assert (Hpos : 0 < 2 ^ (- (e + q))) by (apply Z.pow_pos_nonneg; lia).
      pose proof (Z.div_mod (Z.pos m) (2 ^ (- (e + q))) ltac:(lia)) as Hdm.
      rewrite Hm, Z.add_0_r, Z.mul_comm in Hdm.
      rewrite Hdm at 1.
      rewrite cond_Zopp_mul, inject_Z_mult, Zpower_Qpower by lia.
      rewrite <- Qmult_assoc, <- Qpower_plus by apply two_nonzero.
      replace (- (e + q) + e) with (- q) by lia. reflexivity.
Qed.

Lemma exact_value (v q : Z) :
  exact v q = true ->
  exists r, value (Decoder.qToFloat v q) = Some r /\
            (r == inject_Z v * Qpower 2 (- q))%Q.
Proof.
  unfold exact.
  destruct (scaled (Decoder.qToFloat v q) q) as [z |] eqn:Hs; [| discriminate].
  intros Hz. apply Z.eqb_eq in Hz. subst z.
  apply scaled_value. exact Hs.
Qed.

Lemma int16_range (lo hi : Z) :
  is_byte lo -> is_byte hi -> -32768 <= Decoder.int16 lo hi <= 32767.
Proof.
  unfold is_byte, Decoder.int16. intros Hlo Hhi.
  rewrite lor_bytes by assumption.
  destruct (lo + 256 * hi <? 32768) eqn:Hs;
    [apply Z.ltb_lt in Hs | apply Z.ltb_ge in Hs]; lia.
Qed.

(** C4, on the decoder as the spec describes it.  For each Q-point [q] of
    the spec and each raw signed 16-bit value [v], the decoded [float32] is
    finite and its value is exactly [v * 2^-q], so it is within one ulp of
    it; and a vector-3 report decodes to the three floats whose values are
    the three raw little-endian components times [2^-q]. *)
Theorem fixed_point_exact (q : Z) :
  In q Decoder.qpoints ->
  (forall v : Z, -32768 <= v <= 32767 ->
     exists r, value (Decoder.qToFloat v q) = Some r /\
               (r == inject_Z v * Qpower 2 (- q))%Q) /\
  (forall (id sq st dl x0 x1 y0 y1 z0 z1 : Z) (rest : list Z),
     is_byte x0 -> is_byte x1 -> is_byte y0 -> is_byte y1 ->
     is_byte z0 -> is_byte z1 ->
     exists (fx fy fz : float32) (rx ry rz : Q),
       Decoder.vector3
         (id :: sq :: st :: dl :: x0 :: x1 :: y0 :: y1 :: z0 :: z1 :: rest) q
         = Some (fx, fy, fz) /\
       value fx = Some rx /\ value fy = Some ry /\ value fz = Some rz /\
       (rx == inject_Z (Decoder.int16 x0 x1) * Qpower 2 (- q))%Q /\
       (ry == inject_Z (Decoder.int16 y0 y1) * Qpower 2 (- q))%Q /\
       (rz == inject_Z (Decoder.int16 z0 z1) * Qpower 2 (- q))%Q).
Proof.
  intros Hq.
  assert (Hexact : forall v : Z, -32768 <= v <= 32767 ->
            exists r, value (Decoder.qToFloat v q) = Some r /\
                      (r == inject_Z v * Qpower 2 (- q))%Q).
  { intros v Hv. apply exact_value.
    pose proof (all_from_spec 16 (-32768) _ exact_all v) as Hall.
    cbn beta in Hall. rewrite forallb_forall in Hall.
    apply Hall; [change (2 ^ Z.of_nat 16) with 65536; lia | exact Hq]. }
  split; [exact Hexact |].
  intros id sq st dl x0 x1 y0 y1 z0 z1 rest Hx0 Hx1 Hy0 Hy1 Hz0 Hz1.
  destruct (Hexact _ (int16_range x0 x1 Hx0 Hx1)) as (rx & Hrx & Hex).
  destruct (Hexact _ (int16_range y0 y1 Hy0 Hy1)) as (ry & Hry & Hey).
  destruct (Hexact _ (int16_range z0 z1 Hz0 Hz1)) as (rz & Hrz & Hez).
  eexists _, _, _, rx, ry, rz. cbn [Decoder.vector3].
  repeat split; eassumption.
Qed.

(** The accelerometer report 01 00 03 00 00 08 00 00 00 10 at Q8 is
    (8.0, 0.0, 16.0). *)
Lemma fixed_point_exact_witness :
  Decoder.vector3 [0x01; 0x00; 0x03; 0x00; 0x00; 0x08; 0x00; 0x00; 0x00; 0x10] 8
    = Some (f32 8 0, f32 0 0, f32 16 0) /\
  exists r, value (Decoder.qToFloat 2048 8) = Some r /\
            (r == inject_Z 2048 * Qpower 2 (- 8))%Q.
Proof.
  split; [reflexivity |].
  refine (proj1 (fixed_point_exact 8 _) 2048 _); [cbn; tauto | lia].
Defined.

(** ** The three copies of [quaternionToEuler] *)

(** C9.  Whatever [math.Atan2] and [math.Asin] compute, the copies of
    [quaternionToEuler] in gopherclaw, in the NeoPixel demo and in the
    Euler-angle demo return the same three angles on every quaternion.
    With [sinp = 2 * (q.Real*q.J - q.K*q.I)] as the code computes it in
    [float32], the pitch is [math.Pi / 2] with the sign of [sinp], rounded
    to [float32], when [|sinp| >= 1], and the rounded arc sine of [sinp]
    when not (a NaN included). *)
Theorem quaternionToEuler_copies `{Math} (q : Quaternion) :
  NeoPixel.quaternionToEuler q = Gopherclaw.quaternionToEuler q /\
  EulerAngles.quaternionToEuler q = Gopherclaw.quaternionToEuler q /\
  let sinp := mul32 (f32 2 0) (sub32 (mul32 (Real q) (J q))
                                     (mul32 (K q) (I q))) in
  let pitch := snd (fst (Gopherclaw.quaternionToEuler q)) in
  (geb (Abs (to64 sinp)) (f64 1 0) = true ->
   pitch = to32 (Copysign half_pi (to64 sinp)) /\
   (pitch = to32 half_pi \/ pitch = to32 (SFopp half_pi))) /\
  (geb (Abs (to64 sinp)) (f64 1 0) = false ->
   pitch = to32 (Asin (to64 sinp))).
Proof.
  split; [reflexivity | split; [reflexivity |]].
  intros sinp pitch. unfold pitch, Gopherclaw.quaternionToEuler.
  cbn [fst snd]. fold sinp.
  destruct (geb (Abs (to64 sinp)) (f64 1 0)); split; try discriminate.
  - intros _. split; [reflexivity |].
    unfold Copysign. destruct (Bool.eqb _ _); [left | right]; reflexivity.
  - intros _. reflexivity.
Qed.

(** The theorem on the quaternion (Real, I, J, K) = (1, 0, 1, 0), where
    [sinp] is 2: the pitch is the [float32] nearest to pi / 2. *)
Lemma quaternionToEuler_copies_witness :
  let math := {| Atan2 := fun y x => y; Asin := fun x => x |} in
  let q := {| Real := f32 1 0; I := f32 0 0; J := f32 1 0; K := f32 0 0 |} in
  snd (fst (@NeoPixel.quaternionToEuler math q)) =
    S754_finite false 13176795 (-23) /\
  snd (fst (@EulerAngles.quaternionToEuler math q)) =
    S754_finite false 13176795 (-23).
Proof.
  intros math q.
  destruct (@quaternionToEuler_copies math q) as (-> & -> & Hclamp & _).
  destruct (Hclamp eq_refl) as [-> _]. split; reflexivity.
Defined.

(** ** Decimal output *)

Lemma read_digits_snoc (acc d : Z) (s : list Z) :
  read_digits acc (s ++ [d]) =
    match read_digits acc s, digit_value d with
    | Some v, Some dv => Some (v * 10 + dv)
    | _, _ => None
    end.
Proof.
  revert acc. induction s as [| c s IH]; intros acc; cbn [app read_digits].
  - destruct (digit_value d); reflexivity.
  - destruct (digit_value c); [apply IH | reflexivity].
Qed.

Lemma digit_value_of (d : Z) :
  0 <= d < 10 -> digit_value (uint8 (48 + d)) = Some d.
Proof.
  intros Hd. unfold uint8, digit_value.
  rewrite Z.mod_small by lia.
  replace (48 <=? 48 + d) with true by (symmetry; apply Z.leb_le; lia).
  replace (48 + d <=? 57) with true by (symmetry; apply Z.leb_le; lia).
  cbn. f_equal. lia.
Qed.

Lemma set_index_in {A} (l : list A) (i : nat) (x : A) :
  (i < length l)%nat -> set_index l (Z.of_nat i) x = Some (<[i := x]> l).
Proof.
  intros Hi. unfold set_index.
  replace (0 <=? Z.of_nat i) with true by (symmetry; apply Z.leb_le; lia).
  replace (Z.of_nat i <? Z.of_nat (length l)) with true
    by (symmetry; apply Z.ltb_lt; lia).
  cbn. rewrite Nat2Z.id. reflexivity.
Qed.

(** The loop on a number of at most [k] digits, with [k] free places
    below index [k]. *)
Lemma itoaLoop_digits (k : nat) :
  forall (fuel : nat) (buf : list Z) (n : Z),
    length buf = 10%nat -> (k <= 10)%nat -> 0 <= n < 10 ^ Z.of_nat k ->
    (k < fuel)%nat ->
    exists (buf' : list Z) (j : nat),
      (j <= k)%nat /\
      NeoPixel.itoaLoop fuel buf (Z.of_nat k - 1) n = Done (buf', Z.of_nat j - 1) /\
      length buf' = 10%nat /\
      drop k buf' = drop k buf /\
      read_digits 0 (take (k - j) (drop j buf')) = Some n /\
      (n = 0 -> j = k) /\
      (0 < n -> (j < k)%nat /\ buf' !! j <> Some 48).
Proof.
  induction k as [| k IH]; intros fuel buf n Hlen Hk Hn Hfuel.
  - cbn in Hn. assert (n = 0) by lia. subst n.
    exists buf, O. destruct fuel; cbn; repeat split; try lia; reflexivity.
  - destruct fuel as [| fuel]; [lia |].
    destruct (Z.eq_dec n 0) as [-> | Hnz].
    + exists buf, (S k). cbn [NeoPixel.itoaLoop Z.ltb Z.compare].
      rewrite Nat.sub_diag. repeat split; try lia; reflexivity.
    + assert (Hpos : 0 < n) by lia.
      cbn [NeoPixel.itoaLoop].
      replace (0 <? n) with true by (symmetry; apply Z.ltb_lt; lia).
      rewrite Z.rem_mod_nonneg, Z.quot_div_nonneg by lia.
      replace (Z.of_nat (S k) - 1) with (Z.of_nat k) by lia.
      rewrite set_index_in by lia.
      set (d := uint8 (48 + n mod 10)).
      assert (Hq : 0 <= n / 10 < 10 ^ Z.of_nat k).
      { rewrite Nat2Z.inj_succ, Z.pow_succ_r in Hn by lia.
        split; [apply Z.div_pos; lia | apply Z.div_lt_upper_bound; lia]. }
      destruct (IH fuel (<[k := d]> buf) (n / 10))
        as (buf' & j & Hj & Hrun & Hlen' & Hdrop & Hread & Hzero & Hlead);
        [rewrite length_insert; exact Hlen | lia | exact Hq | lia |].
      exists buf', j. rewrite Hrun.
      assert (Hk' : buf' !! k = Some d).
      { rewrite <- (Nat.add_0_r k), <- lookup_drop, Hdrop, lookup_drop.
        rewrite Nat.add_0_r. apply list_lookup_insert_eq. lia. }
      assert (Hsplit : take (S k - j) (drop j buf')
                       = take (k - j) (drop j buf') ++ [d]).
      { replace (S k - j)%nat with (S (k - j)) by lia.
        rewrite (take_S_r _ _ d); [reflexivity |].
        rewrite lookup_drop. replace (j + (k - j))%nat with k by lia.
        exact Hk'. }
      repeat split; try lia.
      * replace (drop (S k) buf') with (drop 1 (drop k buf'))
          by (rewrite drop_drop; f_equal; lia).
        rewrite Hdrop, drop_drop.
        replace (k + 1)%nat with (S k) by lia.
        rewrite drop_insert_lt by lia. reflexivity.
      * rewrite Hsplit, read_digits_snoc, Hread. unfold d.
        rewrite digit_value_of by (apply Z.mod_pos_bound; lia).
        f_equal. pose proof (Z.div_mod n 10 ltac:(lia)). lia.
      * destruct (Z.eq_dec (n / 10) 0) as [Hz | Hnz'].
        -- rewrite (Hzero Hz), Hk'. unfold d, uint8.
           pose proof (Z.div_mod n 10 ltac:(lia)) as Hdm.
           pose proof (Z.mod_pos_bound n 10 ltac:(lia)) as Hm.
           rewrite Z.mod_small by lia. intros Heq. injection Heq as Heq. lia.
        -- apply Hlead. lia.
Qed.


Lemma int_wrap_small (bits z : Z) :
  0 < bits -> - 2 ^ (bits - 1) <= z < 2 ^ (bits - 1) -> int_wrap bits z = z.
Proof.
  intros Hb Hz. unfold int_wrap.
  assert (H2 : 2 ^ bits = 2 * 2 ^ (bits - 1))
    by (rewrite <- Z.pow_succ_r by lia; f_equal; lia).
  rewrite Z.mod_small by lia. lia.
Qed.


Lemma slice_drop {A} (l : list A) (j : nat) :
  (j <= length l)%nat -> slice l (Z.of_nat j - 1 + 1) (len l) = Some (drop j l).
Proof.
  intros Hj. unfold slice, len.
  replace (Z.of_nat j - 1 + 1) with (Z.of_nat j) by lia.
  replace (0 <=? Z.of_nat j) with true by (symmetry; apply Z.leb_le; lia).
  replace (Z.of_nat j <=? Z.of_nat (length l)) with true
    by (symmetry; apply Z.leb_le; lia).
  rewrite Z.leb_refl. cbn [andb]. rewrite Nat2Z.id. f_equal.
  apply take_ge. rewrite length_drop. lia.
Qed.

(** [itoa] on a positive number of at most ten digits. *)
Lemma itoa_positive (bits n : Z) :
  0 < n < 10 ^ 10 ->
  exists s, NeoPixel.itoa bits n = Done s /\ read_nat s = Some n /\
            (1 <= length s <= 10)%nat /\ s !! 0%nat <> Some 48 /\
            s !! 0%nat <> Some 45.
Proof.
  intros Hn. unfold NeoPixel.itoa.
  replace (n =? 0) with false by (symmetry; apply Z.eqb_neq; lia).
  replace (n <? 0) with false by (symmetry; apply Z.ltb_ge; lia).
  destruct (itoaLoop_digits 10 11 (replicate 10 0) n)
    as (buf' & j & Hj & Hrun & Hlen' & _ & Hread & _ & Hlead);
    [reflexivity | lia | change (Z.of_nat 10) with 10; lia | lia |].
  destruct (Hlead ltac:(lia)) as [Hlt Hnz].
  change (len (replicate 10 0) - 1) with (Z.of_nat 10 - 1).
  rewrite Hrun, slice_drop by lia.
  rewrite take_ge in Hread by (rewrite length_drop; lia).
  exists (drop j buf'). split; [reflexivity |].
  assert (Hhead : (drop j buf') !! 0%nat = buf' !! j)
    by (rewrite lookup_drop; f_equal; lia).
  assert (Hlen : length (drop j buf') = (10 - j)%nat)
    by (rewrite length_drop; lia).
  repeat split; try lia.
  - unfold read_nat. destruct (drop j buf') as [| c r] eqn:Hd;
      [cbn in Hlen; lia | exact Hread].
  - rewrite Hhead. exact Hnz.
  - rewrite Hhead. intros H45.
    destruct (drop j buf') as [| c r] eqn:Hd; [cbn in Hlen; lia |].
    cbn in Hhead. rewrite H45 in Hhead. injection Hhead as ->.
    cbn in Hread. discriminate.
Qed.

Lemma itoa_negative (bits n : Z) :
  0 < bits -> - 2 ^ (bits - 1) < n -> - 10 ^ 10 < n < 0 ->
  exists ds, NeoPixel.itoa bits n = Done (45 :: ds) /\
             read_nat ds = Some (- n) /\ (1 <= length ds <= 10)%nat /\
             ds !! 0%nat <> Some 48.
Proof.
  intros Hb Hmin Hn.
  assert (Hp : 0 < 2 ^ (bits - 1)) by (apply Z.pow_pos_nonneg; lia).
  destruct (itoa_positive bits (- n)) as (s & Hrun & Hread & Hlen & Hz & _);
    [lia |].
  exists s. split; [| auto].
  unfold NeoPixel.itoa in *.
  replace (n =? 0) with false by (symmetry; apply Z.eqb_neq; lia).
  replace (- n =? 0) with false in Hrun by (symmetry; apply Z.eqb_neq; lia).
  replace (n <? 0) with true by (symmetry; apply Z.ltb_lt; lia).
  replace (- n <? 0) with false in Hrun by (symmetry; apply Z.ltb_ge; lia).
  cbv zeta in *. rewrite int_wrap_small by lia.
  destruct (NeoPixel.itoaLoop _ _ _ _) as [[buf i] | |]; try discriminate.
  destruct (slice _ _ _); [| discriminate].
  injection Hrun as ->. reflexivity.
Qed.

Lemma read_nat_not_minus (s : list Z) (v : Z) :
  read_nat s = Some v -> s !! 0%nat <> Some 45.
Proof.
  destruct s as [| c r]; [discriminate |].
  cbn. intros H [= ->]. cbn in H. discriminate.
Qed.

Lemma read_int_nat (s : list Z) (v : Z) :
  read_nat s = Some v -> read_int s = Some v.
Proof.
  intros H. pose proof (read_nat_not_minus _ _ H) as Hm.
  destruct s as [| c r]; [discriminate |].
  unfold read_int.
  destruct (Z.eq_dec c 45) as [-> | Hc]; [contradiction Hm; reflexivity |].
  destruct c as [| [p | p |] |]; try exact H;
    repeat (destruct p as [p | p |]; try exact H). congruence.
Qed.

(** X1.  [itoa] writes the decimal digits of [n]: for a number of at most
    ten digits that is not the least [int], both copies return the same
    string, of at most eleven bytes; it reads back as [n], it has a
    minus sign exactly when [n] is negative, and no leading zero. *)
Theorem itoa_reads_back (bits n : Z) :
  0 < bits -> - 2 ^ (bits - 1) < n < 2 ^ (bits - 1) ->
  - 10 ^ 10 < n < 10 ^ 10 ->
  exists s,
    NeoPixel.itoa bits n = Done s /\ SensorTest.itoa bits n = Done s /\
    read_int s = Some n /\ (1 <= length s <= 11)%nat /\
    (s !! 0%nat = Some 45 <-> n < 0) /\
    (n <> 0 -> s !! (if n <? 0 then 1%nat else 0%nat) <> Some 48).
Proof.
  intros Hb Hrange Hn. change SensorTest.itoa with NeoPixel.itoa.
  destruct (Z.lt_trichotomy n 0) as [Hneg | [-> | Hpos]].
  - destruct (itoa_negative bits n) as (ds & Hrun & Hread & Hlen & Hz);
      [lia .. |].
    exists (45 :: ds). repeat split; auto; cbn [length]; try lia.
    + change (read_int (45 :: ds)) with (option_map Z.opp (read_nat ds)).
      rewrite Hread. cbn. f_equal. lia.
    + replace (n <? 0) with true by (symmetry; apply Z.ltb_lt; lia).
      intros _. exact Hz.
  - exists [48]. repeat split; cbn; try lia; try discriminate.
  - destruct (itoa_positive bits n) as (s & Hrun & Hread & Hlen & Hz & Hm);
      [lia |].
    exists s. repeat split; auto; try lia.
    + apply read_int_nat, Hread.
    + intros H. contradiction.
    + replace (n <? 0) with false by (symmetry; apply Z.ltb_ge; lia).
      intros _. exact Hz.
Qed.

Lemma itoa_reads_back_witness :
  exists s,
    NeoPixel.itoa 32 (-2147483647) = Done s /\
    SensorTest.itoa 32 (-2147483647) = Done s /\
    read_int s = Some (-2147483647) /\ (1 <= length s <= 11)%nat /\
    (s !! 0%nat = Some 45 <-> -2147483647 < 0) /\
    (-2147483647 <> 0 ->
     s !! (if -2147483647 <? 0 then 1%nat else 0%nat) <> Some 48).
Proof.
  apply (itoa_reads_back 32 (-2147483647)); cbn; lia.
Defined.



Lemma read_fixed_plain (k : nat) (w d : list Z) (a b : Z) :
  read_nat w = Some a -> read_nat d = Some b -> length d = k ->
  read_fixed k (w ++ [46] ++ d) = Some (a * 10 ^ Z.of_nat k + b).
Proof.
  intros Hw Hd Hk. pose proof (read_nat_not_minus _ _ Hw) as Hm.
  assert (Hbody : read_fixed k (w ++ [46] ++ d) =
                  let body := w ++ [46] ++ d in
                  let n := length body in
                  if (n <=? k)%nat then None
                  else
                    match body !! (n - k - 1)%nat with
                    | Some 46 =>
                        match read_nat (take (n - k - 1) body),
                              read_nat (drop (n - k) body) with
                        | Some a, Some b => Some (a * 10 ^ Z.of_nat k + b)
                        | _, _ => None
                        end
                    | _ => None
                    end).
  { destruct w as [| c r]; [discriminate |].
    destruct (Z.eq_dec c 45) as [-> | Hc]; [contradiction Hm; reflexivity |].
    unfold read_fixed. cbn [app].
    destruct c as [| [p | p |] |]; try reflexivity;
      repeat (destruct p as [p | p |]; try reflexivity). congruence. }
  rewrite Hbody. cbv zeta.
  rewrite !length_app. cbn [length]. rewrite Hk.
  replace (length w + (1 + k) <=? k)%nat with false
    by (symmetry; apply Nat.leb_gt; lia).
  replace (length w + (1 + k) - k - 1)%nat with (length w) by lia.
  replace (length w + (1 + k) - k)%nat with (length w + 1)%nat by lia.
  rewrite lookup_app_r, Nat.sub_diag by lia. cbn [lookup list_lookup app].
  rewrite take_app_length.
  replace (w ++ 46 :: d) with ((w ++ [46]) ++ d) by (rewrite <- app_assoc; reflexivity).
  rewrite drop_app_length' by (rewrite length_app; cbn; lia).
  rewrite Hw, Hd. reflexivity.
Qed.

Lemma read_fixed_minus (k : nat) (w d : list Z) (a b : Z) :
  read_nat w = Some a -> read_nat d = Some b -> length d = k ->
  read_fixed k (45 :: w ++ [46] ++ d) = Some (- (a * 10 ^ Z.of_nat k + b)).
Proof.
  intros Hw Hd Hk.
  pose proof (read_fixed_plain k w d a b Hw Hd Hk) as Hplain.
  pose proof (read_nat_not_minus _ _ Hw) as Hm.
  unfold read_fixed. cbv zeta.
  rewrite !length_app. cbn [length]. rewrite Hk.
  replace (length w + (1 + k) <=? k)%nat with false
    by (symmetry; apply Nat.leb_gt; lia).
  replace (length w + (1 + k) - k - 1)%nat with (length w) by lia.
  replace (length w + (1 + k) - k)%nat with (length w + 1)%nat by lia.
  rewrite lookup_app_r, Nat.sub_diag by lia. cbn [lookup list_lookup app].
  rewrite take_app_length.
  replace (w ++ 46 :: d) with ((w ++ [46]) ++ d) by (rewrite <- app_assoc; reflexivity).
  rewrite drop_app_length' by (rewrite length_app; cbn; lia).
  rewrite Hw, Hd. reflexivity.
Qed.

Lemma itoa2_reads (n : Z) :
  0 <= n ->
  read_nat (NeoPixel.itoa2 n) = Some (Z.min n 99) /\
  length (NeoPixel.itoa2 n) = 2%nat.
Proof.
  intros Hn. split; [| reflexivity].
  unfold NeoPixel.itoa2. cbv zeta.
  set (m := if 100 <=? n then 99 else n).
  assert (Hm : 0 <= m < 100 /\ m = Z.min n 99)
    by (subst m; destruct (Z.leb_spec 100 n); lia).
  destruct Hm as [Hm <-].
  rewrite Z.rem_mod_nonneg, Z.quot_div_nonneg by lia.
  unfold read_nat. cbn [read_digits].
  rewrite !digit_value_of;
    [| apply Z.mod_pos_bound; lia
     | split; [apply Z.div_pos; lia | apply Z.div_lt_upper_bound; lia]].
  f_equal. pose proof (Z.div_mod m 10). lia.
Qed.

Lemma itoa3_reads (n : Z) :
  0 <= n ->
  read_nat (SensorTest.itoa3 n) = Some (Z.min n 999) /\
  length (SensorTest.itoa3 n) = 3%nat.
Proof.
  intros Hn. split; [| reflexivity].
  unfold SensorTest.itoa3. cbv zeta.
  set (m := if 1000 <=? n then 999 else n).
  assert (Hm : 0 <= m < 1000 /\ m = Z.min n 999)
    by (subst m; destruct (Z.leb_spec 1000 n); lia).
  destruct Hm as [Hm <-].
  assert (H10 : 0 <= m / 10 < 100)
    by (split; [apply Z.div_pos; lia | apply Z.div_lt_upper_bound; lia]).
  rewrite !Z.quot_div_nonneg by lia.
  rewrite !Z.rem_mod_nonneg by lia.
  unfold read_nat. cbn [read_digits].
  rewrite !digit_value_of;
    [| apply Z.mod_pos_bound; lia | apply Z.mod_pos_bound; lia
     | split; [apply Z.div_pos; lia | apply Z.div_lt_upper_bound; lia]].
  f_equal. pose proof (Z.div_mod m 10). pose proof (Z.div_mod (m / 10) 10).
  assert (m / 100 = m / 10 / 10) by (rewrite Z.div_div by lia; reflexivity).
  lia.
Qed.

Lemma to_int32_range (x : spec_float) (v : Z) :
  to_int32 x = Some v -> - 2 ^ 31 <= v < 2 ^ 31.
Proof.
  destruct x as [s | s | | s m e]; cbn; try discriminate.
  - intros [= <-]. lia.
  - destruct (andb _ _) eqn:H; [| discriminate].
    intros [= <-]. apply andb_true_iff in H. lia.
Qed.

(** The string that [formatFloat] builds from [val], with [k] digits
    after the point written by [frac_digits]. *)
Lemma fixed_reads_back (bits : Z) (k : nat) (val : Z)
    (frac_digits : Z -> list Z) :
  31 < bits -> - 2 ^ 31 <= val < 2 ^ 31 -> (1 <= k)%nat ->
  (forall n, 0 <= n < 10 ^ Z.of_nat k ->
             read_nat (frac_digits n) = Some n /\ length (frac_digits n) = k) ->
  let base := 10 ^ Z.of_nat k in
  let whole := Z.quot val base in
  let frac := Z.rem val base in
  let frac := if frac <? 0 then - frac else frac in
  let sign := if (val <? 0) && (whole =? 0) then [45] else [] in
  exists w, NeoPixel.itoa bits whole = Done w /\
            read_fixed k (sign ++ w ++ [46] ++ frac_digits frac) = Some val.
Proof.
  intros Hb Hval Hk Hfrac base whole frac0 frac sign.
  assert (Hbase : 10 <= base).
  { subst base. change 10 with (10 ^ 1) at 1.
    apply Z.pow_le_mono_r; lia. }
  assert (Hbits : 2 ^ 31 <= 2 ^ (bits - 1)) by (apply Z.pow_le_mono_r; lia).
  pose proof (Z.quot_rem' val base) as Hqr. fold whole frac0 in Hqr.
  destruct (Z.lt_trichotomy val 0) as [Hneg | [Hzero | Hpos]].
  - assert (Hr := Z.rem_bound_pos_neg val base). specialize (Hr ltac:(lia) ltac:(lia)).
    fold frac0 in Hr.
    assert (Hw : - 2 ^ 31 < whole <= 0).
    { subst whole. rewrite <- (Z.opp_involutive val), Z.quot_opp_l by lia.
      rewrite Z.quot_div_nonneg by lia.
      assert (0 <= - val / base) by (apply Z.div_pos; lia).
      assert (- val / base < 2 ^ 31) by (apply Z.div_lt_upper_bound; lia).
      lia. }
    assert (Hf : frac = - frac0 /\ 0 <= frac < base)
      by (subst frac; destruct (Z.ltb_spec frac0 0); lia).
    destruct Hf as [Hf Hfr].
    destruct (Hfrac frac Hfr) as [Hfd Hfl].
    assert (Hlt : (val <? 0) = true) by (apply Z.ltb_lt; lia).
    subst sign. rewrite Hlt.
    destruct (Z.eq_dec whole 0) as [Hw0 | Hw0].
    + rewrite Hw0. cbn [Z.eqb andb NeoPixel.itoa].
      exists [48]. split; [reflexivity |].
      change ([45] ++ [48] ++ [46] ++ frac_digits frac)
        with (45 :: [48] ++ [46] ++ frac_digits frac).
      rewrite (read_fixed_minus k [48] _ 0 frac); auto.
      f_equal. lia.
    + replace (whole =? 0) with false by (symmetry; apply Z.eqb_neq; lia).
      cbn [andb].
      destruct (itoa_negative bits whole) as (ds & Hrun & Hread & _);
        [lia | lia | lia |].
      exists (45 :: ds). split; [exact Hrun |]. rewrite app_nil_l.
      change ((45 :: ds) ++ [46] ++ frac_digits frac)
        with (45 :: ds ++ [46] ++ frac_digits frac).
      rewrite (read_fixed_minus k ds _ (- whole) frac); auto.
      f_equal. lia.
  - assert (Hlt : (val <? 0) = false) by (apply Z.ltb_ge; lia).
    assert (Hw0 : whole = 0)
      by (subst whole; rewrite Hzero; apply Z.quot_0_l; lia).
    assert (Hf0 : frac = 0)
      by (subst frac frac0; rewrite Hzero, Z.rem_0_l by lia; reflexivity).
    subst sign. rewrite Hlt, Hw0, Hf0. cbn [andb].
    exists [48]. split; [reflexivity |]. rewrite app_nil_l.
    destruct (Hfrac 0 ltac:(lia)) as [Hfd Hfl].
    rewrite (read_fixed_plain k [48] _ 0 0); auto. f_equal. lia.
  - assert (Hr := Z.rem_bound_pos_pos val base). specialize (Hr ltac:(lia) ltac:(lia)).
    fold frac0 in Hr.
    assert (Hw : 0 <= whole < 2 ^ 31).
    { subst whole. rewrite Z.quot_div_nonneg by lia.
      split; [apply Z.div_pos; lia | apply Z.div_lt_upper_bound; lia]. }
    assert (Hf : frac = frac0 /\ 0 <= frac < base)
      by (subst frac; destruct (Z.ltb_spec frac0 0); lia).
    destruct Hf as [Hf Hfr].
    destruct (Hfrac frac Hfr) as [Hfd Hfl].
    assert (Hlt : (val <? 0) = false) by (apply Z.ltb_ge; lia).
    subst sign. rewrite Hlt. cbn [andb].
    destruct (Z.eq_dec whole 0) as [Hw0 | Hw0].
    + rewrite Hw0. exists [48]. split; [reflexivity |]. rewrite app_nil_l.
      rewrite (read_fixed_plain k [48] _ 0 frac); auto. f_equal. lia.
    + destruct (itoa_positive bits whole) as (s & Hrun & Hread & _); [lia |].
      exists s. split; [exact Hrun |]. rewrite app_nil_l.
      rewrite (read_fixed_plain k s _ whole frac); auto. f_equal. lia.
Qed.

(** X3.  [formatFloat] of the NeoPixel demo prints [int32(f * 100)] with
    two decimals: whenever the conversion to [int32] is defined, the
    call returns a string that reads back as that integer, sign
    included (also between -1 and 0, where [whole] is 0), and [itoa]
    stays inside its buffer. *)
Theorem formatFloat_reads_back (bits : Z) (f : float32) (val : Z) :
  31 < bits -> to_int32 (mul32 f (f32 100 0)) = Some val ->
  exists s, NeoPixel.formatFloat bits f = Some (Done s) /\
            read_fixed 2 s = Some val.
Proof.
  intros Hb Hval. unfold NeoPixel.formatFloat. rewrite Hval.
  destruct (fixed_reads_back bits 2 val NeoPixel.itoa2 Hb
              (to_int32_range _ _ Hval) ltac:(lia)) as (w & Hrun & Hread).
  { intros n Hn. change (10 ^ Z.of_nat 2) with 100 in Hn.
    destruct (itoa2_reads n ltac:(lia)) as [Hr Hl].
    rewrite Hr. split; [f_equal; lia | exact Hl]. }
  change (10 ^ Z.of_nat 2) with 100 in *. cbv zeta in Hrun, Hread |- *.
  rewrite Hrun. eexists. split; [reflexivity | exact Hread].
Qed.

Lemma formatFloat_reads_back_witness :
  exists s, NeoPixel.formatFloat 32 (f32 (-1) (-4)) = Some (Done s) /\
            read_fixed 2 s = Some (-6).
Proof.
  apply (formatFloat_reads_back 32 (f32 (-1) (-4)) (-6)); [lia |].
  vm_compute. reflexivity.
Defined.

(** X4.  [formatFloat] of the sensor test prints [int32(f * 1000)] with
    three decimals, in the same way. *)
Theorem formatFloat_millis_reads_back (bits : Z) (f : float32) (val : Z) :
  31 < bits -> to_int32 (mul32 f (f32 1000 0)) = Some val ->
  exists s, SensorTest.formatFloat bits f = Some (Done s) /\
            read_fixed 3 s = Some val.
Proof.
  intros Hb Hval. unfold SensorTest.formatFloat. rewrite Hval.
  destruct (fixed_reads_back bits 3 val SensorTest.itoa3 Hb
              (to_int32_range _ _ Hval) ltac:(lia)) as (w & Hrun & Hread).
  { intros n Hn. change (10 ^ Z.of_nat 3) with 1000 in Hn.
    destruct (itoa3_reads n ltac:(lia)) as [Hr Hl].
    rewrite Hr. split; [f_equal; lia | exact Hl]. }
  change (10 ^ Z.of_nat 3) with 1000 in *. cbv zeta in Hrun, Hread |- *.
  change SensorTest.itoa with NeoPixel.itoa.
  rewrite Hrun. eexists. split; [reflexivity | exact Hread].
Qed.

Lemma formatFloat_millis_reads_back_witness :
  exists s, SensorTest.formatFloat 32 (f32 (-1) (-4)) = Some (Done s) /\
            read_fixed 3 s = Some (-62).
Proof.
  apply (formatFloat_millis_reads_back 32 (f32 (-1) (-4)) (-62)); [lia |].
  vm_compute. reflexivity.
Defined.

(** ** Hexadecimal output and change detection *)

Lemma hex_all : all_from 8 0 hex_reads_back = true.
Proof. vm_compute. reflexivity. Qed.

(** X5.  [formatHex] writes a byte as two upper-case hexadecimal digits,
    the high one first; neither index into the digit string is out of
    range, and both copies of the function agree. *)
Theorem formatHex_reads_back (b : Z) :
  0 <= b < 256 ->
  exists hi lo h l,
    SensorTest.formatHex b = Some [hi; lo] /\
    Diagnostic.formatHex b = Some [hi; lo] /\
    hex_value hi = Some h /\ hex_value lo = Some l /\
    b = 16 * h + l /\ 0 <= h < 16 /\ 0 <= l < 16.
Proof.
  intros Hb.
  pose proof (all_from_spec 8 0 _ hex_all b ltac:(cbn; lia)) as Hall.
  unfold hex_reads_back in Hall.
  destruct (SensorTest.formatHex b) as [[| hi [| lo [| ? ?]]] |];
    try discriminate.
  destruct (Diagnostic.formatHex b) as [[| hi' [| lo' [| ? ?]]] |];
    try discriminate.
  destruct (hex_value hi) as [h |] eqn:Hh;
    [| rewrite andb_false_r in Hall; discriminate].
  destruct (hex_value lo) as [l |] eqn:Hl;
    [| rewrite andb_false_r in Hall; discriminate].
  apply andb_true_iff in Hall as [Heq Hval].
  apply andb_true_iff in Heq as [Hhi Hlo].
  apply Z.eqb_eq in Hhi, Hlo, Hval. subst hi' lo'.
  exists hi, lo, h, l. repeat split; auto; try lia;
    unfold hex_value in Hh, Hl;
    repeat match goal with
           | H : (if ?c then _ else _) = Some _ |- _ =>
               destruct c eqn:?; [| try discriminate]
           end;
    repeat match goal with
           | H : Some _ = Some _ |- _ => injection H as H
           | H : (_ && _) = true |- _ => apply andb_true_iff in H as [? ?]
           end; lia.
Qed.

Lemma formatHex_reads_back_witness :
  exists hi lo h l,
    SensorTest.formatHex 0x4A = Some [hi; lo] /\
    Diagnostic.formatHex 0x4A = Some [hi; lo] /\
    hex_value hi = Some h /\ hex_value lo = Some l /\
    0x4A = 16 * h + l /\ 0 <= h < 16 /\ 0 <= l < 16.
Proof.
  apply (formatHex_reads_back 0x4A). lia.
Defined.

Lemma abs_small (x : Z) :
  - 32768 < x < 32768 -> Gopherclaw.abs x = Z.abs x.
Proof.
  intros Hx. unfold Gopherclaw.abs.
  destruct (Z.ltb_spec x 0); [| lia].
  rewrite int_wrap_small by (change (2 ^ (16 - 1)) with 32768; lia). lia.
Qed.

(** X6.  [abs] is the absolute value on every [int16] but the least one,
    which it returns unchanged, so that its result is negative there. *)
Theorem abs_int16 (x : Z) :
  - 32768 <= x < 32768 ->
  Gopherclaw.abs x = (if x =? - 32768 then - 32768 else Z.abs x) /\
  (0 <= Gopherclaw.abs x <-> x <> - 32768).
Proof.
  intros Hx. destruct (Z.eqb_spec x (- 32768)) as [-> | Hne].
  - split; [reflexivity |]. cbn. split; [intros H; contradiction H | ];
      reflexivity || congruence.
  - rewrite abs_small by lia. split; [reflexivity | split; [auto | lia]].
Qed.

Lemma abs_int16_witness :
  Gopherclaw.abs (- 32768) =
    (if - 32768 =? - 32768 then - 32768 else Z.abs (- 32768)) /\
  (0 <= Gopherclaw.abs (- 32768) <-> - 32768 <> - 32768).
Proof.
  apply (abs_int16 (- 32768)). lia.
Defined.

Lemma sendIfChanged_changed (control cc last : Z) :
  is_byte cc -> is_byte last ->
  Gopherclaw.sendIfChanged control cc last = (changed control cc last, cc).
Proof.
  unfold is_byte. intros Hc Hl. unfold Gopherclaw.sendIfChanged, changed.
  rewrite (int_wrap_small 16 cc), (int_wrap_small 16 last),
    (int_wrap_small 16 (cc - last))
    by (change (2 ^ (16 - 1)) with 32768; lia).
  rewrite abs_small by lia.
  unfold Gopherclaw.changeThreshold.
  destruct (Z.eqb_spec cc last) as [-> | Hne].
  - rewrite Z.sub_diag. reflexivity.
  - replace (1 <=? Z.abs (cc - last)) with true
      by (symmetry; apply Z.leb_le; lia).
    reflexivity.
Qed.

(** X7.  The change detection of the main loop.  On CC values and last
    values that are bytes, one pass sends a control change for exactly
    the axes whose value differs from the last one sent, in the order
    roll (CC 65), pitch (CC 66), yaw (CC 67), on cable 0 and channel 1,
    and the last values are then the current ones.  The differences
    are taken in [int16], where two bytes cannot wrap.  From the initial
    last values 255 every axis whose value is not 255 is sent. *)
Theorem sendChanges_differences (lr lp ly r p y : Z) :
  is_byte lr -> is_byte lp -> is_byte ly ->
  is_byte r -> is_byte p -> is_byte y ->
  Gopherclaw.sendChanges (lr, lp, ly) (r, p, y) =
    (changed 65 r lr ++ changed 66 p lp ++ changed 67 y ly, (r, p, y)) /\
  Gopherclaw.sendChanges Gopherclaw.lastInit (r, p, y) =
    (changed 65 r 255 ++ changed 66 p 255 ++ changed 67 y 255, (r, p, y)) /\
  Gopherclaw.sendChanges (r, p, y) (r, p, y) = ([], (r, p, y)).
Proof.
  intros Hlr Hlp Hly Hr Hp Hy.
  assert (H255 : is_byte 255) by (unfold is_byte; lia).
  unfold Gopherclaw.sendChanges, Gopherclaw.lastInit.
  rewrite !sendIfChanged_changed by assumption.
  repeat split. unfold changed. rewrite !Z.eqb_refl. reflexivity.
Qed.

Lemma sendChanges_differences_witness :
  Gopherclaw.sendChanges (255, 64, 10) (63, 64, 11) =
    (changed 65 63 255 ++ changed 66 64 64 ++ changed 67 11 10, (63, 64, 11)) /\
  Gopherclaw.sendChanges Gopherclaw.lastInit (63, 64, 11) =
    (changed 65 63 255 ++ changed 66 64 255 ++ changed 67 11 255,
     (63, 64, 11)) /\
  Gopherclaw.sendChanges (63, 64, 11) (63, 64, 11) = ([], (63, 64, 11)).
Proof.
  apply (sendChanges_differences 255 64 10 63 64 11); unfold is_byte; lia.
Defined.

(** ** Programs that always return *)

Lemma ensures_ret {A} (a : A) (P : A -> Prop) : P a -> ensures (ret a) P.
Proof. intros Ha w. exists a, w. split; [reflexivity | exact Ha]. Qed.

Lemma ensures_lift {A} (o : option A) (a : A) (P : A -> Prop) :
  o = Some a -> P a -> ensures (lift o) P.
Proof. intros -> Ha w. exists a, w. split; [reflexivity | exact Ha]. Qed.

Lemma ensures_bind {A B} (m : M A) (f : A -> M B) (P : A -> Prop)
    (Q : B -> Prop) :
  ensures m P -> (forall a, P a -> ensures (f a) Q) -> ensures (bind m f) Q.
Proof.
  intros Hm Hf w. destruct (Hm w) as (a & w1 & Hrun & Ha).
  destruct (Hf a Ha w1) as (b & w2 & Hrun2 & Hb).
  exists b, w2. unfold bind. rewrite Hrun. auto.
Qed.

Lemma ensures_weaken {A} (m : M A) (P Q : A -> Prop) :
  ensures m P -> (forall a, P a -> Q a) -> ensures m Q.
Proof.
  intros Hm HPQ w. destruct (Hm w) as (a & w' & Hrun & Ha). eauto.
Qed.

Lemma fill_length (n : nat) (d : list Z) : length (fill n d) = n.
Proof.
  unfold fill. rewrite length_take, length_app, length_replicate. lia.
Qed.

Lemma fill_bytes (n : nat) (d : list Z) : Forall is_byte (fill n d).
Proof.
  unfold fill. apply Forall_take, Forall_app. split.
  - apply Forall_forall. intros x Hx. apply list_elem_of_fmap in Hx as (y & -> & _).
    apply uint8_range.
  - apply Forall_replicate. unfold is_byte. lia.
Qed.

(** A transaction returns a buffer of the length asked for, of bytes. *)
Lemma ensures_Tx (a : Z) (wr : list Z) (n : nat) :
  ensures (Tx a wr n)
    (fun r => length (snd r) = n /\ Forall is_byte (snd r)).
Proof.
  intros w. eexists _, _. split; [reflexivity |]. cbn.
  split; [apply fill_length | apply fill_bytes].
Qed.

Lemma ensures_Sleep (ms : Z) (P : unit -> Prop) :
  P tt -> ensures (Sleep ms) P.
Proof. intros HP w. eexists _, _. split; [reflexivity | exact HP]. Qed.

Lemma ensures_PrintAll (ls : list Line) (P : unit -> Prop) :
  P tt -> ensures (PrintAll ls) P.
Proof. intros HP w. eexists _, _. split; [reflexivity | exact HP]. Qed.

Lemma ensures_forN (n : nat) (body : M bool) :
  ensures body (fun _ => True) -> ensures (forN n body) (fun _ => True).
Proof.
  intros Hbody. induction n as [| n IH]; cbn [forN].
  - apply ensures_ret. exact Logic.I.
  - eapply ensures_bind; [exact Hbody |].
    intros [|] _; [apply ensures_ret; exact Logic.I | exact IH].
Qed.

(** A loop keeps an invariant that may count the iterations. *)
Lemma ensures_forAcc {V} (n : nat) (body : V -> M V)
    (Inv : nat -> V -> Prop) :
  (forall k v, Inv k v -> ensures (body v) (Inv (S k))) ->
  forall k acc, Inv k acc -> ensures (forAcc n body acc) (Inv (n + k)%nat).
Proof.
  intros Hbody. induction n as [| n IH]; intros k acc Hacc; cbn [forAcc].
  - apply ensures_ret. exact Hacc.
  - eapply ensures_bind; [apply (Hbody k acc Hacc) |].
    intros v Hv. replace (S n + k)%nat with (n + S k)%nat by lia.
    apply IH. exact Hv.
Qed.

Lemma ensures_Tx_bind {B} (a : Z) (wr : list Z) (n : nat)
    (f : bool * list Z -> M B) (Q : B -> Prop) :
  (forall err r, length r = n -> Forall is_byte r -> ensures (f (err, r)) Q) ->
  ensures (bind (Tx a wr n) f) Q.
Proof.
  intros Hf. eapply ensures_bind; [apply ensures_Tx |].
  intros [err r] [Hlen Hbytes]. apply Hf; assumption.
Qed.

Lemma ensures_Sleep_bind {B} (ms : Z) (f : unit -> M B) (Q : B -> Prop) :
  ensures (f tt) Q -> ensures (bind (Sleep ms) f) Q.
Proof.
  intros Hf. apply ensures_bind with (P := fun _ => True).
  - apply ensures_Sleep. exact Logic.I.
  - intros [] _. exact Hf.
Qed.

Lemma ensures_PrintAll_bind {B} (ls : list Line) (f : unit -> M B)
    (Q : B -> Prop) :
  ensures (f tt) Q -> ensures (bind (PrintAll ls) f) Q.
Proof.
  intros Hf. apply ensures_bind with (P := fun _ => True).
  - apply ensures_PrintAll. exact Logic.I.
  - intros [] _. exact Hf.
Qed.

Lemma ensures_lift_bind {A B} (o : option A) (a : A) (f : A -> M B)
    (Q : B -> Prop) :
  o = Some a -> ensures (f a) Q -> ensures (bind (lift o) f) Q.
Proof.
  intros Ho Hf. apply ensures_bind with (P := fun x => x = a).
  - eapply ensures_lift; [exact Ho | reflexivity].
  - intros x ->. exact Hf.
Qed.

Lemma ensures_ret_bind {A B} (a : A) (f : A -> M B) (Q : B -> Prop) :
  ensures (f a) Q -> ensures (bind (ret a) f) Q.
Proof.
  intros Hf. apply ensures_bind with (P := fun x => x = a).
  - apply ensures_ret. reflexivity.
  - intros x ->. exact Hf.
Qed.

Lemma at_index_Some {A} (l : list A) (i : Z) :
  0 <= i < len l -> exists x, at_index l i = Some x.
Proof.
  intros Hi. destruct (at_index_in_range l i Hi) as (x & Hx & _). eauto.
Qed.

Lemma mapM_at_index {A} (l : list A) (lo n : Z) :
  0 <= lo -> lo + n <= len l ->
  exists xs, mapM (at_index l) (seqZ lo n) = Some xs.
Proof.
  intros Hlo Hn.
  assert (H : is_Some (mapM (at_index l) (seqZ lo n))).
  { apply mapM_is_Some, Forall_forall. intros i Hi.
    apply elem_of_seqZ in Hi.
    destruct (at_index_Some l i) as [x Hx]; [lia | eauto]. }
  destruct H as [xs Hxs]. eauto.
Qed.

(** The four bytes of a header. *)
Lemma header_bytes (header : list Z) :
  length header = 4%nat -> Forall is_byte header ->
  exists b0 b1 b2 b3,
    header = [b0; b1; b2; b3] /\ is_byte b0 /\ is_byte b1 /\
    is_byte b2 /\ is_byte b3.
Proof.
  intros Hlen Hbytes.
  destruct header as [| b0 [| b1 [| b2 [| b3 [| ? ?]]]]]; try discriminate.
  exists b0, b1, b2, b3.
  repeat (apply Forall_cons in Hbytes as [? Hbytes]). auto.
Qed.

Lemma count_of_bump (cc : gmap Z Z) (c c' : Z) :
  count_of (Hybrid.bump cc c) c' =
    if decide (c = c') then count_of cc c' + 1 else count_of cc c'.
Proof.
  unfold count_of, Hybrid.bump. destruct (decide (c = c')) as [-> | Hne].
  - rewrite lookup_insert_eq. reflexivity.
  - rewrite lookup_insert_ne by exact Hne. reflexivity.
Qed.

Lemma hybrid_inv_S (k : nat) (st : Z * gmap Z Z) :
  hybrid_inv k st -> hybrid_inv (S k) st.
Proof.
  intros (Hsum & Hrc & Hc). repeat split; try lia; apply Hc || (specialize (Hc c); lia).
Qed.

Lemma hybrid_poll_inv (k : nat) (st : Z * gmap Z Z) :
  hybrid_inv k st -> ensures (Hybrid.poll st) (hybrid_inv (S k)).
Proof.
  intros Hinv. pose proof (hybrid_inv_S _ _ Hinv) as Hsame.
  destruct st as [rc cc]. unfold Hybrid.poll.
  apply ensures_Tx_bind. intros err header Hlen Hbytes.
  assert (Hskip : ensures (Sleep 10;; ret (rc, cc)) (hybrid_inv (S k)))
    by (apply ensures_Sleep_bind, ensures_ret; exact Hsame).
  destruct err; [exact Hskip |].
  destruct (header_bytes header Hlen Hbytes)
    as (b0 & b1 & b2 & b3 & -> & Hb0 & Hb1 & _).
  eapply ensures_lift_bind; [reflexivity |].
  destruct (negb _); [exact Hskip |].
  destruct (_ =? 0); [exact Hskip |].
  set (length := Z.land (Z.lor b0 (Z.shiftl b1 8)) 0x7FFF).
  destruct ((4 <? length) && (length <? 500)) eqn:Hacc; [| exact Hskip].
  apply andb_true_iff in Hacc as [H4 H500].
  apply Z.ltb_lt in H4, H500.
  apply ensures_Tx_bind. intros err packet Hplen Hpbytes.
  destruct err; [exact Hskip |].
  destruct (at_index_Some packet 2) as [channel Hch];
    [unfold len; lia |].
  eapply ensures_lift_bind; [exact Hch |].
  destruct Hinv as (Hsum & Hrc & Hc). cbn [fst snd] in *.
  assert (Hcount : forall c, 0 <= count_of (Hybrid.bump cc channel) c
                             <= Z.of_nat (S k)).
  { intros c. rewrite count_of_bump. specialize (Hc c).
    destruct (decide (channel = c)); lia. }
  destruct (mapM_at_index packet 4 (Z.min length 12 - 4)) as [xs Hxs];
    [lia | unfold len; lia |].
  replace (4 <? length) with true by (symmetry; apply Z.ltb_lt; lia).
  destruct ((channel =? 3) || (channel =? 4) || (channel =? 5)) eqn:Hrep.
  - apply ensures_bind with (P := fun x => x = rc + 1).
    + apply ensures_bind with (P := fun _ => True).
      * eapply ensures_lift_bind; [exact Hxs |].
        apply ensures_ret. exact Logic.I.
      * intros _ _. apply ensures_ret. reflexivity.
    + intros rc' ->. apply ensures_Sleep_bind, ensures_ret.
      split; [| split; [cbn; lia | exact Hcount]]. cbn [fst snd].
      rewrite !count_of_bump.
      repeat destruct (decide _); lia.
  - apply ensures_ret_bind. apply ensures_Sleep_bind, ensures_ret.
    split; [| split; [cbn; lia | exact Hcount]]. cbn [fst snd].
    rewrite !count_of_bump.
    repeat destruct (decide _); lia.
Qed.

(** X8.  The polling loop of hybrid_test returns whatever the device
    answers (each packet it indexes has more than four bytes), and at
    its end [reportCount] is the number of packets counted on channels
    3, 4 and 5 together; no count exceeds the 100 passes. *)
Theorem hybrid_report_count :
  ensures Hybrid.pollLoop
    (fun st =>
       fst st = count_of (snd st) 3 + count_of (snd st) 4
                + count_of (snd st) 5 /\
       0 <= fst st <= 100 /\
       forall c, 0 <= count_of (snd st) c <= 100).
Proof.
  unfold Hybrid.pollLoop.
  apply (ensures_forAcc 100 Hybrid.poll hybrid_inv hybrid_poll_inv 0 (0, ∅)).
  repeat split; cbn; try lia; unfold count_of; rewrite lookup_empty; cbn; lia.
Qed.

(** ** The channel-debug program always returns *)

Lemma parseTags_total (fuel : nat) (advert : list Z) (advertLen : Z) :
  Forall is_byte advert -> advertLen <= len advert ->
  forall t : ChannelDebug.Tags,
    0 <= ChannelDebug.cursor t ->
    advertLen - ChannelDebug.cursor t <= Z.of_nat fuel ->
    exists t', ChannelDebug.parseTags fuel advert advertLen t = Done t'.
Proof.
  intros Hbytes Hlen.
  induction fuel as [| fuel IH]; intros t Hc Hfuel;
    cbn [ChannelDebug.parseTags].
  - replace (ChannelDebug.cursor t <? advertLen) with false
      by (symmetry; apply Z.ltb_ge; lia).
    eauto.
  - destruct (ChannelDebug.cursor t <? advertLen) eqn:Hloop; [| eauto].
    apply Z.ltb_lt in Hloop.
    destruct (ChannelDebug.cursor t + 1 >=? advertLen) eqn:Hone; [eauto |].
    assert (Hroom : ChannelDebug.cursor t + 1 < advertLen).
    { rewrite Z.geb_leb in Hone. apply Z.leb_gt in Hone. lia. }
    destruct (at_index_in_range advert (ChannelDebug.cursor t))
      as (tag & -> & _); [lia |].
    destruct (at_index_in_range advert (ChannelDebug.cursor t + 1))
      as (length & -> & Hin); [lia |].
    assert (Hlength : is_byte length)
      by (rewrite Forall_forall in Hbytes; apply Hbytes; exact Hin).
    unfold is_byte in Hlength.
    destruct (ChannelDebug.cursor t + 2 + length >? advertLen) eqn:Hpast;
      [eauto |].
    assert (Hfits : ChannelDebug.cursor t + 2 + length <= advertLen).
    { rewrite Z.gtb_ltb in Hpast. apply Z.ltb_ge in Hpast. lia. }
    assert (Hchan : exists cp,
              (if (tag =? 4) && (length =? 1)
               then (c ← at_index advert (ChannelDebug.cursor t + 2);
                     Some (c, ChannelDebug.printed t ++ [PrNormalChannel c]))%stdpp
               else Some (ChannelDebug.currentChan t, ChannelDebug.printed t))
              = Some cp).
    { destruct ((tag =? 4) && (length =? 1)) eqn:H4; [| eauto].
      apply andb_true_iff in H4 as [_ H1]. apply Z.eqb_eq in H1.
      destruct (at_index_Some advert (ChannelDebug.cursor t + 2)) as [c ->];
        [lia |].
      cbn. eauto. }
    destruct Hchan as [[chan pr] ->].
    assert (Hname : exists cp,
              (if (tag =? 8) && (0 <? length) && (0 <? chan)
               then (name ← slice advert (ChannelDebug.cursor t + 2)
                               (ChannelDebug.cursor t + 2 + length);
                     Some (<[name := chan]> (ChannelDebug.channels t),
                           pr ++ [PrChannelName chan name]))%stdpp
               else Some (ChannelDebug.channels t, pr)) = Some cp).
    { destruct ((tag =? 8) && (0 <? length) && (0 <? chan)); [| eauto].
      destruct (slice_in_range advert (ChannelDebug.cursor t + 2)
                  (ChannelDebug.cursor t + 2 + length)) as (name & -> & _);
        [lia | lia |].
      cbn. eauto. }
    destruct Hname as [[chs pr'] ->].
    apply IH; cbn [ChannelDebug.cursor]; lia.
Qed.

Lemma channel_debug_step2_returns :
  ensures ChannelDebug.step2 (fun _ => True).
Proof.
  unfold ChannelDebug.step2.
  apply ensures_Tx_bind. intros err header Hlen Hbytes.
  destruct (header_bytes header Hlen Hbytes)
    as (b0 & b1 & b2 & b3 & -> & _).
  eapply ensures_lift_bind; [reflexivity |].
  eapply ensures_lift_bind; [reflexivity |].
  set (advertLen := Z.land (Z.lor b0 (Z.shiftl b1 8)) 0x7FFF).
  destruct ((4 <? advertLen) && (advertLen <? 500)) eqn:Hacc;
    [| apply ensures_ret; exact Logic.I].
  apply andb_true_iff in Hacc as [H4 H500]. apply Z.ltb_lt in H4, H500.
  apply ensures_Tx_bind. intros err' advert Halen Habytes.
  destruct (at_index_Some advert 4) as [reportID Hid]; [unfold len; lia |].
  eapply ensures_lift_bind; [exact Hid |].
  destruct (parseTags_total (Z.to_nat advertLen) advert advertLen Habytes
              ltac:(unfold len; lia)
              {| ChannelDebug.cursor := 4 + 1; ChannelDebug.currentChan := 0;
                 ChannelDebug.channels := ∅; ChannelDebug.printed := [] |})
    as [t Ht]; [cbn; lia | cbn; lia |].
  unfold run. rewrite Ht.
  eapply ensures_lift_bind; [reflexivity |].
  apply ensures_PrintAll_bind, ensures_ret. exact Logic.I.
Qed.

Lemma ensures_sendOnChannel_channel_debug {B} (a c s : Z) (seq p : list Z)
    (f : list Z -> M B) (Q : B -> Prop) :
  0 <= c < len seq -> seq !! Z.to_nat c = Some s ->
  ensures (f (<[Z.to_nat c := uint8 (s + 1)]> seq)) Q ->
  ensures (bind (ChannelDebug.sendOnChannel a seq c p) f) Q.
Proof.
  intros Hc Hs Hf.
  apply ensures_bind
    with (P := fun x => x = <[Z.to_nat c := uint8 (s + 1)]> seq).
  - intros w. eexists _, _.
    split; [apply sendOnChannel_channel_debug; eassumption | reflexivity].
  - intros x ->. exact Hf.
Qed.

Lemma channel_debug_poll_returns (cc : gmap Z Z) :
  ensures (ChannelDebug.poll cc) (fun _ => True).
Proof.
  unfold ChannelDebug.poll.
  apply ensures_Tx_bind. intros err header Hlen Hbytes.
  assert (Hskip : ensures (Sleep 10;; ret cc) (fun _ => True))
    by (apply ensures_Sleep_bind, ensures_ret; exact Logic.I).
  destruct err; [exact Hskip |].
  destruct (header_bytes header Hlen Hbytes)
    as (b0 & b1 & b2 & b3 & -> & _).
  eapply ensures_lift_bind; [reflexivity |].
  destruct (negb _); [exact Hskip |].
  destruct (_ =? 0); [exact Hskip |].
  set (length := Z.land (Z.lor b0 (Z.shiftl b1 8)) 0x7FFF).
  destruct ((4 <? length) && (length <? 500)) eqn:Hacc; [| exact Hskip].
  apply andb_true_iff in Hacc as [H4 H500]. apply Z.ltb_lt in H4, H500.
  apply ensures_Tx_bind. intros err packet Hplen Hpbytes.
  destruct err; [exact Hskip |].
  destruct (at_index_Some packet 2) as [channel Hch]; [unfold len; lia |].
  destruct (at_index_Some packet 3) as [s Hs]; [unfold len; lia |].
  destruct (mapM_at_index packet 4 (Z.min length 12 - 4)) as [xs Hxs];
    [lia | unfold len; lia |].
  eapply ensures_lift_bind; [exact Hch |].
  eapply ensures_lift_bind; [exact Hs |].
  replace (4 <? length) with true by (symmetry; apply Z.ltb_lt; lia).
  apply ensures_bind with (P := fun _ => True).
  - eapply ensures_lift_bind; [exact Hxs |]. apply ensures_ret. exact Logic.I.
  - intros _ _. apply ensures_Sleep_bind, ensures_ret. exact Logic.I.
Qed.

(** X9.  The channel-debug program returns whatever the device answers:
    no index into the header, the advertisement or a packet is out of
    range, the tag loop ends within its bound, and the counters it
    ends with are 0 0 2 0 0 0 (none when the bus could not be
    configured). *)
Theorem channel_debug_returns (configure_err : bool) :
  ensures (ChannelDebug.main configure_err)
    (fun r => fst (fst r) =
              if configure_err then [0; 0; 0; 0; 0; 0]
              else [0; 0; 2; 0; 0; 0]).
Proof.
  unfold ChannelDebug.main. apply ensures_Sleep_bind.
  destruct configure_err; [apply ensures_ret; reflexivity |].
  apply ensures_Tx_bind. intros _ _ _ _.
  apply ensures_Sleep_bind.
  eapply ensures_bind; [apply channel_debug_step2_returns |].
  intros channels _.
  unfold ChannelDebug.step3, ChannelDebug.step4.
  apply ensures_bind with (P := fun x => x = [0; 0; 1; 0; 0; 0]).
  { eapply ensures_sendOnChannel_channel_debug;
      [unfold len; cbn [length]; lia | reflexivity |].
    apply ensures_Sleep_bind, ensures_ret. reflexivity. }
  intros seq ->.
  apply ensures_bind with (P := fun x => x = [0; 0; 2; 0; 0; 0]).
  { eapply ensures_sendOnChannel_channel_debug;
      [unfold len; cbn [length]; lia | reflexivity |].
    apply ensures_Sleep_bind, ensures_ret. reflexivity. }
  intros seq ->.
  apply ensures_bind with (P := fun _ => True).
  - apply (ensures_forAcc 100 ChannelDebug.poll (fun _ _ => True)
             (fun k v _ => channel_debug_poll_returns v) 0 ∅ Logic.I).
  - intros counts _. apply ensures_ret. reflexivity.
Qed.

(** ** setfeature_test always returns *)

Lemma mapM_at_index_seqZ {A} (l : list A) (n : nat) (lo : nat) :
  (lo + n <= length l)%nat ->
  mapM (at_index l) (seqZ (Z.of_nat lo) (Z.of_nat n)) = Some (take n (drop lo l)).
Proof.
  revert lo. induction n as [| n IH]; intros lo Hn.
  - reflexivity.
  - rewrite Nat2Z.inj_succ, seqZ_cons by lia.
    replace (Z.pred (Z.succ (Z.of_nat n))) with (Z.of_nat n) by lia.
    replace (Z.succ (Z.of_nat lo)) with (Z.of_nat (S lo)) by lia.
    destruct (lookup_lt_is_Some_2 l lo) as [x Hx]; [lia |].
    cbn [mapM]. rewrite IH by lia.
    unfold at_index at 1.
    replace (Z.of_nat lo <? 0) with false by (symmetry; apply Z.ltb_ge; lia).
    rewrite Nat2Z.id, Hx. cbn.
    rewrite (drop_S l x lo Hx). reflexivity.
Qed.

Lemma mapM_cons_Some {A B} (f : A -> option B) (x : A) (l : list A)
    (y : B) (k : list B) :
  f x = Some y -> mapM f l = Some k -> mapM f (x :: l) = Some (y :: k).
Proof. intros Hx Hl. cbn. rewrite Hx, Hl. reflexivity. Qed.

(** One row of the dump. *)
Lemma dump_row (payload : list Z) (j : nat) :
  (j < length payload)%nat ->
  (let j := Z.of_nat j in
   let end_ := if j + 10 >? len payload then len payload else j + 10 in
   mapM (at_index payload) (seqZ j (end_ - j)))
  = Some (take 10 (drop j payload)).
Proof.
  intros Hj. cbv zeta. unfold len.
  destruct (Z.of_nat j + 10 >? Z.of_nat (length payload)) eqn:Hend.
  - rewrite Z.gtb_ltb in Hend. apply Z.ltb_lt in Hend.
    replace (Z.of_nat (length payload) - Z.of_nat j)
      with (Z.of_nat (length payload - j)) by lia.
    rewrite mapM_at_index_seqZ by lia. f_equal.
    rewrite !take_ge; [reflexivity | |]; rewrite length_drop; lia.
  - rewrite Z.gtb_ltb in Hend. apply Z.ltb_ge in Hend.
    replace (Z.of_nat j + 10 - Z.of_nat j) with (Z.of_nat 10) by lia.
    rewrite mapM_at_index_seqZ by lia. reflexivity.
Qed.

Lemma dump_rows (payload : list Z) (js : list nat) :
  mapM (fun j =>
          let end_ := if j + 10 >? len payload then len payload else j + 10 in
          mapM (at_index payload) (seqZ j (end_ - j)))
       (filter (fun j => j < len payload) (map Z.of_nat js))
  = Some (map (fun j => take 10 (drop j payload))
            (filter (fun j => (j < length payload)%nat) js)).
Proof.
  induction js as [| j js IH]; [reflexivity |].
  cbn [map]. rewrite !filter_cons.
  destruct (decide (Z.of_nat j < len payload)) as [Hj | Hj];
    destruct (decide (j < length payload)%nat) as [Hj' | Hj'];
    unfold len in Hj; try lia; [| exact IH].
  cbn [map]. apply mapM_cons_Some; [| exact IH].
  exact (dump_row payload j Hj').
Qed.

Lemma concat_rows (payload : list Z) (js : list nat) :
  concat (map (fun j => take 10 (drop j payload))
            (filter (fun j => (j < length payload)%nat) js))
  = concat (map (fun j => take 10 (drop j payload)) js).
Proof.
  induction js as [| j js IH]; [reflexivity |].
  rewrite filter_cons. cbn [map concat].
  destruct (decide (j < length payload)%nat) as [Hj | Hj].
  - cbn [map concat]. rewrite IH. reflexivity.
  - rewrite IH, (drop_ge payload j) by lia. reflexivity.
Qed.

(** X10.  The dump of an advertisement shows its first 50 bytes, in order,
    in rows of at most ten, and indexes nothing outside the payload,
    whatever its length. *)
Theorem dump_first_50 (payload : list Z) :
  exists rows,
    SetFeature.dump payload = Some rows /\
    concat rows = take 50 payload /\
    Forall (fun row => (1 <= length row <= 10)%nat) rows.
Proof.
  exists (map (fun j => take 10 (drop j payload))
            (filter (fun j => (j < length payload)%nat)
               [0; 10; 20; 30; 40]%nat)).
  split; [exact (dump_rows payload [0; 10; 20; 30; 40]%nat) |].
  split.
  - rewrite concat_rows. cbn [map concat]. rewrite app_nil_r, drop_0.
    change (take 50 payload) with (take (40 + 10) payload).
    rewrite <- (take_take_drop payload 40 10).
    change (take 40 payload) with (take (30 + 10) payload).
    rewrite <- (take_take_drop payload 30 10).
    change (take 30 payload) with (take (20 + 10) payload).
    rewrite <- (take_take_drop payload 20 10).
    change (take 20 payload) with (take (10 + 10) payload).
    rewrite <- (take_take_drop payload 10 10).
    rewrite <- !app_assoc. reflexivity.
  - apply Forall_forall. intros row Hrow.
    apply list_elem_of_fmap in Hrow as (j & -> & Hj).
    apply list_elem_of_filter in Hj as [Hj _].
    rewrite length_take, length_drop. lia.
Qed.

Lemma buildFrame_frame_of (p : list Z) :
  SetFeature.buildFrame p = Some (frame_of 2 0 p).
Proof.
  unfold SetFeature.buildFrame, len. cbv zeta.
  rewrite make_header. cbn [take drop PutUint16 app mbind option_bind].
  rewrite set_index_2. cbn [mbind option_bind].
  rewrite set_index_3. cbn [mbind option_bind take drop app].
  rewrite take_0, drop_0, copy_full by reflexivity.
  reflexivity.
Qed.

(** X11.  The frame setfeature_test builds by hand for a command is the
    frame [sendOnChannel] writes on channel 2 while the counter of that
    channel is 0, for any payload: the same length bytes, channel,
    sequence number 0 and payload.  It never fails to build one. *)
Theorem buildFrame_sendOnChannel (a : Z) (seq p : list Z) (w : World) :
  length seq = 6%nat -> seq !! 2%nat = Some 0 ->
  exists frame,
    SetFeature.buildFrame p = Some frame /\
    Comprehensive.sendOnChannel a seq 2 p w =
      (Some (<[2%nat := 1]> seq), after w 1 [EvTx a frame 0]) /\
    ChannelDebug.sendOnChannel a seq 2 p w =
      (Some (<[2%nat := 1]> seq), after w 1 [EvTx a frame 0]) /\
    len frame = 4 + len p /\
    frame !! 2%nat = Some 2 /\ frame !! 3%nat = Some 0 /\ drop 4 frame = p.
Proof.
  intros Hlen Hs. exists (frame_of 2 0 p).
  assert (Hc : 0 <= 2 < len seq) by (unfold len; lia).
  split; [apply buildFrame_frame_of |].
  split; [exact (sendOnChannel_comprehensive a seq 2 0 p w Hc Hs) |].
  split; [exact (sendOnChannel_channel_debug a seq 2 0 p w Hc Hs) |].
  unfold frame_of, len. cbn [length lookup list_lookup drop].
  repeat split; lia.
Qed.

Lemma buildFrame_sendOnChannel_witness :
  exists frame,
    SetFeature.buildFrame SetFeature.payload = Some frame /\
    Comprehensive.sendOnChannel 0x4A [0; 0; 0; 0; 0; 0] 2 SetFeature.payload
      (start (fun _ => idle)) =
      (Some (<[2%nat := 1]> [0; 0; 0; 0; 0; 0]),
       after (start (fun _ => idle)) 1 [EvTx 0x4A frame 0]) /\
    ChannelDebug.sendOnChannel 0x4A [0; 0; 0; 0; 0; 0] 2 SetFeature.payload
      (start (fun _ => idle)) =
      (Some (<[2%nat := 1]> [0; 0; 0; 0; 0; 0]),
       after (start (fun _ => idle)) 1 [EvTx 0x4A frame 0]) /\
    len frame = 4 + len SetFeature.payload /\
    frame !! 2%nat = Some 2 /\ frame !! 3%nat = Some 0 /\
    drop 4 frame = SetFeature.payload.
Proof.
  apply (buildFrame_sendOnChannel 0x4A [0; 0; 0; 0; 0; 0] SetFeature.payload
           (start (fun _ => idle))); reflexivity.
Defined.

Lemma setfeature_drain_returns : ensures SetFeature.drain (fun _ => True).
Proof.
  unfold SetFeature.drain. apply ensures_forN.
  apply ensures_Tx_bind. intros err header Hlen Hbytes.
  destruct (header_bytes header Hlen Hbytes)
    as (b0 & b1 & b2 & b3 & -> & _).
  eapply ensures_lift_bind; [reflexivity |].
  eapply ensures_lift_bind; [reflexivity |].
  set (length := Z.lor b0 (Z.shiftl b1 8)).
  apply ensures_bind with (P := fun _ => True);
    [| intros _ _; apply ensures_Sleep_bind, ensures_ret; exact Logic.I].
  destruct (_ && _); [| apply ensures_ret; exact Logic.I].
  destruct ((b2 =? 0) && (4 <? length));
    [| apply ensures_ret; exact Logic.I].
  apply ensures_Tx_bind. intros err' payload Hplen Hpbytes.
  destruct err'; [apply ensures_ret; exact Logic.I |].
  eapply ensures_lift_bind;
    [exact (dump_rows payload [0; 10; 20; 30; 40]%nat) |].
  destruct (parseLoop_total (List.length payload) payload 0 [] Hpbytes
              ltac:(lia) ltac:(unfold len; lia)) as [out Hout].
  unfold SetFeature.parseAdvertisement, run. rewrite Hout.
  eapply ensures_lift_bind; [reflexivity |].
  apply ensures_PrintAll. exact Logic.I.
Qed.

Lemma setfeature_poll_returns : ensures SetFeature.poll (fun _ => True).
Proof.
  unfold SetFeature.poll.
  apply ensures_Tx_bind. intros err header Hlen Hbytes.
  destruct err; [apply ensures_Sleep; exact Logic.I |].
  destruct (header_bytes header Hlen Hbytes)
    as (b0 & b1 & b2 & b3 & -> & _).
  eapply ensures_lift_bind; [reflexivity |].
  eapply ensures_lift_bind; [reflexivity |].
  eapply ensures_lift_bind; [reflexivity |].
  destruct (negb _); [apply ensures_Sleep; exact Logic.I |].
  set (length := Z.lor b0 (Z.shiftl b1 8)).
  apply ensures_bind with (P := fun _ => True);
    [| intros _ _; apply ensures_Sleep; exact Logic.I].
  destruct (_ && _); [| apply ensures_ret; exact Logic.I].
  destruct (4 <? length) eqn:H4; [| apply ensures_ret; exact Logic.I].
  apply Z.ltb_lt in H4.
  apply ensures_Tx_bind. intros err' remaining Hrlen Hrbytes.
  destruct err'; [apply ensures_ret; exact Logic.I |].
  destruct (at_index_Some remaining 0) as [x Hx]; [unfold len; lia |].
  eapply ensures_lift_bind; [exact Hx |].
  apply ensures_ret. exact Logic.I.
Qed.

(** X12.  setfeature_test returns whatever the device answers: the header
    bytes, the dump, the advertisement parser and [remaining[0]] stay in
    range, and both frames are built.  When it runs to its end it has
    written three frames: the soft reset, the Initialize command and the
    set-feature command for the accelerometer (sensor 0x01, 10000
    microseconds), the two commands both with sequence number 0 on
    channel 2. *)
Theorem setfeature_returns (configure_err : bool) :
  ensures (SetFeature.main configure_err)
    (fun finished => configure_err = true -> finished = false) /\
  forall w w' : World,
    SetFeature.main false w = (Some true, w') ->
    exists n evs,
      w' = after w n evs /\
      writes evs = [ [5; 0; 1; 0; 1];
                     frame_of 2 0 SetFeature.initPayload;
                     frame_of 2 0 SetFeature.payload ] /\
      frame_of 2 0 SetFeature.payload =
        [0x15; 0; 2; 0; 0xFD; 0x01; 0; 0; 0; 0x10; 0x27; 0; 0;
         0; 0; 0; 0; 0; 0; 0; 0].
Proof.
  split;
    [| intros w w' Hrun;
       destruct (setfeature_main_run w w' Hrun) as (n & evs & Hw & Hwr);
       exists n, evs; repeat split; assumption || reflexivity].
  unfold SetFeature.main. apply ensures_Sleep_bind.
  destruct configure_err; [apply ensures_ret; reflexivity |].
  assert (Hstop : ensures (ret false)
                    (fun finished : bool => false = true -> finished = false))
    by (apply ensures_ret; reflexivity).
  apply ensures_Tx_bind. intros err _ _ _.
  destruct err; [exact Hstop |].
  apply ensures_Sleep_bind.
  eapply ensures_bind; [apply setfeature_drain_returns |]. intros _ _.
  eapply ensures_lift_bind; [apply buildFrame_frame_of |].
  apply ensures_Tx_bind. intros err _ _ _.
  destruct err; [exact Hstop |].
  apply ensures_Sleep_bind.
  eapply ensures_lift_bind; [apply buildFrame_frame_of |].
  apply ensures_Tx_bind. intros err _ _ _.
  destruct err; [exact Hstop |].
  apply ensures_Sleep_bind.
  apply ensures_bind with (P := fun _ => True).
  - apply ensures_forN.
    eapply ensures_bind; [apply setfeature_poll_returns |].
    intros _ _. apply ensures_ret. exact Logic.I.
  - intros _ _. apply ensures_ret. discriminate.
Qed.

(** ** Packets shorter than the code expects *)

Lemma at_index_lookup {A} (l : list A) (i : nat) :
  at_index l (Z.of_nat i) = l !! i.
Proof.
  unfold at_index.
  replace (Z.of_nat i <? 0) with false by (symmetry; apply Z.ltb_ge; lia).
  rewrite Nat2Z.id. reflexivity.
Qed.

Lemma lookup_by_length {A} (l : list A) (i : nat) :
  (if (i <? length l)%nat then is_Some (l !! i) else l !! i = None).
Proof.
  destruct (Nat.ltb_spec i (length l)).
  - apply lookup_lt_is_Some_2. assumption.
  - apply lookup_ge_None_2. assumption.
Qed.

(** X13.  What a poll of comprehensive_test does with a header it accepts
    (no error, bit 15 clear, a length from 1 to 499) once the packet has
    been read without error.  It indexes [fullPacket[2]], so a packet of
    one or two bytes is a panic; on a report channel (3, 4 or 5) with
    more than four bytes it indexes [fullPacket[6]], so a report of five
    or six bytes is a panic.  In every other case it returns, and the
    report count is one more exactly for a report channel. *)
Theorem poll_short_packet (w : World) (rc b0 b1 b2 b3 : Z) :
  rsp_err (w_bus w (w_n w)) = false ->
  rsp_err (w_bus w (S (w_n w))) = false ->
  fill 4 (rsp_data (w_bus w (w_n w))) = [b0; b1; b2; b3] ->
  let length := Z.lor b0 (Z.shiftl b1 8) in
  Z.testbit length 15 = false -> 0 < length < 500 ->
  let fullPacket :=
    fill (Z.to_nat length) (rsp_data (w_bus w (S (w_n w)))) in
  let report :=
    match fullPacket !! 2%nat with
    | Some channel => (channel =? 3) || (channel =? 4) || (channel =? 5)
    | None => false
    end in
  fst (Comprehensive.poll rc w) =
    if (length <? 3) || (report && (4 <? length) && (length <? 7))
    then None
    else Some (if report then rc + 1 else rc).
Proof.
  intros Herr Herr2 Hh length Hbit Hlen fullPacket report.
  pose proof (fill_4_bytes _ _ _ _ _ Hh) as (H0 & H1 & _).
  assert (Hl : 0 <= length < 65536)
    by (unfold length; rewrite lor_bytes by assumption; lia).
  unfold Comprehensive.poll. unfold bind at 1. rewrite Tx_after, Hh, Herr.
  cbn [take Uint16 lift bind]. fold length.
  rewrite bit15_test, Hbit. cbn [negb].
  replace (length =? 0) with false by (symmetry; apply Z.eqb_neq; lia).
  change (uint16 (Z.lnot 0x8000)) with 0x7FFF.
  rewrite mask15 by assumption.
  replace (0 <? length) with true by (symmetry; apply Z.ltb_lt; lia).
  replace (length <? 500) with true by (symmetry; apply Z.ltb_lt; lia).
  cbn [andb]. unfold bind at 1. rewrite Tx_after.
  change (w_n (after w 1 [EvTx Comprehensive.addr [] 4])) with (S (w_n w)).
  change (w_bus (after w 1 [EvTx Comprehensive.addr [] 4])) with (w_bus w).
  rewrite Herr2. fold fullPacket.
  assert (Hplen : List.length fullPacket = Z.to_nat length)
    by apply fill_length.
  change (at_index fullPacket 2) with (at_index fullPacket (Z.of_nat 2)).
  change (at_index fullPacket 4) with (at_index fullPacket (Z.of_nat 4)).
  change (at_index fullPacket 5) with (at_index fullPacket (Z.of_nat 5)).
  change (at_index fullPacket 6) with (at_index fullPacket (Z.of_nat 6)).
  rewrite !at_index_lookup.
  pose proof (lookup_by_length fullPacket 2) as L2.
  pose proof (lookup_by_length fullPacket 4) as L4.
  pose proof (lookup_by_length fullPacket 5) as L5.
  pose proof (lookup_by_length fullPacket 6) as L6.
  rewrite Hplen in L2, L4, L5, L6.
  destruct (Z.ltb_spec length 3) as [Hlt3 | Hge3].
  { replace (2 <? Z.to_nat length)%nat with false in L2
      by (symmetry; apply Nat.ltb_ge; lia).
    subst report. rewrite L2. reflexivity. }
  replace (2 <? Z.to_nat length)%nat with true in L2
    by (symmetry; apply Nat.ltb_lt; lia).
  destruct L2 as [channel Hch]. subst report. rewrite Hch.
  cbn [orb lift bind].
  destruct ((channel =? 3) || (channel =? 4) || (channel =? 5)) eqn:Hrep.
  - destruct (Z.ltb_spec 4 length) as [H4 | H4]; cbn [andb];
      [| reflexivity].
    replace (4 <? Z.to_nat length)%nat with true in L4
      by (symmetry; apply Nat.ltb_lt; lia).
    destruct L4 as [x4 Hx4]. rewrite Hx4.
    destruct (Z.ltb_spec length 7) as [H7 | H7].
    + replace (6 <? Z.to_nat length)%nat with false in L6
        by (symmetry; apply Nat.ltb_ge; lia).
      rewrite L6.
      destruct (fullPacket !! 5%nat); reflexivity.
    + replace (5 <? Z.to_nat length)%nat with true in L5
        by (symmetry; apply Nat.ltb_lt; lia).
      replace (6 <? Z.to_nat length)%nat with true in L6
        by (symmetry; apply Nat.ltb_lt; lia).
      destruct L5 as [x5 Hx5]. destruct L6 as [x6 Hx6].
      rewrite Hx5, Hx6. reflexivity.
  - cbn [andb]. destruct (channel =? 2); [| reflexivity].
    destruct (Z.ltb_spec 4 length) as [H4 | H4]; [| reflexivity].
    replace (4 <? Z.to_nat length)%nat with true in L4
      by (symmetry; apply Nat.ltb_lt; lia).
    destruct L4 as [x4 Hx4]. rewrite Hx4. reflexivity.
Qed.

Lemma poll_short_packet_witness :
  fst (Comprehensive.poll 0
         (start (scripted [ {| rsp_err := false; rsp_data := [5; 0; 3; 0] |};
                            {| rsp_err := false;
                               rsp_data := [5; 0; 3; 0; 8] |} ]))) = None.
Proof.
  exact (poll_short_packet
           (start (scripted [ {| rsp_err := false; rsp_data := [5; 0; 3; 0] |};
                              {| rsp_err := false;
                                 rsp_data := [5; 0; 3; 0; 8] |} ]))
           0 5 0 3 0 eq_refl eq_refl eq_refl eq_refl
           (conj eq_refl eq_refl)).
Defined.

Lemma slice_eq {A} (l : list A) (lo hi : Z) :
  0 <= lo <= hi -> hi <= len l ->
  slice l lo hi = Some (take (Z.to_nat (hi - lo)) (drop (Z.to_nat lo) l)).
Proof.
  intros Hlo Hhi. unfold slice, len in *.
  replace (0 <=? lo) with true by (symmetry; apply Z.leb_le; lia).
  replace (lo <=? hi) with true by (symmetry; apply Z.leb_le; lia).
  replace (hi <=? Z.of_nat (length l)) with true
    by (symmetry; apply Z.leb_le; lia).
  reflexivity.
Qed.

Lemma slice_past {A} (l : list A) (lo hi : Z) :
  len l < hi -> slice l lo hi = None.
Proof.
  intros Hhi. unfold slice, len in *.
  replace (hi <=? Z.of_nat (length l)) with false
    by (symmetry; apply Z.leb_gt; lia).
  rewrite andb_false_r. reflexivity.
Qed.

Lemma make_slice_head (n : Z) :
  4 <= n -> slice (make n) 0 4 = Some (replicate 4 0).
Proof.
  intros Hn. rewrite slice_eq by (unfold len, make; rewrite ?length_replicate; lia).
  change (Z.to_nat (4 - 0)) with 4%nat. change (Z.to_nat 0) with 0%nat.
  unfold make. rewrite drop_0, take_replicate. do 2 f_equal. lia.
Qed.

Lemma make_slice_tail (h : list Z) (n : Z) :
  length h = 4%nat -> 4 <= n ->
  slice (h ++ drop 4 (make n)) 4 (len (h ++ drop 4 (make n)))
  = Some (replicate (Z.to_nat (n - 4)) 0).
Proof.
  intros Hh Hn.
  assert (Hlen : len (h ++ drop 4 (make n)) = n).
  { unfold len, make. rewrite length_app, length_drop, length_replicate. lia. }
  rewrite slice_eq by lia. rewrite Hlen.
  change (Z.to_nat 4) with 4%nat.
  rewrite drop_app_length' by (symmetry; exact Hh).
  unfold make. rewrite drop_replicate, take_replicate. do 2 f_equal. lia.
Qed.

Lemma copy_zeros (n : nat) (src : list Z) :
  length src = n -> copy (replicate n 0) src = src.
Proof.
  intros Hn. unfold copy. rewrite length_replicate.
  rewrite take_ge, drop_ge by (rewrite ?length_replicate; lia).
  apply app_nil_r.
Qed.

(** X14.  What one pass of the header loop of i2c_test does after a header
    read without error.  For a length of 1, 2 or 3 the slice
    [packet[:4]] of a packet of that length is a panic.  For a length
    from 5 to 999 whose second read succeeds it shows the first
    [min(length, 20)] bytes of the header followed by the bytes of the
    second read.  Otherwise it shows nothing.  Bit 15 of the length is
    not looked at. *)
Theorem readOne_packet (w : World) (b0 b1 b2 b3 : Z) :
  rsp_err (w_bus w (w_n w)) = false ->
  fill 4 (rsp_data (w_bus w (w_n w))) = [b0; b1; b2; b3] ->
  let length := Z.lor b0 (Z.shiftl b1 8) in
  let second := w_bus w (S (w_n w)) in
  let remaining := fill (Z.to_nat (length - 4)) (rsp_data second) in
  fst (I2CTest.readOne w) =
    if (0 <? length) && (length <? 4) then None
    else if (4 <? length) && (length <? 1000) && negb (rsp_err second)
         then Some (Some (take (Z.to_nat (I2CTest.min length 20))
                            ([b0; b1; b2; b3] ++ remaining)))
         else Some None.
Proof.
  intros Herr Hh length second remaining.
  pose proof (fill_4_bytes _ _ _ _ _ Hh) as (H0 & H1 & _).
  assert (Hl : 0 <= length < 65536)
    by (unfold length; rewrite lor_bytes by assumption; lia).
  unfold I2CTest.readOne. unfold bind at 1. rewrite Tx_after, Hh, Herr.
  unfold bind, lift, ret.
  change (Z.to_nat 2) with 2%nat. change (Z.to_nat 3) with 3%nat.
  cbn [take Uint16 lookup list_lookup]. fold length.
  destruct (Z.ltb_spec 0 length) as [Hpos | Hpos]; cbn [andb];
    [| replace (4 <? length) with false by (symmetry; apply Z.ltb_ge; lia);
       reflexivity].
  destruct (Z.ltb_spec length 4) as [H4 | H4].
  { replace (length <? 1000) with true by (symmetry; apply Z.ltb_lt; lia).
    rewrite slice_past; [reflexivity |].
    unfold len, make. rewrite length_replicate. lia. }
  destruct (Z.ltb_spec length 1000) as [H1000 | H1000];
    [| rewrite andb_false_r; reflexivity].
  rewrite make_slice_head by lia.
  destruct (Z.ltb_spec 4 length) as [Hgt | Hgt]; [| reflexivity].
  cbn [andb]. rewrite Tx_after.
  change (w_n (after w 1 [EvTx I2CTest.address [] 4])) with (S (w_n w)).
  change (w_bus (after w 1 [EvTx I2CTest.address [] 4])) with (w_bus w).
  fold second. fold remaining.
  destruct (rsp_err second); [reflexivity |]. cbn [negb].
  change (copy (replicate 4 0) [b0; b1; b2; b3]) with [b0; b1; b2; b3].
  rewrite make_slice_tail by (reflexivity || lia).
  rewrite copy_zeros by apply fill_length.
  change (take 4 ([b0; b1; b2; b3] ++ drop 4 (make length)))
    with [b0; b1; b2; b3].
  rewrite slice_eq.
  - rewrite Z.sub_0_r. reflexivity.
  - unfold I2CTest.min. destruct (length <? 20); lia.
  - unfold len. rewrite length_app. unfold remaining.
    rewrite fill_length. cbn [List.length].
    unfold I2CTest.min. destruct (Z.ltb_spec length 20); lia.
Qed.

Lemma readOne_packet_witness :
  fst (I2CTest.readOne
         (start (scripted [ {| rsp_err := false;
                               rsp_data := [2; 0; 0; 0] |} ]))) = None.
Proof.
  exact (readOne_packet
           (start (scripted [ {| rsp_err := false;
                                 rsp_data := [2; 0; 0; 0] |} ]))
           2 0 0 0 eq_refl eq_refl).
Defined.

(** ** The address probe of the diagnostic tool *)

(** X15.  The probe of the diagnostic tool tries 0x4A with a read of four
    bytes, and 0x4B only when 0x4A gave an error; the address found is
    the first that answers, and 0 when neither does, in which case
    [main] stops before the driver is used.  Both calls of [formatHex]
    are in range. *)
Theorem probe_first_answer (w : World) :
  let e1 := rsp_err (w_bus w (w_n w)) in
  let e2 := rsp_err (w_bus w (S (w_n w))) in
  Diagnostic.probe Diagnostic.addresses 0 w =
    (Some (if e1 then if e2 then 0 else 0x4B else 0x4A),
     after w (if e1 then 2 else 1)
       (EvTx 0x4A [] 4 :: if e1 then [EvTx 0x4B [] 4] else [])) /\
  fst (Diagnostic.main false w) =
    Some (if e1 then if e2 then None else Some 0x4B else Some 0x4A) /\
  fst (Diagnostic.main true w) = Some None.
Proof.
  intros e1 e2. 
  assert (Hprobe : forall w : World,
    Diagnostic.probe Diagnostic.addresses 0 w =
    (Some (if rsp_err (w_bus w (w_n w))
           then if rsp_err (w_bus w (S (w_n w))) then 0 else 0x4B
           else 0x4A),
     after w (if rsp_err (w_bus w (w_n w)) then 2 else 1)
       (EvTx 0x4A [] 4 ::
        if rsp_err (w_bus w (w_n w)) then [EvTx 0x4B [] 4] else []))).
  { intros w0. unfold Diagnostic.probe, Diagnostic.addresses.
    unfold bind, lift, ret. cbn [Diagnostic.formatHex].
    change (Diagnostic.formatHex (uint8 74)) with (Some [52; 65]).
    change (Diagnostic.formatHex (uint8 75)) with (Some [52; 66]).
    cbv beta iota. rewrite Tx_after.
    destruct (rsp_err (w_bus w0 (w_n w0))); [| reflexivity].
    rewrite Tx_after.
    change (w_n (after w0 1 [EvTx 74 [] 4])) with (S (w_n w0)).
    change (w_bus (after w0 1 [EvTx 74 [] 4])) with (w_bus w0).
    rewrite after_after.
    destruct (rsp_err (w_bus w0 (S (w_n w0)))); reflexivity. }
  split; [apply Hprobe |]. split; [| reflexivity].
  unfold Diagnostic.main. unfold bind at 1. rewrite Sleep_after.
  unfold bind at 1. rewrite Hprobe.
  change (w_n (after w 0 [EvSleep 2000])) with (w_n w).
  change (w_bus (after w 0 [EvSleep 2000])) with (w_bus w).
  fold e1 e2. destruct e1; [destruct e2 |]; reflexivity.
Qed.

(** ** The steps of comprehensive_test before the polling loop *)

Lemma ensures_sendOnChannel_comprehensive {B} (a c s : Z) (seq p : list Z)
    (f : list Z -> M B) (Q : B -> Prop) :
  0 <= c < len seq -> seq !! Z.to_nat c = Some s ->
  ensures (f (<[Z.to_nat c := uint8 (s + 1)]> seq)) Q ->
  ensures (bind (Comprehensive.sendOnChannel a seq c p) f) Q.
Proof.
  intros Hc Hs Hf.
  apply ensures_bind
    with (P := fun x => x = <[Z.to_nat c := uint8 (s + 1)]> seq).
  - intros w. eexists _, _.
    split; [apply sendOnChannel_comprehensive; eassumption | reflexivity].
  - intros x ->. exact Hf.
Qed.

Lemma comprehensive_step1_returns :
  ensures Comprehensive.step1 (fun _ => True).
Proof.
  unfold Comprehensive.step1.
  apply ensures_bind with (P := fun _ => True).
  - apply ensures_forN. apply ensures_Tx_bind. intros err _ _ _.
    destruct err; [apply ensures_Sleep_bind |]; apply ensures_ret;
      exact Logic.I.
  - intros _ _. apply ensures_Sleep. exact Logic.I.
Qed.

Lemma comprehensive_step2_returns :
  ensures Comprehensive.step2 (fun _ => True).
Proof.
  unfold Comprehensive.step2. apply ensures_forN.
  apply ensures_Tx_bind. intros err header Hlen Hbytes.
  destruct (header_bytes header Hlen Hbytes)
    as (b0 & b1 & b2 & b3 & -> & _).
  eapply ensures_lift_bind; [reflexivity |].
  destruct (_ && _);
    [| apply ensures_Sleep_bind, ensures_ret; exact Logic.I].
  eapply ensures_lift_bind; [reflexivity |].
  apply ensures_bind with (P := fun _ => True);
    [| intros _ _; apply ensures_ret; exact Logic.I].
  destruct (4 <? _); [| apply ensures_ret; exact Logic.I].
  apply ensures_Tx_bind. intros _ _ _ _. apply ensures_ret. exact Logic.I.
Qed.

Lemma comprehensive_step4_reads :
  ensures
    (forN 10 ('(_, header) ← Tx Comprehensive.addr [] 4;
              length ← lift (Uint16 (take 2 header));
              (if (0 <? length) && (length <? 1000)
                  && (Z.land length 0x8000 =? 0)
               then
                 lift (at_index header 2);;
                 if 4 <? length
                 then '(_, payload) ← Tx Comprehensive.addr []
                                        (Z.to_nat (length - 4));
                      if 0 <? Z.of_nat (List.length payload)
                      then lift (at_index payload 0);; ret tt
                      else ret tt
                 else ret tt
               else ret tt);;
              Sleep 20;; ret false))
    (fun _ => True).
Proof.
  apply ensures_forN.
  apply ensures_Tx_bind. intros err header Hlen Hbytes.
  destruct (header_bytes header Hlen Hbytes)
    as (b0 & b1 & b2 & b3 & -> & _).
  eapply ensures_lift_bind; [reflexivity |].
  apply ensures_bind with (P := fun _ => True);
    [| intros _ _; apply ensures_Sleep_bind, ensures_ret; exact Logic.I].
  destruct (_ && _); [| apply ensures_ret; exact Logic.I].
  eapply ensures_lift_bind; [reflexivity |].
  destruct (4 <? _) eqn:H4; [| apply ensures_ret; exact Logic.I].
  apply Z.ltb_lt in H4.
  apply ensures_Tx_bind. intros _ payload Hplen _.
  destruct (0 <? _); [| apply ensures_ret; exact Logic.I].
  destruct (at_index_Some payload 0) as [x Hx]; [unfold len; lia |].
  eapply ensures_lift_bind; [exact Hx |]. apply ensures_ret. exact Logic.I.
Qed.

(** X16.  The five steps of comprehensive_test before the polling loop
    return whatever the device answers: the reset loop, the
    advertisement read and the two response loops index only the header
    and a payload that is not empty, and each of the three commands goes
    out on channel 2 of a table of six counters, whose counter it
    advances by one modulo 256.  Only the polling loop of step 6 can
    stop the program. *)
Theorem comprehensive_setup_returns (seq : list Z) (s : Z) :
  length seq = 6%nat -> seq !! 2%nat = Some s ->
  ensures Comprehensive.step1 (fun _ => True) /\
  ensures Comprehensive.step2 (fun _ => True) /\
  ensures (Comprehensive.step3 seq)
    (fun seq' => seq' = <[2%nat := uint8 (s + 1)]> seq) /\
  ensures (Comprehensive.step4 seq)
    (fun seq' => seq' = <[2%nat := uint8 (s + 1)]> seq) /\
  ensures (Comprehensive.step5 seq)
    (fun seq' => seq' = <[2%nat := uint8 (s + 1)]> seq) /\
  ensures (Comprehensive.step1;; Comprehensive.step2;;
           seq ← Comprehensive.step3 [0; 0; 0; 0; 0; 0];
           seq ← Comprehensive.step4 seq;
           Comprehensive.step5 seq)
    (fun seq' => seq' = [0; 0; 3; 0; 0; 0]).
Proof.
  intros Hlen Hs.
  assert (Hc : forall l : list Z, length l = 6%nat -> 0 <= 2 < len l)
    by (intros l Hl; unfold len; lia).
  assert (H3 : forall (l : list Z) (x : Z),
            length l = 6%nat -> l !! 2%nat = Some x ->
            ensures (Comprehensive.step3 l)
              (fun seq' => seq' = <[2%nat := uint8 (x + 1)]> l)).
  { intros l x Hl Hx. unfold Comprehensive.step3.
    eapply ensures_sendOnChannel_comprehensive; [auto | exact Hx |].
    apply ensures_Sleep_bind.
    apply ensures_bind with (P := fun _ => True).
    - apply ensures_forN. apply ensures_Tx_bind. intros _ _ _ _.
      apply ensures_Sleep_bind, ensures_ret. exact Logic.I.
    - intros _ _. apply ensures_ret. reflexivity. }
  assert (H4 : forall (l : list Z) (x : Z),
            length l = 6%nat -> l !! 2%nat = Some x ->
            ensures (Comprehensive.step4 l)
              (fun seq' => seq' = <[2%nat := uint8 (x + 1)]> l)).
  { intros l x Hl Hx. unfold Comprehensive.step4.
    eapply ensures_sendOnChannel_comprehensive; [auto | exact Hx |].
    apply ensures_Sleep_bind.
    apply ensures_bind with (P := fun _ => True).
    - apply comprehensive_step4_reads.
    - intros _ _. apply ensures_ret. reflexivity. }
  assert (H5 : forall (l : list Z) (x : Z),
            length l = 6%nat -> l !! 2%nat = Some x ->
            ensures (Comprehensive.step5 l)
              (fun seq' => seq' = <[2%nat := uint8 (x + 1)]> l)).
  { intros l x Hl Hx. unfold Comprehensive.step5.
    eapply ensures_sendOnChannel_comprehensive; [auto | exact Hx |].
    apply ensures_Sleep_bind, ensures_ret. reflexivity. }
  split; [apply comprehensive_step1_returns |].
  split; [apply comprehensive_step2_returns |].
  split; [apply H3; assumption |].
  split; [apply H4; assumption |].
  split; [apply H5; assumption |].
  eapply ensures_bind; [apply comprehensive_step1_returns |]. intros _ _.
  eapply ensures_bind; [apply comprehensive_step2_returns |]. intros _ _.
  eapply ensures_bind;
    [apply (H3 [0; 0; 0; 0; 0; 0] 0); reflexivity |]. intros l ->.
  eapply ensures_bind;
    [apply (H4 [0; 0; 1; 0; 0; 0] 1); reflexivity |]. intros l ->.
  eapply ensures_weaken;
    [apply (H5 [0; 0; 2; 0; 0; 0] 2); reflexivity |].
  intros l ->. reflexivity.
Qed.

Lemma comprehensive_setup_returns_witness :
  ensures (Comprehensive.step5 [0; 0; 255; 0; 0; 0])
    (fun seq' => seq' = <[2%nat := uint8 (255 + 1)]> [0; 0; 255; 0; 0; 0]).
Proof.
  apply (comprehensive_setup_returns [0; 0; 255; 0; 0; 0] 255);
    reflexivity.
Defined.

(** ** Edges of [sendOnChannel] and of the fraction digits *)

(** X17.  On a channel that the table of six counters does not have,
    [sendOnChannel] panics at [seq[channel]], before anything is
    written to the bus; both copies agree. *)
Theorem sendOnChannel_no_such_channel (a c : Z) (seq p : list Z)
    (w : World) :
  length seq = 6%nat -> 6 <= c < 256 ->
  Comprehensive.sendOnChannel a seq c p w = (None, w) /\
  ChannelDebug.sendOnChannel a seq c p w = (None, w).
Proof.
  intros Hlen Hc.
  assert (Hat : at_index seq c = None).
  { unfold at_index.
    replace (c <? 0) with false by (symmetry; apply Z.ltb_ge; lia).
    apply lookup_ge_None_2. lia. }
  split.
  - unfold Comprehensive.sendOnChannel.
    rewrite make_header. cbn [take drop PutUint16 lift bind app].
    rewrite set_index_2, Hat. reflexivity.
  - unfold ChannelDebug.sendOnChannel.
    rewrite make_header. cbn [take drop PutUint16 lift bind app].
    rewrite set_index_2, Hat. reflexivity.
Qed.

Lemma sendOnChannel_no_such_channel_witness :
  Comprehensive.sendOnChannel 0x4A [0; 0; 0; 0; 0; 0] 6 [0xF9; 0]
    (start (fun _ => idle)) = (None, start (fun _ => idle)) /\
  ChannelDebug.sendOnChannel 0x4A [0; 0; 0; 0; 0; 0] 6 [0xF9; 0]
    (start (fun _ => idle)) = (None, start (fun _ => idle)).
Proof.
  apply (sendOnChannel_no_such_channel 0x4A 6 [0; 0; 0; 0; 0; 0] [0xF9; 0]
           (start (fun _ => idle))); [reflexivity | lia].
Defined.

(** X18.  [itoa2] and [itoa3] write a number that is not negative with
    two and three digits, leading zeros included, so that it reads back
    unchanged below 100 and 1000; from there on they write 99 and
    999. *)
Theorem fraction_digits (n : Z) :
  0 <= n ->
  read_nat (NeoPixel.itoa2 n) = Some (Z.min n 99) /\
  length (NeoPixel.itoa2 n) = 2%nat /\
  read_nat (SensorTest.itoa3 n) = Some (Z.min n 999) /\
  length (SensorTest.itoa3 n) = 3%nat.
Proof.
  intros Hn.
  destruct (itoa2_reads n Hn) as [H2 L2].
  destruct (itoa3_reads n Hn) as [H3 L3]. auto.
Qed.

Lemma fraction_digits_witness :
  read_nat (NeoPixel.itoa2 1234) = Some (Z.min 1234 99) /\
  length (NeoPixel.itoa2 1234) = 2%nat /\
  read_nat (SensorTest.itoa3 1234) = Some (Z.min 1234 999) /\
  length (SensorTest.itoa3 1234) = 3%nat.
Proof.
  apply (fraction_digits 1234). lia.
Defined.

(** ** The two polls that count packets per channel *)

(** X19.  The poll of the channel-debug program and the poll of
    hybrid_test do the same thing to the bus and to the per-channel
    counts, whatever the device answers: the same transactions and
    sleeps in the same order, and the same count incremented.  The
    channel-debug poll also looks at [packet[3]], which the packet
    always has. *)
Theorem polls_count_alike (w : World) (rc : Z) (cc : gmap Z Z) :
  exists (rc' : Z) (cc' : gmap Z Z) (w' : World),
    Hybrid.poll (rc, cc) w = (Some (rc', cc'), w') /\
    ChannelDebug.poll cc w = (Some cc', w') /\
    (rc' = rc \/ rc' = rc + 1).
Proof.
  unfold Hybrid.poll, ChannelDebug.poll, bind, lift, ret.
  change Hybrid.addr with 0x4A. change ChannelDebug.addr with 0x4A.
  rewrite !Tx_after.
  pose proof (fill_length 4 (rsp_data (w_bus w (w_n w)))) as Hlen.
  pose proof (fill_bytes 4 (rsp_data (w_bus w (w_n w)))) as Hbytes.
  destruct (header_bytes _ Hlen Hbytes) as (b0 & b1 & b2 & b3 & -> & _).
  assert (Hskip : forall (k : nat) (evs : list Event),
            exists (rc' : Z) (cc' : gmap Z Z) (w' : World),
              (let (o, s') := Sleep 10 (after w k evs) in
               match o with
               | Some _ => (Some (rc, cc), s')
               | None => (None, s')
               end) = (Some (rc', cc'), w') /\
              (let (o, s') := Sleep 10 (after w k evs) in
               match o with
               | Some _ => (Some cc, s')
               | None => (None, s')
               end) = (Some cc', w') /\
              (rc' = rc \/ rc' = rc + 1)).
  { intros k evs. exists rc, cc. eexists. rewrite !Sleep_after. auto. }
  destruct (rsp_err (w_bus w (w_n w))); [apply Hskip |].
  cbn [take Uint16].
  destruct (negb _); [apply Hskip |].
  destruct (_ =? 0); [apply Hskip |].
  set (length := Z.land (Z.lor b0 (Z.shiftl b1 8)) 0x7FFF).
  destruct ((4 <? length) && (length <? 500)) eqn:Hacc; [| apply Hskip].
  apply andb_true_iff in Hacc as [H4 H500]. apply Z.ltb_lt in H4, H500.
  rewrite !Tx_after.
  change (w_n (after w 1 [EvTx 74 [] 4])) with (S (w_n w)).
  change (w_bus (after w 1 [EvTx 74 [] 4])) with (w_bus w).
  rewrite !after_after.
  destruct (rsp_err (w_bus w (S (w_n w)))); [apply Hskip |].
  set (packet := fill (Z.to_nat length) (rsp_data (w_bus w (S (w_n w))))).
  assert (Hplen : List.length packet = Z.to_nat length) by apply fill_length.
  destruct (at_index_Some packet 2) as [channel Hch]; [unfold len; lia |].
  destruct (at_index_Some packet 3) as [s Hs]; [unfold len; lia |].
  destruct (mapM_at_index packet 4 (Z.min length 12 - 4)) as [xs Hxs];
    [lia | unfold len; lia |].
  replace (4 <? length) with true by (symmetry; apply Z.ltb_lt; lia).
  rewrite Hch, Hs, Hxs.
  destruct ((channel =? 3) || (channel =? 4) || (channel =? 5));
    rewrite ?Hxs, !Sleep_after, !after_after; eexists _, _, _; auto.
Qed.

(** ** Angles outside the range of the mapping *)

Lemma above_not_below (d : spec_float) :
  ltb (f32 90 0) d = true -> ltb d (f32 (-90) 0) = false.
Proof.
  set (hi := f32 90 0). set (lo := f32 (-90) 0).
  vm_compute in hi, lo. subst hi lo.
  destruct d as [s | s | | s m e]; try destruct s; try discriminate;
    intros _; reflexivity.
Qed.

(** X20.  [angleToMIDI] and [angleToRGB] clamp: with [degrees] the angle
    in degrees as the code computes it in [float32], an angle below -90
    degrees gives 0, an angle above 90 degrees (an infinite one
    included) gives the top of the range, 127 and 255, and when
    [degrees] is a NaN the result is the conversion of a NaN to
    [uint8], which Go leaves to the implementation. *)
Theorem angles_saturate (angle : float32) :
  let degrees := div32 (mul32 angle (f32 180 0)) pi32 in
  (ltb degrees (f32 (-90) 0) = true ->
   Gopherclaw.angleToMIDI angle = Some 0 /\
   NeoPixel.angleToRGB angle = Some 0) /\
  (ltb (f32 90 0) degrees = true ->
   Gopherclaw.angleToMIDI angle = Some 127 /\
   NeoPixel.angleToRGB angle = Some 255) /\
  (degrees = S754_nan ->
   Gopherclaw.angleToMIDI angle = None /\
   NeoPixel.angleToRGB angle = None).
Proof.
  intros degrees.
  unfold Gopherclaw.angleToMIDI, NeoPixel.angleToRGB. fold degrees.
  split; [| split]; intros H.
  - rewrite H. split; vm_compute; reflexivity.
  - rewrite (above_not_below _ H), H. split; vm_compute; reflexivity.
  - rewrite H. split; vm_compute; reflexivity.
Qed.

(** An angle of two radians is above 90 degrees. *)
Lemma angles_saturate_witness :
  Gopherclaw.angleToMIDI (f32 2 0) = Some 127 /\
  NeoPixel.angleToRGB (f32 2 0) = Some 255.
Proof.
  apply (angles_saturate (f32 2 0)). vm_compute. reflexivity.
Defined.
